(** * Logging middleware: validation, token cache and retrying log shipper

    A shallow embedding of [LoggingMiddleware/src/logger.js] and
    [logging-middleware/src/auth.js], with the properties of the design
    document stated and proved over it.

    Modelling conventions.
    - A JavaScript string is a [string] whose characters are read as the
      Latin-1 code points U+0000..U+00FF; [toLowerCase] and [trim] are the
      ECMAScript functions restricted to that range.
    - Numbers that the code handles (status codes, timestamps, milliseconds,
      attempt counters) are integers, modelled in [Z].  Where the URL
      shortener reads a number from a text of any length, the number is the
      nearest double, and it is printed as [Number::toString] prints it.
    - [async] functions are run to completion one call at a time; whatever
      the outside world answers (clock readings, HTTP replies) is supplied by
      a [World] of oracles that see the whole history of effects so far.
    - Thrown values are an inductive type [Error], one constructor per
      [throw]/[reject] site of the source, instead of message strings.
    - Of the platform, what the source depends on is modelled: [new URL]
      refuses a string without a scheme, [http.request] refuses a negative
      timeout and a header value with a control character, and a template
      literal throws on a value that has no string form.  Whether the rest
      of a URL parses is for the [World] to say. *)

From Stdlib Require Import ZArith List String Ascii Bool Arith Lia.
Import ListNotations.

Open Scope string_scope.

(* ===================================================================== *)
(** ** JavaScript string primitives used by the source *)
(* ===================================================================== *)

Module JS.

(** Latin-1 code points that have a distinct lower-case form:
    A-Z and U+00C0..U+00DE without the multiplication sign U+00D7. *)
Definition has_lower (c : ascii) : bool :=
  let n := nat_of_ascii c in
  (((65 <=? n) && (n <=? 90)) ||
   ((192 <=? n) && (n <=? 222) && negb (n =? 215)))%nat.

Definition lower_char (c : ascii) : ascii :=
  if has_lower c then ascii_of_nat (nat_of_ascii c + 32) else c.

(** [String.prototype.toLowerCase] *)
Fixpoint toLowerCase (s : string) : string :=
  match s with
  | EmptyString => EmptyString
  | String c s' => String (lower_char c) (toLowerCase s')
  end.

(** ECMAScript WhiteSpace and LineTerminator code points below U+0100:
    TAB, LF, VT, FF, CR, SP and NBSP. *)
Definition is_space (c : ascii) : bool :=
  let n := nat_of_ascii c in
  (((9 <=? n) && (n <=? 13)) || (n =? 32) || (n =? 160))%nat.

Fixpoint trimStart (s : string) : string :=
  match s with
  | EmptyString => EmptyString
  | String c s' => if is_space c then trimStart s' else s
  end.

Fixpoint rev_append (s acc : string) : string :=
  match s with
  | EmptyString => acc
  | String c s' => rev_append s' (String c acc)
  end.

Definition reverse (s : string) : string := rev_append s EmptyString.

Definition trimEnd (s : string) : string := reverse (trimStart (reverse s)).

(** [String.prototype.trim] *)
Definition trim (s : string) : string := trimEnd (trimStart s).

(** [Array.prototype.includes] on an array of strings. *)
Fixpoint includes (l : list string) (x : string) : bool :=
  match l with
  | [] => false
  | y :: l' => String.eqb y x || includes l' x
  end.

(** Truthiness of a value that is a string or [undefined]/[null]. *)
Definition truthy (v : option string) : bool :=
  match v with
  | Some s => negb (String.eqb s "")
  | None => false
  end.

(** Every character of the string is white space. *)
Fixpoint blank (s : string) : bool :=
  match s with
  | EmptyString => true
  | String c s' => is_space c && blank s'
  end.

(** [`${v}`] for a value that is a string or [undefined]. *)
Definition template (v : option string) : string :=
  match v with
  | Some s => s
  | None => "undefined"
  end.

(** The start of the URL parser, which decides [new URL(s)] for a string
    without a scheme: leading C0 controls and spaces are dropped, then tabs
    and newlines wherever they are; without a base, what is left must start
    with a letter followed by letters, digits, [+], [-] or [.] up to a
    colon, or the constructor throws. *)
Fixpoint drop_leading (s : string) : string :=
  match s with
  | EmptyString => EmptyString
  | String c s' => if (nat_of_ascii c <=? 32)%nat then drop_leading s' else s
  end.

Fixpoint remove_tab_newline (s : string) : string :=
  match s with
  | EmptyString => EmptyString
  | String c s' =>
      let n := nat_of_ascii c in
      if ((n =? 9) || (n =? 10) || (n =? 13))%nat then remove_tab_newline s'
      else String c (remove_tab_newline s')
  end.

Definition is_ascii_alpha (c : ascii) : bool :=
  let n := nat_of_ascii c in
  (((65 <=? n) && (n <=? 90)) || ((97 <=? n) && (n <=? 122)))%nat.

Definition is_scheme_char (c : ascii) : bool :=
  let n := nat_of_ascii c in
  (is_ascii_alpha c || ((48 <=? n) && (n <=? 57))
   || (n =? 43) || (n =? 45) || (n =? 46))%nat.

Fixpoint scheme_ends (s : string) : bool :=
  match s with
  | EmptyString => false
  | String c s' =>
      if Ascii.eqb c ":" then true else is_scheme_char c && scheme_ends s'
  end.

Definition has_scheme (s : string) : bool :=
  match remove_tab_newline (drop_leading s) with
  | EmptyString => false
  | String c s' => is_ascii_alpha c && scheme_ends s'
  end.

(** The characters that [http.request] accepts in the value of a header:
    the tab and everything from the space on, except DEL. *)
Definition header_char (c : ascii) : bool :=
  let n := nat_of_ascii c in
  ((n =? 9) || ((32 <=? n) && negb (n =? 127)))%nat.

Fixpoint header_ok (s : string) : bool :=
  match s with
  | EmptyString => true
  | String c s' => header_char c && header_ok s'
  end.

End JS.

(* ===================================================================== *)
(** ** Thrown values *)
(* ===================================================================== *)

(** One constructor per [throw] or [reject] site.  [AuthenticationFailed]
    wraps the error caught by the [catch] of [getAuthToken]. *)
Inductive Error : Type :=
(* logger.js, validateLogParams *)
| InvalidStack (stack : string)
| InvalidLevel (level : string)
| InvalidPackage (packageName stackName : string)
| EmptyMessage                       (* Message must be a non-empty string. *)
| MessageTooLong (len : nat)         (* Message length exceeds 48 characters *)
(* logger.js, #logWithRetry and #makeLogApiCall *)
| NoToken                            (* Failed to acquire authentication token *)
| LogStatus (statusCode : Z)         (* Log API call failed with status ... *)
| LogParse                           (* Failed to parse log API response *)
| LogRequest (message : string)      (* Log API request failed: ... *)
| LogTimeout                         (* Log API request timeout *)
(* logger.js, Log: reading a property of null, or a log identifier that
   has no string form, in the template literal *)
| TypeError
(* both modules: the promise executor throws before anything is sent *)
| InvalidURL                         (* new URL(...): Invalid URL *)
| InvalidOption                      (* http.request(...) refuses an option *)
(* auth.js *)
| MissingEnv (key : string)          (* Missing environment variable ... *)
| AuthStatus (statusCode : Z)        (* Auth API failed with status ... *)
| AuthParse                          (* Failed to parse auth response *)
| AuthRequest (message : string)     (* Auth request failed: ... *)
| AuthTimeout                        (* Auth request timeout *)
| AuthMissingFields                  (* response missing access_token/expires_in *)
| AuthenticationFailed (cause : Error).

(** The design document's [InvalidMessage]: either of the two message
    rejections of [validateLogParams]. *)
Definition isInvalidMessage (e : Error) : bool :=
  match e with
  | EmptyMessage | MessageTooLong _ => true
  | _ => false
  end.

(* ===================================================================== *)
(** ** logger.js: constants, constructor and validation *)
(* ===================================================================== *)

Definition ALLOWED_STACKS : list string := ["backend"; "frontend"].
Definition ALLOWED_LEVELS : list string :=
  ["debug"; "info"; "warn"; "error"; "fatal"].
Definition ALLOWED_BACKEND_PACKAGES : list string :=
  ["cache"; "controller"; "cron"; "domain"; "handler"; "repository";
   "route"; "service"].
Definition ALLOWED_COMMON_PACKAGES : list string :=
  ["auth"; "config"; "middleware"].

(** The [config] argument of the constructor: each option is a number or
    absent ([undefined]). *)
Record Config : Type := mkConfig {
  cfg_timeout : option Z;
  cfg_retries : option Z
}.

Record Logger : Type := mkLogger {
  timeout : Z;
  retries : Z
}.

(** [v || d] for a numeric or absent [v]: [undefined] and [0] are falsy. *)
Definition or_default (v : option Z) (d : Z) : Z :=
  match v with
  | Some n => if Z.eqb n 0 then d else n
  | None => d
  end.

(** [constructor(config = {})] *)
Definition new_Logger (config : Config) : Logger :=
  {| timeout := or_default (cfg_timeout config) 5000;
     retries := or_default (cfg_retries config) 3 |}.

(** [static validateLogParams(stack, level, packageName, message)]:
    [inr true] is the normal return, [inl e] a thrown error.  The
    [typeof message !== 'string'] test is decided by the type of [message]. *)
Definition validateLogParams
    (stack level packageName message : string) : Error + bool :=
  let lowerStack := JS.toLowerCase stack in
  let lowerLevel := JS.toLowerCase level in
  let lowerPackageName := JS.toLowerCase packageName in
  if negb (JS.includes ALLOWED_STACKS lowerStack) then
    inl (InvalidStack stack)
  else if negb (JS.includes ALLOWED_LEVELS lowerLevel) then
    inl (InvalidLevel level)
  else
    let packageCheck : Error + unit :=
      if String.eqb lowerStack "backend" then
        if negb (JS.includes ALLOWED_BACKEND_PACKAGES lowerPackageName)
           && negb (JS.includes ALLOWED_COMMON_PACKAGES lowerPackageName)
        then inl (InvalidPackage packageName "backend")
        else inr tt
      else if String.eqb lowerStack "frontend" then
        if negb (JS.includes ALLOWED_COMMON_PACKAGES lowerPackageName)
        then inl (InvalidPackage packageName "frontend")
        else inr tt
      else inr tt in
    match packageCheck with
    | inl e => inl e
    | inr _ =>
        if Nat.eqb (String.length (JS.trim message)) 0 then
          inl EmptyMessage
        else if Nat.ltb 48 (String.length message) then
          inl (MessageTooLong (String.length message))
        else inr true
    end.

(* ===================================================================== *)
(** ** The outside world and the effects of the program *)
(* ===================================================================== *)

(** A value produced by [JSON.parse]; numbers are integers. *)
#[warnings="-register-all"]
Inductive json : Type :=
| JNull
| JBool (b : bool)
| JNum (n : Z)
| JStr (s : string)
| JArr (items : list json)
| JObj (fields : list (string * json)).

(** How one [httpModule.request] ends.  [Responded] stands for the ['end']
    event; [parsed] is the result of [JSON.parse(data)] on the accumulated
    body, [None] when [JSON.parse] throws. *)
Inductive HttpOutcome (B : Type) : Type :=
| RequestError (message : string)    (* 'error' event *)
| RequestTimeout                     (* 'timeout' event *)
| Responded (statusCode : Z) (parsed : option B).

Arguments RequestError {B} message.
Arguments RequestTimeout {B}.
Arguments Responded {B} statusCode parsed.

(** The two properties that [getAuthToken] reads from the parsed body of the
    authentication endpoint: a string and a whole number of seconds, each
    possibly absent.  A body that is not an object has neither. *)
Record TokenResponse : Type := mkTokenResponse {
  access_token : option string;
  expires_in : option Z
}.

(** The variables of [process.env] that the two modules read: the six
    credentials of [getAuthToken], and the base URL from which both modules
    build the address of their endpoint when they are loaded. *)
Record Env : Type := mkEnv {
  MY_EMAIL : option string;
  MY_NAME : option string;
  MY_ROLL_NO : option string;
  MY_ACCESS_CODE : option string;
  MY_CLIENT_ID : option string;
  MY_CLIENT_SECRET : option string;
  LOG_API_BASE_URL : option string
}.

(** [const AUTH_URL = `${process.env.LOG_API_BASE_URL}/auth`] and
    [const LOG_API_URL = `${process.env.LOG_API_BASE_URL}/logs`] *)
Definition AUTH_URL (e : Env) : string :=
  JS.template (LOG_API_BASE_URL e) ++ "/auth".

Definition LOG_API_URL (e : Env) : string :=
  JS.template (LOG_API_BASE_URL e) ++ "/logs".

(** The object literal [logData] of [#logWithRetry]; the field [package] is
    spelled [package_] here. *)
Record LogData : Type := mkLogData {
  stack : string;
  level : string;
  package_ : string;
  message : string
}.

(** Console output, one constructor per call site. *)
Inductive Diag : Type :=
| AuthUsingCached                          (* console.log, auth.js *)
| AuthFetching                             (* console.log, auth.js *)
| AuthObtained                             (* console.log, auth.js *)
| AuthErrorObtaining (error : Error)       (* console.error, auth.js *)
| LoggerRetrying (attempt : Z) (error : Error)      (* console.warn *)
| LoggerFailedAfter (retries : Z) (error : Error)   (* console.error *)
| LoggerSent (logID : option json)                  (* console.log *)
| LoggerFinalFailed (error : Error).                (* console.error *)

(** Observable effects, in the order they happen. *)
Inductive Event : Type :=
| Console (d : Diag)
| AuthPost (payload : list (string * option string))  (* POST {base}/auth *)
| LogPost (logData : LogData) (authorization : string) (timeout : Z)
                                                       (* POST {base}/logs *)
| Sleep (ms : Z).                                      (* setTimeout(_, ms) *)

(** The environment of a run.  Each answer may depend on everything that
    happened before it, the request itself included. *)
Record World : Type := mkWorld {
  env : Env;
  dateNow : list Event -> Z;                         (* Date.now(), in ms *)
  authReply : list Event -> HttpOutcome TokenResponse;
  logReply : list Event -> HttpOutcome json;
  urlParses : string -> bool;
    (* whether [new URL(s)] accepts what follows the scheme of [s] *)
  optionsAccepted : string -> bool
    (* whether [http.request] accepts the host, port and path of
       [new URL(s)] *)
}.

(** Module-level variables of auth.js, and the history of effects. *)
Record State : Type := mkState {
  currentToken : option string;      (* null, or the cached token *)
  tokenExpiryTime : Z;               (* Unix time in seconds *)
  history : list Event
}.

(** State of a freshly loaded process: [currentToken = null],
    [tokenExpiryTime = 0]. *)
Definition initial : State :=
  {| currentToken := None; tokenExpiryTime := 0; history := [] |}.

(** How a computation ends.  [OutOfFuel] belongs to the model only: it marks
    a recursion that was given too small a bound. *)
Inductive Outcome (A : Type) : Type :=
| Returned (a : A)
| Threw (e : Error)
| OutOfFuel.

Arguments Returned {A} a.
Arguments Threw {A} e.
Arguments OutOfFuel {A}.

Definition M (A : Type) : Type := State -> Outcome A * State.

Definition ret {A} (a : A) : M A := fun st => (Returned a, st).

Definition throw {A} (e : Error) : M A := fun st => (Threw e, st).

Definition bind {A B} (m : M A) (k : A -> M B) : M B :=
  fun st =>
    match m st with
    | (Returned a, st') => k a st'
    | (Threw e, st') => (Threw e, st')
    | (OutOfFuel, st') => (OutOfFuel, st')
    end.

(** [try { body } catch (error) { handler }] *)
Definition try_catch {A} (body : M A) (handler : Error -> M A) : M A :=
  fun st =>
    match body st with
    | (Threw e, st') => handler e st'
    | r => r
    end.

Declare Scope js_scope.
Delimit Scope js_scope with js.
Notation "x <- m ;; k" := (bind m (fun x => k))
  (at level 61, m at next level, right associativity) : js_scope.
Notation "m ;; k" := (bind m (fun _ => k))
  (at level 61, right associativity) : js_scope.
Open Scope js_scope.

Definition get : M State := fun st => (Returned st, st).

(** The state once the events [evs] have happened. *)
Definition after (st : State) (evs : list Event) : State :=
  {| currentToken := currentToken st;
     tokenExpiryTime := tokenExpiryTime st;
     history := history st ++ evs |}.

Definition emit (e : Event) : M unit :=
  fun st => (Returned tt, after st [e]).

Definition set_currentToken (v : option string) : M unit :=
  fun st =>
    (Returned tt,
     {| currentToken := v;
        tokenExpiryTime := tokenExpiryTime st;
        history := history st |}).

Definition set_tokenExpiryTime (v : Z) : M unit :=
  fun st =>
    (Returned tt,
     {| currentToken := currentToken st;
        tokenExpiryTime := v;
        history := history st |}).

(** A thrown error or a normal return of a pure function. *)
Definition lift {A} (r : Error + A) : M A :=
  match r with
  | inl e => throw e
  | inr a => ret a
  end.

(* ===================================================================== *)
(** ** auth.js *)
(* ===================================================================== *)

(** The object literal [payload], keys in insertion order. *)
Definition payload_of (e : Env) : list (string * option string) :=
  [ ("email", MY_EMAIL e);
    ("name", MY_NAME e);
    ("rollNo", MY_ROLL_NO e);
    ("accessCode", MY_ACCESS_CODE e);
    ("clientID", MY_CLIENT_ID e);
    ("clientSecret", MY_CLIENT_SECRET e) ].

(** [for (const key in payload) if (!payload[key]) throw ...]; the error
    carries the key (the source upper-cases it in the message). *)
Fixpoint checkPayload (payload : list (string * option string)) : Error + unit :=
  match payload with
  | [] => inr tt
  | (key, v) :: rest =>
      if negb (JS.truthy v) then inl (MissingEnv key) else checkPayload rest
  end.

(** Truthiness of a number or [undefined]. *)
Definition truthy_num (v : option Z) : bool :=
  match v with
  | Some n => negb (Z.eqb n 0)
  | None => false
  end.

(** [res.statusCode === 200 || res.statusCode === 201] *)
Definition status_ok (statusCode : Z) : bool :=
  Z.eqb statusCode 200 || Z.eqb statusCode 201.

Section Program.

Variable w : World.

(** [Math.floor(Date.now() / 1000)] *)
Definition now_seconds : M Z :=
  st <- get ;; ret (dateNow w (history st) / 1000)%Z.

(** [new URL(s)] *)
Definition new_URL (s : string) : M unit :=
  if JS.has_scheme s && urlParses w s then ret tt else throw InvalidURL.

(** [new URL(AUTH_URL)] and the promise awaited in [getAuthToken]: one
    request to [AUTH_URL], unless [http.request] throws in the executor. *)
Definition authRequest (payload : list (string * option string))
  : M TokenResponse :=
  new_URL (AUTH_URL (env w)) ;;
  (if optionsAccepted w (AUTH_URL (env w)) then ret tt
   else throw InvalidOption) ;;
  emit (AuthPost payload) ;;
  st <- get ;;
  match authReply w (history st) with
  | Responded statusCode parsed =>
      match parsed with
      | Some response =>
          if status_ok statusCode then ret response
          else throw (AuthStatus statusCode)
      | None => throw AuthParse
      end
  | RequestError message => throw (AuthRequest message)
  | RequestTimeout => throw AuthTimeout
  end.

(** [async function getAuthToken()] *)
Definition getAuthToken : M (option string) :=
  now <- now_seconds ;;
  st <- get ;;
  if JS.truthy (currentToken st) && (tokenExpiryTime st >? now + 60)%Z then
    emit (Console AuthUsingCached) ;;
    ret (currentToken st)
  else
    emit (Console AuthFetching) ;;
    try_catch
      (let payload := payload_of (env w) in
       lift (checkPayload payload) ;;
       tokenResponse <- authRequest payload ;;
       if JS.truthy (access_token tokenResponse)
          && truthy_num (expires_in tokenResponse)
       then
         set_currentToken (access_token tokenResponse) ;;
         set_tokenExpiryTime
           (match expires_in tokenResponse with Some t => t | None => 0%Z end) ;;
         emit (Console AuthObtained) ;;
         st' <- get ;;
         ret (currentToken st')
       else throw AuthMissingFields)
      (fun error =>
         emit (Console (AuthErrorObtaining error)) ;;
         throw (AuthenticationFailed error)).

(* ===================================================================== *)
(** ** logger.js: shipping *)
(* ===================================================================== *)

(** A string-or-null value inside a template literal. *)
Definition to_str (v : option string) : string :=
  match v with
  | Some s => s
  | None => "null"
  end.

(** [async #makeLogApiCall(logData, token)]: whatever the executor throws
    rejects the promise.  [http.request] throws for a negative [timeout]
    and for a header value with a character it does not accept. *)
Definition makeLogApiCall (self : Logger) (logData : LogData)
    (token : option string) : M json :=
  new_URL (LOG_API_URL (env w)) ;;
  let authorization := "Bearer " ++ to_str token in
  (if optionsAccepted w (LOG_API_URL (env w))
      && (0 <=? timeout self)%Z
      && JS.header_ok authorization
   then ret tt else throw InvalidOption) ;;
  emit (LogPost logData authorization (timeout self)) ;;
  st <- get ;;
  match logReply w (history st) with
  | Responded statusCode parsed =>
      match parsed with
      | Some response =>
          if status_ok statusCode then ret response
          else throw (LogStatus statusCode)
      | None => throw LogParse
      end
  | RequestError message => throw (LogRequest message)
  | RequestTimeout => throw LogTimeout
  end.

(** The [try] block of [#logWithRetry]: one attempt. *)
Definition attemptOnce (self : Logger)
    (stack level packageName message : string) : M json :=
  lift (validateLogParams stack level packageName message) ;;
  let logData :=
    {| stack := JS.toLowerCase stack;
       level := JS.toLowerCase level;
       package_ := JS.toLowerCase packageName;
       message := message |} in
  token <- getAuthToken ;;
  if negb (JS.truthy token) then throw NoToken
  else
    response <- makeLogApiCall self logData token ;;
    ret response.

(** [async #logWithRetry(stack, level, packageName, message, attempt = 1)].
    [fuel] bounds the depth of the recursive calls. *)
Fixpoint logWithRetry (fuel : nat) (self : Logger)
    (stack level packageName message : string) (attempt : Z) : M json :=
  try_catch
    (attemptOnce self stack level packageName message)
    (fun error =>
       if (attempt <? retries self)%Z then
         emit (Console (LoggerRetrying attempt error)) ;;
         emit (Sleep (1000 * attempt)) ;;
         match fuel with
         | O => fun st => (OutOfFuel, st)
         | S fuel' =>
             logWithRetry fuel' self stack level packageName message
               (attempt + 1)
         end
       else
         emit (Console (LoggerFailedAfter (retries self) error)) ;;
         throw error).

(** The last binding of [key] among the fields of a parsed object. *)
Fixpoint lookup (key : string) (fields : list (string * json)) : option json :=
  match fields with
  | [] => None
  | (k, v) :: rest =>
      match lookup key rest with
      | Some v' => Some v'
      | None => if String.eqb k key then Some v else None
      end
  end.

(** Whether a parsed value has a string form.  An object with a field
    [toString] has none: the field hides the method, is not callable, and
    [valueOf] gives back the object.  An array is joined, which skips
    [null] and converts the other elements. *)
Fixpoint has_string_form (v : json) : bool :=
  match v with
  | JArr items => forallb has_string_form items
  | JObj fields =>
      match lookup "toString" fields with
      | Some _ => false
      | None => true
      end
  | _ => true
  end.

(** [`${response.logID}`], as far as it can throw: [None] is [undefined];
    reading a property of [null] throws, and so does the conversion of a
    log identifier that has no string form. *)
Definition get_logID (response : json) : M (option json) :=
  match response with
  | JNull => throw TypeError
  | JObj fields =>
      match lookup "logID" fields with
      | Some logID =>
          if has_string_form logID then ret (Some logID) else throw TypeError
      | None => ret None
      end
  | _ => ret None
  end.

(** The recursion of [#logWithRetry] started at attempt 1 goes at most
    [retries - 1] deep. *)
Definition enough_fuel (self : Logger) : nat := Z.to_nat (retries self - 1).

(** [async Log(stack, level, packageName, message)]; the returned [null]
    is [JNull]. *)
Definition Log (self : Logger)
    (stack level packageName message : string) : M json :=
  try_catch
    (response <-
       logWithRetry (enough_fuel self) self stack level packageName message 1 ;;
     logID <- get_logID response ;;
     emit (Console (LoggerSent logID)) ;;
     ret response)
    (fun error =>
       emit (Console (LoggerFinalFailed error)) ;;
       ret JNull).

(** Convenience methods. *)
Definition debug (self : Logger) (stack packageName message : string) :=
  Log self stack "debug" packageName message.
Definition info (self : Logger) (stack packageName message : string) :=
  Log self stack "info" packageName message.
Definition warn (self : Logger) (stack packageName message : string) :=
  Log self stack "warn" packageName message.
Definition error (self : Logger) (stack packageName message : string) :=
  Log self stack "error" packageName message.
Definition fatal (self : Logger) (stack packageName message : string) :=
  Log self stack "fatal" packageName message.

End Program.

(* ===================================================================== *)
(** ** Reading a history *)
(* ===================================================================== *)

(** The back-off delays, in order. *)
Fixpoint delays (h : list Event) : list Z :=
  match h with
  | [] => []
  | Sleep ms :: h' => ms :: delays h'
  | _ :: h' => delays h'
  end.

(** The bodies sent to the logging endpoint, in order. *)
Fixpoint logPosts (h : list Event) : list LogData :=
  match h with
  | [] => []
  | LogPost d _ _ :: h' => d :: logPosts h'
  | _ :: h' => logPosts h'
  end.

(** The number of requests sent to the authentication endpoint. *)
Fixpoint authPosts (h : list Event) : nat :=
  match h with
  | [] => 0
  | AuthPost _ :: h' => S (authPosts h')
  | _ :: h' => authPosts h'
  end.

(* ===================================================================== *)
(** ** Vocabulary of the statements *)
(* ===================================================================== *)

(** The taxonomy of the design document: the stack and the level are allowed,
    and the package belongs to the set allowed for the stack. *)
Definition fieldsAccepted (stack level packageName : string) : bool :=
  let lowerStack := JS.toLowerCase stack in
  let lowerPackageName := JS.toLowerCase packageName in
  JS.includes ALLOWED_LEVELS (JS.toLowerCase level)
  && ((String.eqb lowerStack "backend"
       && JS.includes (ALLOWED_BACKEND_PACKAGES ++ ALLOWED_COMMON_PACKAGES)
            lowerPackageName)
      || (String.eqb lowerStack "frontend"
          && JS.includes ALLOWED_COMMON_PACKAGES lowerPackageName)).

(** The test of the first [if] of [getAuthToken], on the state and the clock
    reading of the call. *)
Definition cacheHit (w : World) (st : State) : bool :=
  JS.truthy (currentToken st)
  && (tokenExpiryTime st >? dateNow w (history st) / 1000 + 60)%Z.

(** All six credentials are set and not empty. *)
Definition credentialsComplete (e : Env) : bool :=
  forallb (fun kv => JS.truthy (snd kv)) (payload_of e).

(** A reply of the authentication endpoint that [getAuthToken] accepts:
    status 200 or 201, a body that parses, both fields present and truthy. *)
Definition authReplyOk (o : HttpOutcome TokenResponse) : bool :=
  match o with
  | Responded statusCode (Some r) =>
      status_ok statusCode
      && (JS.truthy (access_token r) && truthy_num (expires_in r))
  | _ => false
  end.

(** The authentication endpoint always answers well and the credentials are
    configured, so that every attempt obtains a token. *)
Definition authAlwaysOk (w : World) : Prop :=
  credentialsComplete (env w) = true
  /\ forall h, authReplyOk (authReply w h) = true.

(** The address of the endpoint is a URL and [http.request] accepts its
    host, port and path. *)
Definition targetOk (w : World) (url : string) : bool :=
  JS.has_scheme url && urlParses w url && optionsAccepted w url.

(** A request to the logging endpoint can be made with this token: the
    address is good, the timeout is not negative and the token can be
    written in a header. *)
Definition sendable (w : World) (self : Logger) (token : option string)
  : bool :=
  targetOk w (LOG_API_URL (env w))
  && (0 <=? timeout self)%Z
  && JS.header_ok ("Bearer " ++ to_str token).

(** The cached token and every token that the authentication endpoint may
    grant can be written in a header. *)
Definition tokensPrintable (w : World) (st : State) : Prop :=
  JS.header_ok (to_str (currentToken st)) = true
  /\ forall h statusCode r,
       authReply w h = Responded statusCode (Some r) ->
       JS.header_ok (to_str (access_token r)) = true.

(** The template literal of [Log] does not throw on this reply. *)
Definition readable (response : json) : bool :=
  match response with
  | JNull => false
  | JObj fields =>
      match lookup "logID" fields with
      | Some logID => has_string_form logID
      | None => true
      end
  | _ => true
  end.

(** What [Log] returns for the value of an accepted reply. *)
Definition delivered (response : json) : json :=
  if readable response then response else JNull.

(** The value that [#makeLogApiCall] resolves with, if the reply lets it
    resolve: status 200 or 201 and a body that parses. *)
Definition logReplyValue (o : HttpOutcome json) : option json :=
  match o with
  | Responded statusCode (Some response) =>
      if status_ok statusCode then Some response else None
  | _ => None
  end.

(** The body that [#logWithRetry] builds for an event. *)
Definition payloadOf (stack level packageName message : string) : LogData :=
  {| stack := JS.toLowerCase stack;
     level := JS.toLowerCase level;
     package_ := JS.toLowerCase packageName;
     message := message |}.

(** Whether the parsed body carries a log identifier. *)
Definition hasLogID (response : json) : bool :=
  match response with
  | JObj fields =>
      match lookup "logID" fields with Some _ => true | None => false end
  | _ => false
  end.

(** The linear back-off schedule from attempt [attempt] on: [n] delays of
    1000 ms times the number of the attempt that failed. *)
Definition backoff (attempt : Z) (n : nat) : list Z :=
  map (fun i => (1000 * (attempt + Z.of_nat i))%Z) (seq 0 n).

(** Every attempt on a valid event obtains a token and can make its request
    to the logging endpoint: the authentication endpoint can be reached and
    always answers well, the address of the logging endpoint is good, the
    timeout is not negative and every token can be written in a header. *)
Definition ready (w : World) (self : Logger) (st : State) : Prop :=
  authAlwaysOk w
  /\ targetOk w (AUTH_URL (env w)) = true
  /\ targetOk w (LOG_API_URL (env w)) = true
  /\ (0 <= timeout self)%Z
  /\ tokensPrintable w st.

(** Both endpoints can be asked, with complete credentials, a timeout that
    is not negative and a cached token, if any, that can be written in a
    header; but neither ever answers well. *)
Definition transportDown (w : World) (self : Logger) (st : State) : Prop :=
  credentialsComplete (env w) = true
  /\ targetOk w (AUTH_URL (env w)) = true
  /\ targetOk w (LOG_API_URL (env w)) = true
  /\ (0 <= timeout self)%Z
  /\ JS.header_ok (to_str (currentToken st)) = true
  /\ (forall h, authReplyOk (authReply w h) = false)
  /\ (forall h, logReplyValue (logReply w h) = None).


(* ===================================================================== *)
(** ** Scenarios *)
(* ===================================================================== *)

Definition defaultLogger : Logger := new_Logger (mkConfig None None).

Definition someEnv : Env :=
  mkEnv (Some "me@example.org") (Some "Me") (Some "42") (Some "code")
        (Some "id") (Some "secret") (Some "http://logs.example.org/api").

(** No [MY_EMAIL] in the environment. *)
Definition envWithoutEmail : Env :=
  mkEnv None (Some "Me") (Some "42") (Some "code") (Some "id") (Some "secret")
        (Some "http://logs.example.org/api").

(** No [LOG_API_BASE_URL] in the environment. *)
Definition envWithoutBase : Env :=
  mkEnv (Some "me@example.org") (Some "Me") (Some "42") (Some "code")
        (Some "id") (Some "secret") None.

Definition tok1 : TokenResponse :=
  mkTokenResponse (Some "tok1") (Some 1700003600%Z).

(** The scenario of the design document: the clock reads 1700000000 s, the
    authentication endpoint grants [tok1] for an hour, the logging endpoint
    answers 201 with a log identifier. *)
Definition worldOk : World :=
  {| env := someEnv;
     dateNow := fun _ => 1700000000000%Z;
     authReply := fun _ => Responded 200 (Some tok1);
     logReply := fun _ =>
       Responded 201 (Some (JObj [("logID", JStr "abc123")]));
     urlParses := fun _ => true;
     optionsAccepted := fun _ => true |}.

(** The logging endpoint answers 200 with the empty object. *)
Definition worldNoLogID : World :=
  {| env := someEnv;
     dateNow := fun _ => 1700000000000%Z;
     authReply := fun _ => Responded 200 (Some tok1);
     logReply := fun _ => Responded 200 (Some (JObj []));
     urlParses := fun _ => true;
     optionsAccepted := fun _ => true |}.

(** The logging endpoint is unreachable. *)
Definition worldLogDown : World :=
  {| env := someEnv;
     dateNow := fun _ => 1700000000000%Z;
     authReply := fun _ => Responded 200 (Some tok1);
     logReply := fun _ => RequestError "ECONNREFUSED";
     urlParses := fun _ => true;
     optionsAccepted := fun _ => true |}.

(** The logging endpoint fails for the first two requests it receives and
    answers 201 to the third. *)
Definition worldThirdTime : World :=
  {| env := someEnv;
     dateNow := fun _ => 1700000000000%Z;
     authReply := fun _ => Responded 200 (Some tok1);
     logReply := fun h =>
       if Nat.leb (List.length (logPosts h)) 2 then Responded 503 (Some JNull)
       else Responded 201 (Some (JObj [("logID", JStr "abc123")]));
     urlParses := fun _ => true;
     optionsAccepted := fun _ => true |}.

(** The credentials are incomplete and the authentication endpoint would
    answer 500. *)
Definition worldNoCredentials : World :=
  {| env := envWithoutEmail;
     dateNow := fun _ => 1700000000000%Z;
     authReply := fun _ => Responded 500 (Some (mkTokenResponse None None));
     logReply := fun _ => RequestTimeout;
     urlParses := fun _ => true;
     optionsAccepted := fun _ => true |}.

(** The authentication endpoint answers 500. *)
Definition worldAuthDown : World :=
  {| env := someEnv;
     dateNow := fun _ => 1700000000000%Z;
     authReply := fun _ => Responded 500 (Some (mkTokenResponse None None));
     logReply := fun _ => RequestTimeout;
     urlParses := fun _ => true;
     optionsAccepted := fun _ => true |}.

(** [LOG_API_BASE_URL] is not set: both addresses start with [undefined]. *)
Definition worldNoBase : World :=
  {| env := envWithoutBase;
     dateNow := fun _ => 1700000000000%Z;
     authReply := fun _ => Responded 200 (Some tok1);
     logReply := fun _ =>
       Responded 201 (Some (JObj [("logID", JStr "abc123")]));
     urlParses := fun _ => true;
     optionsAccepted := fun _ => true |}.

(** Neither endpoint can be reached. *)
Definition worldAllDown : World :=
  {| env := someEnv;
     dateNow := fun _ => 1700000000000%Z;
     authReply := fun _ => RequestError "ECONNREFUSED";
     logReply := fun _ => RequestError "ECONNREFUSED";
     urlParses := fun _ => true;
     optionsAccepted := fun _ => true |}.

(** The logging endpoint answers 201 with a log identifier that has no
    string form. *)
Definition worldOddLogID : World :=
  {| env := someEnv;
     dateNow := fun _ => 1700000000000%Z;
     authReply := fun _ => Responded 200 (Some tok1);
     logReply := fun _ =>
       Responded 201
         (Some (JObj [("logID", JObj [("toString", JNum 1)])]));
     urlParses := fun _ => true;
     optionsAccepted := fun _ => true |}.

(** A logger with a negative timeout. *)
Definition hastyLogger : Logger := new_Logger (mkConfig (Some (-5)%Z) None).

(** A cache holding a token that expired long ago. *)
Definition staleCache : State :=
  {| currentToken := Some "old"; tokenExpiryTime := 1600000000; history := [] |}.

(** A cache holding a token good for another hour at 1700000000 s. *)
Definition freshCache : State :=
  {| currentToken := Some "tok0"; tokenExpiryTime := 1700003600; history := [] |}.

(* ===================================================================== *)
(** ** Further vocabulary: the log shipper in any world *)
(* ===================================================================== *)

(** The [Authorization] headers of the requests sent to the logging
    endpoint, in order. *)
Fixpoint logHeaders (h : list Event) : list string :=
  match h with
  | [] => []
  | LogPost _ authorization _ :: h' => authorization :: logHeaders h'
  | _ :: h' => logHeaders h'
  end.

(** The errors with which [#makeLogApiCall] rejects once its request is
    sent. *)
Definition isTransportError (e : Error) : bool :=
  match e with
  | LogStatus _ | LogParse | LogRequest _ | LogTimeout => true
  | _ => false
  end.

(** The errors with which it rejects before anything is sent. *)
Definition isSetupError (e : Error) : bool :=
  match e with
  | InvalidURL | InvalidOption => true
  | _ => false
  end.

(** The errors thrown by [validateLogParams]. *)
Definition isValidationError (e : Error) : bool :=
  match e with
  | InvalidStack _ | InvalidLevel _ | InvalidPackage _ _
  | EmptyMessage | MessageTooLong _ => true
  | _ => false
  end.

(** The sum of a list of delays. *)
Definition total (l : list Z) : Z := fold_right Z.add 0%Z l.

(** The logging endpoint answers 200 with the JSON text [null]. *)
Definition worldNullBody : World :=
  {| env := someEnv;
     dateNow := fun _ => 1700000000000%Z;
     authReply := fun _ => Responded 200 (Some tok1);
     logReply := fun _ => Responded 200 (Some JNull);
     urlParses := fun _ => true;
     optionsAccepted := fun _ => true |}.

(** Events that are no request to the authentication endpoint and, if a
    request to the logging endpoint, carry the given body, header and
    timeout. *)
Definition quietEvent (d : LogData) (authorization : string) (t : Z)
    (e : Event) : Prop :=
  match e with
  | AuthPost _ => False
  | LogPost d' authorization' t' =>
      d' = d /\ authorization' = authorization /\ t' = t
  | _ => True
  end.

(** Events that are no request at all. *)
Definition offlineEvent (e : Event) : Prop :=
  match e with
  | AuthPost _ | LogPost _ _ _ => False
  | _ => True
  end.

(* ===================================================================== *)
(** ** The URL shortener: shortcodeGenerator.js *)
(* ===================================================================== *)

(** The shortener keeps two tables in SQLite.  A table is the list of its
    rows in insertion order; a text column holding an ISO timestamp is
    represented by the time value, in milliseconds, that the text denotes.
    What the outside decides is given by oracles indexed by the number of
    earlier uses: the random indices, the clock, and whether a statement
    fails for a reason of the database's own (input/output, missing table,
    unsupported parameter).  Of the platform, the limits that the language
    sets are modelled (the numbers that a double holds, the time values of
    a [Date], the lengths of an array), not those of the memory of a
    machine. *)
Module Shortener.

Record UrlRow : Type := mkUrlRow {
  shortcode : string;
  original_url : string;
  created_at : Z;
  expires_at : Z
}.

Record ClickRow : Type := mkClickRow {
  click_shortcode : string;
  click_timestamp : Z;
  referrer : option string;
  ip_address : option string
}.

Record World : Type := mkWorld {
  (** the k-th value of [Math.floor(Math.random() * chars.length)] *)
  randomIndex : nat -> nat;
  (** the error, if any, that the database reports for the k-th statement *)
  dbError : nat -> option string;
  (** the k-th reading [new Date()], in milliseconds *)
  clock : nat -> Z
}.

Record State : Type := mkState {
  shortened_urls : list UrlRow;
  clicks : list ClickRow;
  randoms : nat;        (* random indices drawn so far *)
  statements : nat;     (* statements run so far *)
  dates : nat;          (* clock readings so far *)
  logged : list (string * option string)
                        (* the calls of logEvent: event name and shortcode *)
}.

(** What a rejected promise or a [throw] carries. *)
Inductive Failure : Type :=
| DbFailure (message : string)       (* err of a sqlite3 callback *)
| RangeError.                        (* toISOString of an invalid Date,
                                        Array.from of a length from 2^32 on *)

Inductive Result (A : Type) : Type :=
| Resolved (a : A)
| Rejected (err : Failure)
| OutOfFuel.

Arguments Resolved {A} a.
Arguments Rejected {A} err.
Arguments OutOfFuel {A}.

Definition chars : string :=
  "ABCDEFGHIJKLMNOPQRSTUVWXYZabcdefghijklmnopqrstuvwxyz0123456789".

(** [chars[i]] as [join('')] sees it: the character at index [i], and
    nothing when [i] is out of range, [undefined] joining as the empty
    string. *)
Definition char_at (i : nat) : string :=
  match String.get i chars with
  | Some c => String c EmptyString
  | None => EmptyString
  end.

(** [Array.from({ length }, () => chars[...]).join('')], drawing the random
    indices number [start], [start + 1], ... *)
Fixpoint candidate (rnd : nat -> nat) (start length : nat) : string :=
  match length with
  | O => EmptyString
  | S n => char_at (rnd start) ++ candidate rnd (S start) n
  end.

(** [Array.from({ length }, ...)] makes its array with [new Array(length)],
    which throws a RangeError for a length above [2^32 - 1]. *)
Definition too_long (length : nat) : bool :=
  (4294967296 <=? Z.of_nat length)%Z.

(** Whether a row of [shortened_urls] has the given shortcode. *)
Definition taken (code : string) (rows : list UrlRow) : bool :=
  existsb (fun r => String.eqb (shortcode r) code) rows.

Definition drawn (n : nat) (st : State) : State :=
  {| shortened_urls := shortened_urls st; clicks := clicks st;
     randoms := randoms st + n; statements := statements st;
     dates := dates st; logged := logged st |}.

Definition ran (st : State) : State :=
  {| shortened_urls := shortened_urls st; clicks := clicks st;
     randoms := randoms st; statements := S (statements st);
     dates := dates st; logged := logged st |}.

Section Generator.

Variable w : World.

(** [db.get("SELECT 1 FROM shortened_urls WHERE shortcode = ?", [code], cb)]
    wrapped in a promise: [true] for a row, [false] for [undefined]. *)
Definition selectOne (code : string) (st : State) : Result bool * State :=
  match dbError w (statements st) with
  | Some message => (Rejected (DbFailure message), ran st)
  | None => (Resolved (taken code (shortened_urls st)), ran st)
  end.

(** [async function generateUniqueShortcode(db, length)]; [fuel] bounds the
    number of turns of the [while] loop.  The first statement of a turn is
    [Array.from({ length }, ...)], which throws before it draws anything
    when the length is no array length, and the promise rejects; a call
    with such a length never gets further, so this is tested before the
    turns are counted. *)
Fixpoint generateUniqueShortcode (fuel : nat) (length : nat) (st : State)
  : Result string * State :=
  if too_long length then (Rejected RangeError, st)
  else
    match fuel with
    | O => (OutOfFuel, st)
    | S fuel' =>
        let shortcode := candidate (randomIndex w) (randoms st) length in
        match selectOne shortcode (drawn length st) with
        | (Resolved row, st') =>
            if negb row then (Resolved shortcode, st')
            else generateUniqueShortcode fuel' length st'
        | (Rejected err, st') => (Rejected err, st')
        | (OutOfFuel, st') => (OutOfFuel, st')
        end
    end.

End Generator.

(** A character of [a-zA-Z0-9]. *)
Definition is_alnum (c : ascii) : bool :=
  let n := nat_of_ascii c in
  (((48 <=? n) && (n <=? 57)) || ((65 <=? n) && (n <=? 90))
   || ((97 <=? n) && (n <=? 122)))%nat.

(** [/^[a-zA-Z0-9]+$/.test(s)]: one or more characters, all of the class. *)
Fixpoint all_alnum (s : string) : bool :=
  match s with
  | EmptyString => true
  | String c s' => is_alnum c && all_alnum s'
  end.

Definition alnum_test (s : string) : bool :=
  negb (String.eqb s "") && all_alnum s.

(** [function isShortcodeValid(shortcode)] *)
Definition isShortcodeValid (shortcode : string) : bool :=
  alnum_test shortcode
  && (3 <=? String.length shortcode)%nat
  && (String.length shortcode <=? 15)%nat.

(** The parts of an Express request that the code reads. *)
Record Request : Type := mkRequest {
  x_forwarded_for : option string;   (* req.headers['x-forwarded-for'] *)
  referer : option string;           (* req.headers.referer *)
  ip : option string;                (* req.ip *)
  remoteAddress : option string      (* req.connection.remoteAddress *)
}.

(** [s.split(',')[0]] *)
Fixpoint before_comma (s : string) : string :=
  match s with
  | EmptyString => EmptyString
  | String c s' =>
      if Ascii.eqb c "," then EmptyString else String c (before_comma s')
  end.

(** [function getClientIp(req)]; [None] is [undefined]. *)
Definition getClientIp (req : Request) : option string :=
  if JS.truthy (x_forwarded_for req) then
    match x_forwarded_for req with
    | Some xForwardedFor => Some (JS.trim (before_comma xForwardedFor))
    | None => None
    end
  else if JS.truthy (ip req) then ip req
  else remoteAddress req.

(** A string that is empty or starts with a character that is no white
    space. *)
Definition no_lead (s : string) : Prop :=
  match s with
  | EmptyString => True
  | String c _ => JS.is_space c = false
  end.

(** Whether a string holds a comma. *)
Fixpoint has_comma (s : string) : bool :=
  match s with
  | EmptyString => false
  | String c s' => Ascii.eqb c "," || has_comma s'
  end.

(** The shortcode that the loop builds in its turn number [j], counted from
    0, when it starts in [st]. *)
Definition turn (w : World) (st : State) (length j : nat) : string :=
  candidate (randomIndex w) (randoms st + j * length) length.

(** A table in which the empty shortcode is taken. *)
Definition emptyCodeTaken : State :=
  {| shortened_urls := [mkUrlRow "" "http://localhost" 0 0]; clicks := [];
     randoms := 0; statements := 0; dates := 0; logged := [] |}.

Definition emptyTables : State :=
  {| shortened_urls := []; clicks := []; randoms := 0; statements := 0;
     dates := 0; logged := [] |}.

(** A table in which the shortcode [AAAAAAA] is taken. *)
Definition oneCodeTaken : State :=
  {| shortened_urls :=
       [mkUrlRow "AAAAAAA" "http://localhost" 1700000000000 1700001800000];
     clicks := []; randoms := 0; statements := 0; dates := 0; logged := [] |}.

(** The random indices are 0 for the first seven draws and 1 afterwards;
    the database works and the clock stands at 1700000000 s. *)
Definition quietWorld : World :=
  {| randomIndex := fun k => if (k <? 7)%nat then 0 else 1;
     dbError := fun _ => None;
     clock := fun _ => 1700000000000%Z |}.

(* --------------------------------------------------------------------- *)
(** *** config/index.js and the controller *)
(* --------------------------------------------------------------------- *)

(** Numbers.  A whole number stands for the JavaScript number of that
    value, which exists when [to_double] leaves the whole number as it is;
    [infinity] and its opposite stand for [Infinity] and [-Infinity], and
    [None] in an [option Z] is [NaN]. *)
Definition infinity : Z := (2 ^ 1024)%Z.

(** The double nearest to a whole number [n >= 0]: below [2^53] the number
    itself, and from there on its 53 leading bits, rounded up when the rest
    is more than half a unit of the last of them, or is half a unit with
    that bit odd; what lies beyond the largest double becomes [Infinity]. *)
Definition nearest (n : Z) : Z :=
  if (n <? 2 ^ 53)%Z then n
  else
    let e := (Z.log2 n - 52)%Z in
    let q := (n / 2 ^ e)%Z in
    let r := (n mod 2 ^ e)%Z in
    let half := (2 ^ (e - 1))%Z in
    let q' := if (half <? r)%Z || ((r =? half)%Z && Z.odd q)
              then (q + 1)%Z else q in
    Z.min (q' * 2 ^ e) infinity.

(** The JavaScript number for a whole number: what [JSON.parse] makes of a
    numeral, and what [parseInt] makes of the digits it has read. *)
Definition to_double (n : Z) : Z :=
  if (n <? 0)%Z then (- nearest (- n))%Z else nearest n.

(** The value of a decimal digit. *)
Definition digit_value (c : ascii) : option Z :=
  let n := nat_of_ascii c in
  if ((48 <=? n) && (n <=? 57))%nat then Some (Z.of_nat (n - 48)) else None.

(** The longest prefix of decimal digits, read as a number; [acc] is the
    value read so far, [None] before the first digit. *)
Fixpoint parse_digits (s : string) (acc : option Z) : option Z :=
  match s with
  | EmptyString => acc
  | String c s' =>
      match digit_value c with
      | Some d =>
          parse_digits s'
            (Some (10 * (match acc with Some a => a | None => 0 end) + d)%Z)
      | None => acc
      end
  end.

(** [parseInt(s, 10)] on a string; [None] is [NaN].  The number is the
    double nearest to the digits read. *)
Definition parseInt (s : string) : option Z :=
  option_map to_double
    match JS.trimStart s with
    | String c s' =>
        if Ascii.eqb c "-" then option_map Z.opp (parse_digits s' None)
        else if Ascii.eqb c "+" then parse_digits s' None
        else parse_digits (String c s') None
    | EmptyString => None
    end.

(** What the handlers read from [config]; [None] is [NaN]. *)
Record Config : Type := mkConfig {
  shortcodeLength : option Z;
  defaultValidityMinutes : option Z;
  hostname : string;
  urlRegex_test : string -> bool     (* config.urlRegex.test *)
}.

(** [process.env.X || d] *)
Definition env_or (v : option string) (d : string) : string :=
  if JS.truthy v then match v with Some x => x | None => d end else d.

(** The numeric and host entries of the object exported by config/index.js,
    for the given test of its [urlRegex]. *)
Definition loadConfig (SHORTCODE_LENGTH DEFAULT_VALIDITY_MINUTES HOSTNAME
    : option string) (test : string -> bool) : Config :=
  {| shortcodeLength := parseInt (env_or SHORTCODE_LENGTH "7");
     defaultValidityMinutes := parseInt (env_or DEFAULT_VALIDITY_MINUTES "30");
     hostname := env_or HOSTNAME "localhost:3000";
     urlRegex_test := test |}.

(** The [length] of [Array.from({ length }, ...)] for a number or [NaN],
    as [ToLength] reads it: 0 for [NaN] and below 0, and no more than
    [2^53 - 1]. *)
Definition to_length (v : option Z) : nat :=
  match v with
  | Some n => Z.to_nat (Z.min n 9007199254740991)
  | None => 0
  end.

(** A [validity] of the request body: a numeral for a whole number, which
    [JSON.parse] reads as the nearest double, or a string. *)
Inductive Validity : Type :=
| VNumber (n : Z)
| VString (s : string).

(** The decimal digits of a natural number, most significant first, put in
    front of [acc]; [fuel] bounds the number of digits. *)
Fixpoint digits_fuel (fuel : nat) (n : Z) (acc : string) : string :=
  match fuel with
  | O => acc
  | S fuel' =>
      let acc' := String (ascii_of_nat (48 + Z.to_nat (n mod 10))) acc in
      if (n / 10 =? 0)%Z then acc' else digits_fuel fuel' (n / 10) acc'
  end.

(** The whole numbers that a JavaScript number holds exactly
    ([Number.isSafeInteger]); on them reading, printing and the arithmetic
    of the handlers are those of [Z]. *)
Definition safe_integer (n : Z) : Prop :=
  (Z.abs n <= 9007199254740991)%Z.

(** The decimal digits of a whole number [n >= 0]: a number has no more
    decimal digits than binary ones. *)
Definition digits (n : Z) : string :=
  digits_fuel (S (Z.to_nat (Z.log2 n))) n "".

(** Whether the whole number [v] is read as the double [x]. *)
Definition rounds_to (x v : Z) : bool := (to_double v =? x)%Z.

(** Whether a multiple of [10^j] is read as the double [x]; the numbers read
    as [x] lie around [x] without a gap, so it is enough to look at the
    multiples next to [x] on either side. *)
Definition has_multiple (x j : Z) : bool :=
  let p := (10 ^ j)%Z in
  let below := (x / p * p)%Z in
  rounds_to x below || rounds_to x (below + p)%Z.

Fixpoint zeros_fuel (fuel : nat) (x j : Z) : Z :=
  match fuel with
  | O => j
  | S fuel' =>
      if has_multiple x (j + 1) then zeros_fuel fuel' x (j + 1)%Z else j
  end.

(** The largest [j] for which a multiple of [10^j] is read as [x]. *)
Definition trailing_zeros (x : Z) : Z :=
  zeros_fuel (S (Z.to_nat (Z.log2 x))) x 0.

(** The whole number that [Number::toString] prints for a double
    [x >= 2^53]: of the numbers read as [x], one with the fewest significant
    digits, that is with the most zeros at its end, and among those the
    nearest to [x], with an even last digit when two are as near. *)
Definition shortest (x : Z) : Z :=
  let p := (10 ^ trailing_zeros x)%Z in
  let below := (x / p * p)%Z in
  let above := (below + p)%Z in
  if rounds_to x below && rounds_to x above then
    if (x - below <? above - x)%Z then below
    else if (above - x <? x - below)%Z then above
    else if Z.even (below / p) then below else above
  else if rounds_to x below then below else above.

(** The exponent form [d.ddde+N] of [v], a number of more than 21 digits
    that ends in the zeros of [p], a power of ten. *)
Definition exponent_form (v p : Z) : string :=
  match digits (v / p) with
  | String d rest =>
      String d (if String.eqb rest "" then "" else "." ++ rest)
        ++ "e+" ++ digits (Z.of_nat (String.length (digits v) - 1))
  | EmptyString => EmptyString
  end.

(** [String(x)] for a double [x >= 0]: a whole number below [2^53] is a
    double of its own and is printed digit by digit; from there the
    shortest digits that are read as [x] are printed, in full below
    [10^21] and in exponent form from [10^21] on. *)
Definition print (x : Z) : string :=
  if (infinity <=? x)%Z then "Infinity"
  else if (x <? 2 ^ 53)%Z then digits x
  else
    let v := shortest x in
    if (v <? 10 ^ 21)%Z then digits v
    else exponent_form v (10 ^ trailing_zeros x).

(** [String(x)] for a double [x]. *)
Definition decimal (x : Z) : string :=
  if (x <? 0)%Z then String "-" (print (- x)) else print x.

(** [parseInt(validity, 10)], which first turns its argument into a
    string. *)
Definition parseValidity (v : Validity) : option Z :=
  parseInt (match v with
            | VNumber n => decimal (to_double n)
            | VString s => s
            end).

(** The fields of [req.body] read by [createShortUrl]; [None] is
    [undefined]. *)
Record CreateBody : Type := mkCreateBody {
  url : option string;
  validity : option Validity;
  customShortcode : option string
}.

Record ClickDetail : Type := mkClickDetail {
  detail_timestamp : Z;
  detail_referrer : option string;
  location_ip : option string
}.

(** The argument of [res.json]. *)
Inductive Body : Type :=
| ErrorBody (error message : string)
| CreatedBody (shortlink : string) (expiry : Z)
| StatsBody (shortcode original_url : string) (creation_date expiry_date : Z)
    (total_clicks : nat) (detailed_clicks : list ClickDetail).

Inductive Response : Type :=
| Json (status : Z) (body : Body)          (* res.status(status).json(body) *)
| Redirect (status : Z) (location : string).  (* res.redirect(status, url) *)

(** A time value that a [Date] can hold; beyond it the [Date] is invalid and
    [toISOString] throws. *)
Definition valid_time (t : Z) : bool :=
  (Z.abs t <=? 8640000000000000)%Z.

(** [createdAt.getTime() + validityMinutes * 60 * 1000] with every
    operation rounded to a double, as the arithmetic of the language is. *)
Definition expiry_in_doubles (createdAt validityMinutes : Z) : Z :=
  to_double (createdAt + to_double (to_double (validityMinutes * 60) * 1000)).

Definition uniqueFailed : string :=
  "SQLITE_CONSTRAINT: UNIQUE constraint failed: shortened_urls.shortcode".

(** Modelled from the spec: [logEvent] of ../middleware/logger is not among
    the sources; the design document has the shortener call its logging as a
    black box that never throws into it.  The call is recorded with its event
    name and shortcode, and returns. *)
Definition logEvent (name : string) (code : option string) (st : State)
  : State :=
  {| shortened_urls := shortened_urls st; clicks := clicks st;
     randoms := randoms st; statements := statements st;
     dates := dates st; logged := logged st ++ [(name, code)] |}.

Section Controller.

Variable w : World.
Variable config : Config.

(** [new Date()], as a time value. *)
Definition newDate (st : State) : Z * State :=
  (clock w (dates st),
   {| shortened_urls := shortened_urls st; clicks := clicks st;
      randoms := randoms st; statements := statements st;
      dates := S (dates st); logged := logged st |}).

(** [dbGet] of a row of [shortened_urls] by shortcode. *)
Definition dbGetUrl (code : string) (st : State)
  : Result (option UrlRow) * State :=
  match dbError w (statements st) with
  | Some message => (Rejected (DbFailure message), ran st)
  | None =>
      (Resolved (find (fun r => String.eqb (shortcode r) code)
                   (shortened_urls st)),
       ran st)
  end.

(** [dbRun("INSERT INTO shortened_urls ...")]; the primary key refuses a
    shortcode that is taken. *)
Definition insertUrl (row : UrlRow) (st : State) : Result unit * State :=
  match dbError w (statements st) with
  | Some message => (Rejected (DbFailure message), ran st)
  | None =>
      if taken (shortcode row) (shortened_urls st)
      then (Rejected (DbFailure uniqueFailed), ran st)
      else
        (Resolved tt,
         {| shortened_urls := shortened_urls st ++ [row];
            clicks := clicks st;
            randoms := randoms st; statements := S (statements st);
            dates := dates st; logged := logged st |})
  end.

(** [dbRun("INSERT INTO clicks ...")] *)
Definition insertClick (row : ClickRow) (st : State) : Result unit * State :=
  match dbError w (statements st) with
  | Some message => (Rejected (DbFailure message), ran st)
  | None =>
      (Resolved tt,
       {| shortened_urls := shortened_urls st;
          clicks := clicks st ++ [row];
          randoms := randoms st; statements := S (statements st);
          dates := dates st; logged := logged st |})
  end.

(** [dbAll("SELECT ... FROM clicks WHERE shortcode = ?")] *)
Definition dbAllClicks (code : string) (st : State)
  : Result (list ClickRow) * State :=
  match dbError w (statements st) with
  | Some message => (Rejected (DbFailure message), ran st)
  | None =>
      (Resolved (filter (fun c => String.eqb (click_shortcode c) code)
                   (clicks st)),
       ran st)
  end.

Definition badRequest (message : string) : Response :=
  Json 400 (ErrorBody "Bad Request" message).

(** The [catch] block of [createShortUrl]. *)
Definition createFailed (st : State) : Result Response * State :=
  (Resolved
     (Json 500 (ErrorBody "Internal Server Error"
        "Could not save the short URL due to a database error.")),
   logEvent "error" None st).

(** The end of the [try] block of [createShortUrl], from the [INSERT] on.
    The expiry is computed in [Z]: for a reading of the clock after 1970
    this is the number that the arithmetic of doubles gives whenever that
    number is the time value of a [Date], and otherwise neither is one
    (lemma [expiry_is_exact]). *)
Definition saveShortUrl (finalShortcode theUrl : string)
    (validityMinutes createdAt : Z) (st : State) : Result Response * State :=
  let expiresAt := (createdAt + validityMinutes * 60 * 1000)%Z in
  if negb (valid_time expiresAt) then createFailed st   (* RangeError *)
  else
    match insertUrl (mkUrlRow finalShortcode theUrl createdAt expiresAt) st with
    | (Resolved _, st') =>
        let shortlink := "http://" ++ hostname config ++ "/" ++ finalShortcode in
        (Resolved (Json 201 (CreatedBody shortlink expiresAt)),
         logEvent "url_created" (Some finalShortcode) st')
    | (Rejected _, st') => createFailed st'
    | (OutOfFuel, st') => (OutOfFuel, st')
    end.

(** [exports.createShortUrl = async (req, res) => ...]; [fuel] bounds the
    loop of [generateUniqueShortcode]. *)
Definition createShortUrl (fuel : nat) (body : CreateBody) (st : State)
  : Result Response * State :=
  match url body with
  | None =>
      (Resolved (badRequest
         "Invalid or missing 'url'. Must be a valid URL format."),
       logEvent "error" None st)
  | Some theUrl =>
      if String.eqb theUrl "" || negb (urlRegex_test config theUrl) then
        (Resolved (badRequest
           "Invalid or missing 'url'. Must be a valid URL format."),
         logEvent "error" None st)
      else
        let validityMinutes :=
          match validity body with
          | Some v => parseValidity v
          | None => defaultValidityMinutes config
          end in
        match validityMinutes with
        | None =>
            (Resolved (badRequest
               "'validity' must be a positive integer representing minutes."),
             logEvent "error" None st)
        | Some minutes =>
            if (minutes <=? 0)%Z then
              (Resolved (badRequest
                 "'validity' must be a positive integer representing minutes."),
               logEvent "error" None st)
            else
              let (createdAt, st1) := newDate st in
              if JS.truthy (customShortcode body) then
                let custom := match customShortcode body with
                              | Some c => c
                              | None => EmptyString
                              end in
                if negb (isShortcodeValid custom) then
                  (Resolved (badRequest
                     "Custom shortcode must be alphanumeric and between 3 and 15 characters long."),
                   logEvent "error" None st1)
                else
                  match dbGetUrl custom st1 with
                  | (Resolved (Some _), st2) =>
                      (Resolved (Json 409 (ErrorBody "Conflict"
                         ("Custom shortcode '" ++ custom
                            ++ "' is already in use."))),
                       logEvent "error" (Some custom) st2)
                  | (Resolved None, st2) =>
                      saveShortUrl custom theUrl minutes createdAt st2
                  | (Rejected _, st2) => createFailed st2
                  | (OutOfFuel, st2) => (OutOfFuel, st2)
                  end
              else
                match generateUniqueShortcode w fuel
                        (to_length (shortcodeLength config)) st1 with
                | (Resolved code, st2) =>
                    saveShortUrl code theUrl minutes createdAt st2
                | (Rejected _, st2) => createFailed st2
                | (OutOfFuel, st2) => (OutOfFuel, st2)
                end
        end
  end.

(** [exports.redirectShortUrl = async (req, res) => ...], for the shortcode
    of [req.params]. *)
Definition redirectShortUrl (code : string) (req : Request) (st : State)
  : Response * State :=
  let failed (st' : State) :=
    (Json 500 (ErrorBody "Internal Server Error"
       "An unexpected error occurred."),
     logEvent "error" (Some code) st') in
  match dbGetUrl code st with
  | (Resolved None, st1) =>
      (Json 404 (ErrorBody "Not Found" "Short link not found."),
       logEvent "redirect_failed" (Some code) st1)
  | (Resolved (Some urlData), st1) =>
      let originalUrl := original_url urlData in
      let expiresAt := expires_at urlData in
      let (currentTime, st2) := newDate st1 in
      if (expiresAt <? currentTime)%Z then
        (Json 410 (ErrorBody "Gone" "Short link has expired."),
         logEvent "redirect_failed" (Some code) st2)
      else
        let referrer := if JS.truthy (referer req) then referer req else None in
        let ipAddress := getClientIp req in
        let st4 :=
          match insertClick (mkClickRow code currentTime referrer ipAddress)
                  st2 with
          | (Resolved _, st3) => logEvent "url_clicked" (Some code) st3
          | (_, st3) => logEvent "error" (Some code) st3
          end in
        (Redirect 302 originalUrl, st4)
  | (_, st1) => failed st1
  end.

(** [exports.getShortUrlStats = async (req, res) => ...] *)
Definition getShortUrlStats (code : string) (st : State) : Response * State :=
  let failed (st' : State) :=
    (Json 500 (ErrorBody "Internal Server Error"
       "An unexpected error occurred while retrieving statistics."),
     logEvent "error" (Some code) st') in
  match dbGetUrl code st with
  | (Resolved None, st1) =>
      (Json 404 (ErrorBody "Not Found" "Short link statistics not found."),
       logEvent "stats_retrieval_failed" (Some code) st1)
  | (Resolved (Some urlData), st1) =>
      match dbAllClicks code st1 with
      | (Resolved clicksData, st2) =>
          let detailedClicks :=
            map (fun click =>
                   mkClickDetail (click_timestamp click) (referrer click)
                     (ip_address click)) clicksData in
          (Json 200
             (StatsBody (shortcode urlData) (original_url urlData)
                (created_at urlData) (expires_at urlData)
                (List.length detailedClicks) detailedClicks),
           logEvent "stats_retrieved" (Some code) st2)
      | (_, st2) => failed st2
      end
  | (_, st1) => failed st1
  end.

End Controller.

(** A configuration with the defaults of config/index.js and a test that
    accepts the URLs starting with [http]. *)
Definition someConfig : Config :=
  loadConfig None None None (fun u => String.prefix "http" u).

Definition exampleBody : CreateBody :=
  mkCreateBody (Some "http://example.org/page") (Some (VString "45"))
    (Some "docs2024").

Definition plainRequest : Request := mkRequest None None (Some "198.51.100.4") None.

(** One call of a handler that comes back, in any world and under any
    configuration. *)
Inductive step : State -> State -> Prop :=
| step_create w config fuel body st response st' :
    createShortUrl w config fuel body st = (Resolved response, st') ->
    step st st'
| step_redirect w code req st :
    step st (snd (redirectShortUrl w code req st))
| step_stats w code st :
    step st (snd (getShortUrlStats w code st)).

(** Any number of calls, one after the other. *)
Inductive steps : State -> State -> Prop :=
| steps_none st : steps st st
| steps_more st1 st2 st3 : step st1 st2 -> steps st2 st3 -> steps st1 st3.

(** The row of a shortcode, as [dbGet] finds it. *)
Definition lookupUrl (code : string) (st : State) : option UrlRow :=
  find (fun r => String.eqb (shortcode r) code) (shortened_urls st).

(** The clicks recorded for a shortcode, as [dbAll] finds them. *)
Definition clicksOf (code : string) (st : State) : list ClickRow :=
  filter (fun c => String.eqb (click_shortcode c) code) (clicks st).

(** A world that differs from [quietWorld] in that the second statement
    fails. *)
Definition secondStatementFails : World :=
  {| randomIndex := fun _ => 0;
     dbError := fun k => if (k =? 1)%nat then Some "SQLITE_BUSY" else None;
     clock := fun _ => 1700000000000%Z |}.

(** The clock stands one hour later than in [quietWorld]. *)
Definition laterWorld : World :=
  {| randomIndex := fun _ => 0;
     dbError := fun _ => None;
     clock := fun _ => 1700003600000%Z |}.

(** A successful creation: the response is 201 with the short link and the
    expiry, and the table has gained the row of the link, whose shortcode
    was free; the shortcode is the valid custom one if the body gave one,
    and otherwise one built by [generateUniqueShortcode]. *)
Definition created (w : World) (config : Config) (body : CreateBody)
    (st st' : State) (response : Response) : Prop :=
  exists code theUrl minutes,
    url body = Some theUrl
    /\ theUrl <> ""
    /\ urlRegex_test config theUrl = true
    /\ match validity body with
       | Some v => parseValidity v
       | None => defaultValidityMinutes config
       end = Some minutes
    /\ (0 < minutes)%Z
    /\ response
       = Json 201
           (CreatedBody ("http://" ++ hostname config ++ "/" ++ code)
              (clock w (dates st) + minutes * 60 * 1000))
    /\ taken code (shortened_urls st) = false
    /\ shortened_urls st'
       = (shortened_urls st
            ++ [mkUrlRow code theUrl (clock w (dates st))
                  (clock w (dates st) + minutes * 60 * 1000)])%list
    /\ (JS.truthy (customShortcode body) = true ->
        customShortcode body = Some code /\ isShortcodeValid code = true)
    /\ (JS.truthy (customShortcode body) = false ->
        exists j,
          code = candidate (randomIndex w)
                   (randoms st + j * to_length (shortcodeLength config))
                   (to_length (shortcodeLength config))).

(** A refusal: an error response with status 400, 409 or 500, and the table
    of links as it was. *)
Definition refused (st st' : State) (response : Response) : Prop :=
  exists status error message,
    response = Json status (ErrorBody error message)
    /\ (status = 400 \/ status = 409 \/ status = 500)%Z
    /\ shortened_urls st' = shortened_urls st.

End Shortener.

(* ===================================================================== *)
(** ** The regular expression of config/index.js *)
(* ===================================================================== *)

(** [RegExp.prototype.test] for the patterns that the source uses: the
    pattern is anchored at both ends ([^ ... $], no [m] flag) and built from
    characters, classes, groups, alternatives and quantifiers only, so that
    [test] decides whether the whole string belongs to the language of the
    pattern.  It is computed by derivatives, one character at a time. *)
Module RegExp.

(** What matches one character. *)
Inductive atom : Type :=
| Chr (c : ascii)                        (* a pattern character *)
| Cls (ranges : list (ascii * ascii))    (* [a-bc-d], a single c as c-c *)
| Digit                                  (* \d *)
| NonSpace.                              (* \S *)

Inductive regex : Type :=
| Never                                  (* matches nothing *)
| Empty                                  (* the empty pattern *)
| Atom (a : atom)
| Seq (r1 r2 : regex)                    (* r1r2 *)
| Alt (r1 r2 : regex)                    (* r1|r2 *)
| Star (r : regex).                      (* r* *)

(** r? *)
Definition opt (r : regex) : regex := Alt r Empty.

(** r+ *)
Definition plus (r : regex) : regex := Seq r (Star r).

(** r{n} *)
Fixpoint times (n : nat) (r : regex) : regex :=
  match n with
  | O => Empty
  | S n' => Seq r (times n' r)
  end.

(** r{0,n} *)
Fixpoint upto (n : nat) (r : regex) : regex :=
  match n with
  | O => Empty
  | S n' => opt (Seq r (upto n' r))
  end.

(** r{m,n} *)
Definition between (m n : nat) (r : regex) : regex :=
  Seq (times m r) (upto (n - m) r).

(** r{m,} *)
Definition atleast (m : nat) (r : regex) : regex :=
  Seq (times m r) (Star r).

(** The characters of a string, one after the other. *)
Fixpoint chars (s : string) : regex :=
  match s with
  | EmptyString => Empty
  | String c s' => Seq (Atom (Chr c)) (chars s')
  end.

(** A sequence and a choice of several patterns. *)
Definition cat (rs : list regex) : regex := fold_right Seq Empty rs.

Definition any (rs : list regex) : regex := fold_right Alt Never rs.

(** [Canonicalize(ch)] with the [i] flag and without the [u] flag, on
    Latin-1: the upper-case form of [ch] if that is a single code unit, and
    not an ASCII one for a [ch] that is not ASCII.  The sharp s stays, the
    micro sign and the y with diaeresis leave Latin-1. *)
Definition canonicalize (c : ascii) : nat :=
  let n := nat_of_ascii c in
  if (((97 <=? n) && (n <=? 122))
      || ((224 <=? n) && (n <=? 254) && negb (n =? 247)))%nat
  then n - 32
  else if (n =? 255)%nat then 376
  else if (n =? 181)%nat then 924
  else n.

(** [0-9] *)
Definition is_digit (c : ascii) : bool :=
  ((48 <=? nat_of_ascii c) && (nat_of_ascii c <=? 57))%nat.

Section Matching.

(** The [i] flag. *)
Variable ignoreCase : bool.

Definition code (c : ascii) : nat :=
  if ignoreCase then canonicalize c else nat_of_ascii c.

(** Some character between [lo] and [hi] has the code of [c]. *)
Definition in_range (lo hi c : ascii) : bool :=
  existsb (fun m => (code (ascii_of_nat m) =? code c)%nat)
    (seq (nat_of_ascii lo) (S (nat_of_ascii hi) - nat_of_ascii lo)).

Definition atom_test (a : atom) (c : ascii) : bool :=
  match a with
  | Chr x => (code x =? code c)%nat
  | Cls ranges => existsb (fun r => in_range (fst r) (snd r) c) ranges
  | Digit => is_digit c
  | NonSpace => negb (JS.is_space c)
  end.

(** Whether the pattern matches the empty string. *)
Fixpoint nullable (r : regex) : bool :=
  match r with
  | Never => false
  | Empty => true
  | Atom _ => false
  | Seq r1 r2 => nullable r1 && nullable r2
  | Alt r1 r2 => nullable r1 || nullable r2
  | Star _ => true
  end.

Definition mkSeq (r1 r2 : regex) : regex :=
  match r1, r2 with
  | Never, _ => Never
  | _, Never => Never
  | Empty, _ => r2
  | _, Empty => r1
  | _, _ => Seq r1 r2
  end.

Definition mkAlt (r1 r2 : regex) : regex :=
  match r1, r2 with
  | Never, _ => r2
  | _, Never => r1
  | _, _ => Alt r1 r2
  end.

(** What is left of the pattern after the character [c]. *)
Fixpoint deriv (c : ascii) (r : regex) : regex :=
  match r with
  | Never => Never
  | Empty => Never
  | Atom a => if atom_test a c then Empty else Never
  | Seq r1 r2 =>
      if nullable r1
      then mkAlt (mkSeq (deriv c r1) r2) (deriv c r2)
      else mkSeq (deriv c r1) r2
  | Alt r1 r2 => mkAlt (deriv c r1) (deriv c r2)
  | Star r1 => mkSeq (deriv c r1) (Star r1)
  end.

(** [/^r$/.test(s)] *)
Fixpoint test (r : regex) (s : string) : bool :=
  match s with
  | EmptyString => nullable r
  | String c s' => test (deriv c r) s'
  end.

(** The language of a pattern: the strings that it matches as a whole. *)
Inductive matches : regex -> string -> Prop :=
| matches_empty : matches Empty ""
| matches_atom a c : atom_test a c = true -> matches (Atom a) (String c "")
| matches_seq r1 r2 s1 s2 :
    matches r1 s1 -> matches r2 s2 -> matches (Seq r1 r2) (s1 ++ s2)
| matches_left r1 r2 s : matches r1 s -> matches (Alt r1 r2) s
| matches_right r1 r2 s : matches r2 s -> matches (Alt r1 r2) s
| matches_none r : matches (Star r) ""
| matches_more r s1 s2 :
    matches r s1 -> matches (Star r) s2 -> matches (Star r) (s1 ++ s2).

(** Every character that an atom of the pattern matches passes [ok]. *)
Definition atom_within (ok : ascii -> bool) (a : atom) : bool :=
  forallb (fun n => implb (atom_test a (ascii_of_nat n)) (ok (ascii_of_nat n)))
    (seq 0 256).

Fixpoint within (ok : ascii -> bool) (r : regex) : bool :=
  match r with
  | Never | Empty => true
  | Atom a => atom_within ok a
  | Seq r1 r2 | Alt r1 r2 => within ok r1 && within ok r2
  | Star r1 => within ok r1
  end.

End Matching.

End RegExp.

(** The characters of a string. *)
Fixpoint characters (s : string) : list ascii :=
  match s with
  | EmptyString => []
  | String c s' => c :: characters s'
  end.

(** [[A-Z0-9]], [[A-Z0-9-]] and [[A-Z]]. *)
Definition alnumClass : RegExp.regex :=
  RegExp.Atom (RegExp.Cls [("A", "Z"); ("0", "9")]%char).

Definition alnumDashClass : RegExp.regex :=
  RegExp.Atom (RegExp.Cls [("A", "Z"); ("0", "9"); ("-", "-")]%char).

Definition alphaClass : RegExp.regex :=
  RegExp.Atom (RegExp.Cls [("A", "Z")]%char).

Definition digit : RegExp.regex := RegExp.Atom RegExp.Digit.

Definition chr (c : ascii) : RegExp.regex := RegExp.Atom (RegExp.Chr c).

(** [(?:http|ftp)s?:\/\/] *)
Definition schemePattern : RegExp.regex :=
  RegExp.cat [RegExp.any [RegExp.chars "http"; RegExp.chars "ftp"];
              RegExp.opt (chr "s"); RegExp.chars "://"].

(** [(?:[A-Z0-9](?:[A-Z0-9-]{0,61}[A-Z0-9])?\.)+(?:[A-Z]{2,6}\.?|[A-Z0-9-]{2,}\.?)] *)
Definition domainPattern : RegExp.regex :=
  RegExp.cat
    [RegExp.plus
       (RegExp.cat
          [alnumClass;
           RegExp.opt
             (RegExp.cat [RegExp.between 0 61 alnumDashClass; alnumClass]);
           chr "."]);
     RegExp.any
       [RegExp.cat [RegExp.between 2 6 alphaClass; RegExp.opt (chr ".")];
        RegExp.cat [RegExp.atleast 2 alnumDashClass; RegExp.opt (chr ".")]]].

(** [\d{1,3}\.\d{1,3}\.\d{1,3}\.\d{1,3}] *)
Definition addressPattern : RegExp.regex :=
  RegExp.cat
    [RegExp.between 1 3 digit; chr "."; RegExp.between 1 3 digit; chr ".";
     RegExp.between 1 3 digit; chr "."; RegExp.between 1 3 digit].

(** [(?:...|localhost|...)] *)
Definition hostPattern : RegExp.regex :=
  RegExp.any [domainPattern; RegExp.chars "localhost"; addressPattern].

(** [(?::\d+)?] *)
Definition portPattern : RegExp.regex :=
  RegExp.opt (RegExp.cat [chr ":"; RegExp.plus digit]).

(** [(?:\/?|[/?]\S+)] *)
Definition pathPattern : RegExp.regex :=
  RegExp.any
    [RegExp.opt (chr "/");
     RegExp.cat [RegExp.Atom (RegExp.Cls [("/", "/"); ("?", "?")]%char);
                 RegExp.plus (RegExp.Atom RegExp.NonSpace)]].

(** The pattern of [config.urlRegex], between [^] and [$]. *)
Definition urlRegex : RegExp.regex :=
  RegExp.cat [schemePattern; hostPattern; portPattern; pathPattern].

(** [config.urlRegex.test(url)]; the expression has the [i] flag. *)
Definition urlTest (u : string) : bool :=
  RegExp.test true urlRegex u.

(** The object exported by config/index.js. *)
Definition exportedConfig (SHORTCODE_LENGTH DEFAULT_VALIDITY_MINUTES HOSTNAME
    : option string) : Shortener.Config :=
  Shortener.loadConfig SHORTCODE_LENGTH DEFAULT_VALIDITY_MINUTES HOSTNAME
    urlTest.

(** The four schemes, in lower case. *)
Definition schemes : list string :=
  ["http://"; "https://"; "ftp://"; "ftps://"].

Definition all_chars (ok : ascii -> bool) (s : string) : bool :=
  forallb ok (characters s).

Definition no_space (s : string) : bool :=
  all_chars (fun c => negb (JS.is_space c)) s.

(** A port: nothing, or a colon and one or more digits. *)
Definition isPort (p : string) : Prop :=
  p = "" \/ exists ds, p = String ":" ds /\ ds <> ""
                       /\ all_chars RegExp.is_digit ds = true.

(** What may follow host and port: nothing, a slash, or a slash or question
    mark and one or more characters that are not white space. *)
Definition isTail (t : string) : Prop :=
  t = "" \/ t = "/"
  \/ exists c rest, t = String c rest /\ (c = "/" \/ c = "?")%char
                    /\ rest <> "" /\ no_space rest = true.

(* ===================================================================== *)
(** ** Properties of the string primitives *)
(* ===================================================================== *)

Lemma includes_In (l : list string) (x : string) :
  JS.includes l x = true <-> In x l.
Proof.
  induction l as [|y l IH]; simpl.
  - split; [discriminate | tauto].
  - rewrite orb_true_iff, IH, String.eqb_eq. tauto.
Qed.

Lemma length_rev_append (s acc : string) :
  String.length (JS.rev_append s acc) = String.length s + String.length acc.
Proof.
  revert acc. induction s as [|c s IH]; intros acc; simpl.
  - reflexivity.
  - rewrite IH. simpl. lia.
Qed.

Lemma blank_rev_append (s acc : string) :
  JS.blank (JS.rev_append s acc) = JS.blank s && JS.blank acc.
Proof.
  revert acc. induction s as [|c s IH]; intros acc; simpl.
  - reflexivity.
  - rewrite IH. simpl. destruct (JS.is_space c), (JS.blank s); simpl;
      try reflexivity; now rewrite ?andb_false_r.
Qed.

Lemma blank_reverse (s : string) : JS.blank (JS.reverse s) = JS.blank s.
Proof. unfold JS.reverse. rewrite blank_rev_append. simpl. apply andb_true_r. Qed.

Lemma length_zero_blank (s : string) :
  String.length s = 0 -> JS.blank s = true.
Proof. destruct s; simpl; [reflexivity | discriminate]. Qed.

(** [trimStart] keeps blankness and leaves nothing exactly of a blank
    string. *)
Lemma trimStart_blank (s : string) :
  JS.blank (JS.trimStart s) = JS.blank s.
Proof.
  induction s as [|c s IH]; simpl; [reflexivity|].
  destruct (JS.is_space c) eqn:E; simpl; [exact IH | now rewrite E].
Qed.

Lemma trimStart_length_zero (s : string) :
  String.length (JS.trimStart s) = 0 <-> JS.blank s = true.
Proof.
  induction s as [|c s IH]; simpl.
  - tauto.
  - destruct (JS.is_space c); simpl; [exact IH | split; discriminate].
Qed.

(** [message.trim().length === 0] holds exactly for the empty string and for
    strings made of white space only. *)
Lemma trim_length_zero (s : string) :
  String.length (JS.trim s) = 0 <-> JS.blank s = true.
Proof.
  unfold JS.trim, JS.trimEnd, JS.reverse at 1.
  rewrite length_rev_append. simpl. rewrite Nat.add_0_r.
  rewrite trimStart_length_zero, blank_reverse, trimStart_blank.
  tauto.
Qed.

Lemma lower_char_idempotent (c : ascii) :
  JS.lower_char (JS.lower_char c) = JS.lower_char c.
Proof.
  destruct c as [[] [] [] [] [] [] [] []]; reflexivity.
Qed.

(** A lower-cased string is a fixed point of [toLowerCase]. *)
Lemma toLowerCase_idempotent (s : string) :
  JS.toLowerCase (JS.toLowerCase s) = JS.toLowerCase s.
Proof.
  induction s as [|c s IH]; simpl; [reflexivity|].
  now rewrite lower_char_idempotent, IH.
Qed.

(* ===================================================================== *)
(** ** Validation *)
(* ===================================================================== *)

Lemma includes_app (l1 l2 : list string) (x : string) :
  JS.includes (l1 ++ l2) x = JS.includes l1 x || JS.includes l2 x.
Proof.
  induction l1 as [|y l1 IH]; simpl; [reflexivity|].
  now rewrite IH, orb_assoc.
Qed.

Lemma allowed_stack_cases (x : string) :
  JS.includes ALLOWED_STACKS x = true -> x = "backend" \/ x = "frontend".
Proof.
  rewrite includes_In. simpl. intuition.
Qed.

(** Ground facts about the constant tables, by evaluation. *)
Lemma stack_tests :
  JS.includes ALLOWED_STACKS "backend" = true
  /\ JS.includes ALLOWED_STACKS "frontend" = true
  /\ String.eqb "backend" "backend" = true
  /\ String.eqb "frontend" "backend" = false
  /\ String.eqb "frontend" "frontend" = true.
Proof. repeat split. Qed.

(** Once the three taxonomy fields are accepted, only the message decides. *)
Lemma validate_accepted_fields (stack level packageName message : string) :
  fieldsAccepted stack level packageName = true ->
  validateLogParams stack level packageName message =
    if Nat.eqb (String.length (JS.trim message)) 0 then inl EmptyMessage
    else if Nat.ltb 48 (String.length message)
         then inl (MessageTooLong (String.length message))
         else inr true.
Proof.
  unfold fieldsAccepted, validateLogParams. intros H.
  destruct stack_tests as (G1 & G2 & G3 & G4 & G5).
  apply andb_true_iff in H as [Hl H]. rewrite Hl.
  rewrite includes_app in H.
  apply orb_true_iff in H as [H|H]; apply andb_true_iff in H as [Hs Hp];
    apply String.eqb_eq in Hs; rewrite Hs.
  - rewrite G1, G3. cbn [negb].
    destruct (JS.includes ALLOWED_BACKEND_PACKAGES _); cbn [negb andb orb] in *;
      [reflexivity | now rewrite Hp].
  - rewrite G2, G4, G5. cbn [negb]. now rewrite Hp.
Qed.

(** Conversely an event whose taxonomy fields are not accepted is rejected
    before the message is looked at. *)
Lemma validate_fields_rejected (stack level packageName message : string) :
  fieldsAccepted stack level packageName = false ->
  exists e, validateLogParams stack level packageName message = inl e
            /\ isInvalidMessage e = false.
Proof.
  unfold fieldsAccepted, validateLogParams. intros H.
  destruct stack_tests as (G1 & G2 & G3 & G4 & G5).
  destruct (JS.includes ALLOWED_STACKS (JS.toLowerCase stack)) eqn:Hs;
    cbn [negb].
  2: { eexists; split; reflexivity. }
  destruct (JS.includes ALLOWED_LEVELS (JS.toLowerCase level)) eqn:Hl;
    cbn [negb].
  2: { eexists; split; reflexivity. }
  cbn [andb] in H. rewrite includes_app in H.
  apply allowed_stack_cases in Hs as [Hs|Hs]; rewrite Hs in *.
  - rewrite G3 in *. cbn [andb orb] in H.
    assert (G6 : String.eqb "backend" "frontend" = false) by reflexivity.
    rewrite G6 in H. cbn [andb orb] in H. rewrite orb_false_r in H.
    apply orb_false_iff in H as [H1 H2].
    rewrite H1, H2. cbn [negb andb]. eexists; split; reflexivity.
  - rewrite G4, G5 in *. cbn [andb orb] in H.
    rewrite H. cbn [negb]. eexists; split; reflexivity.
Qed.

(** C7. For an event whose stack, level and package are accepted,
    [validateLogParams] fails with an invalid-message error exactly when the
    message is empty, made of white space only, or longer than 48
    characters, and a message of exactly 48 characters that is not blank
    passes.  The message tests are reached only after the other three, so an
    invalid-message error always means such a message. *)
Theorem message_check_exact (stack level packageName message : string) :
  (fieldsAccepted stack level packageName = true ->
   ((exists e, validateLogParams stack level packageName message = inl e
               /\ isInvalidMessage e = true)
    <-> (JS.blank message = true \/ 48 < String.length message))
   /\ (validateLogParams stack level packageName message = inr true
       <-> JS.blank message = false /\ String.length message <= 48)
   /\ (String.length message = 48 -> JS.blank message = false ->
       validateLogParams stack level packageName message = inr true))
  /\ ((exists e, validateLogParams stack level packageName message = inl e
                 /\ isInvalidMessage e = true) ->
      fieldsAccepted stack level packageName = true
      /\ (JS.blank message = true \/ 48 < String.length message)).
Proof.
  assert (Hmsg : fieldsAccepted stack level packageName = true ->
     validateLogParams stack level packageName message =
       if JS.blank message then inl EmptyMessage
       else if Nat.ltb 48 (String.length message)
            then inl (MessageTooLong (String.length message))
            else inr true).
  { intros Hf. rewrite (validate_accepted_fields _ _ _ message Hf).
    destruct (JS.blank message) eqn:Hb.
    - apply trim_length_zero in Hb. now rewrite Hb.
    - destruct (Nat.eqb_spec (String.length (JS.trim message)) 0) as [E|E];
        [|reflexivity].
      apply trim_length_zero in E. congruence. }
  assert (Hbad : fieldsAccepted stack level packageName = true ->
     (exists e, validateLogParams stack level packageName message = inl e
                /\ isInvalidMessage e = true) ->
     JS.blank message = true \/ 48 < String.length message).
  { intros Hf (e & He & Hi). rewrite (Hmsg Hf) in He.
    destruct (JS.blank message); [now left|].
    destruct (Nat.ltb_spec 48 (String.length message)); [now right|].
    discriminate. }
  split.
  - intros Hf. rewrite (Hmsg Hf). split; [split|split; [split|]].
    + rewrite <- (Hmsg Hf). apply (Hbad Hf).
    + destruct (JS.blank message) eqn:Hb.
      * intros _. eexists; split; reflexivity.
      * intros [Hm|Hm]; [discriminate|].
        apply Nat.ltb_lt in Hm. rewrite Hm. eexists; split; reflexivity.
    + destruct (JS.blank message); [discriminate|].
      destruct (Nat.ltb_spec 48 (String.length message)); [discriminate|].
      intros _. split; [reflexivity | lia].
    + intros (Hb & Hl). rewrite Hb.
      destruct (Nat.ltb_spec 48 (String.length message)); [lia | reflexivity].
    + intros Hl Hb. rewrite Hb, Hl. reflexivity.
  - intros Hex.
    destruct (fieldsAccepted stack level packageName) eqn:Hf.
    + split; [reflexivity | now apply Hbad].
    + destruct Hex as (e & He & Hi).
      destruct (validate_fields_rejected _ _ _ message Hf) as (e' & He' & Hi').
      congruence.
Qed.

(** A 48-character message of a backend handler passes. *)
Lemma message_check_exact_witness :
  fieldsAccepted "backend" "info" "handler" = true
  /\ validateLogParams "backend" "info" "handler"
       "123456789012345678901234567890123456789012345678" = inr true.
Proof.
  split; [reflexivity|].
  apply (proj1 (message_check_exact "backend" "info" "handler"
                  "123456789012345678901234567890123456789012345678")
           eq_refl);
    reflexivity.
Defined.

Lemma backend_only_not_common (x : string) :
  JS.includes ALLOWED_BACKEND_PACKAGES x = true ->
  JS.includes ALLOWED_COMMON_PACKAGES x = false.
Proof.
  rewrite includes_In. simpl.
  intros [H|[H|[H|[H|[H|[H|[H|[H|[]]]]]]]]]; subst x; reflexivity.
Qed.

(** C8. With the stack [frontend] in any casing, a package of the
    backend-only set in any casing is never accepted, and is rejected as an
    invalid package as soon as the level is an allowed one; what the
    frontend stack accepts is a package of the shared set. *)
Theorem frontend_shared_packages_only
    (stack level packageName message : string) :
  JS.toLowerCase stack = "frontend" ->
  (JS.includes ALLOWED_BACKEND_PACKAGES (JS.toLowerCase packageName) = true ->
     (exists e, validateLogParams stack level packageName message = inl e)
     /\ (JS.includes ALLOWED_LEVELS (JS.toLowerCase level) = true ->
         validateLogParams stack level packageName message
           = inl (InvalidPackage packageName "frontend")))
  /\ (validateLogParams stack level packageName message = inr true ->
        JS.includes ALLOWED_COMMON_PACKAGES (JS.toLowerCase packageName) = true)
  /\ (JS.includes ALLOWED_COMMON_PACKAGES (JS.toLowerCase packageName) = false ->
        JS.includes ALLOWED_LEVELS (JS.toLowerCase level) = true ->
        validateLogParams stack level packageName message
          = inl (InvalidPackage packageName "frontend")).
Proof.
  intros Hs.
  destruct stack_tests as (G1 & G2 & G3 & G4 & G5).
  assert (Hrej :
    JS.includes ALLOWED_COMMON_PACKAGES (JS.toLowerCase packageName) = false ->
    JS.includes ALLOWED_LEVELS (JS.toLowerCase level) = true ->
    validateLogParams stack level packageName message
      = inl (InvalidPackage packageName "frontend")).
  { intros Hc Hl. unfold validateLogParams.
    rewrite Hs, G2, G4, G5, Hl, Hc. reflexivity. }
  split; [|split].
  - intros Hb. apply backend_only_not_common in Hb.
    split; [|now apply Hrej].
    destruct (JS.includes ALLOWED_LEVELS (JS.toLowerCase level)) eqn:Hl.
    + eexists. now apply Hrej.
    + unfold validateLogParams. rewrite Hs, G2, Hl. cbn [negb].
      eexists; reflexivity.
  - intros Hv.
    destruct (JS.includes ALLOWED_COMMON_PACKAGES _) eqn:Hc; [reflexivity|].
    destruct (JS.includes ALLOWED_LEVELS (JS.toLowerCase level)) eqn:Hl.
    + rewrite (Hrej eq_refl eq_refl) in Hv. discriminate.
    + unfold validateLogParams in Hv. rewrite Hs, G2, Hl in Hv.
      cbn [negb] in Hv. discriminate.
  - exact Hrej.
Qed.

(** [FrontEnd] with the backend-only package [Repository] is rejected. *)
Lemma frontend_shared_packages_only_witness :
  JS.toLowerCase "FrontEnd" = "frontend"
  /\ JS.includes ALLOWED_BACKEND_PACKAGES (JS.toLowerCase "Repository") = true
  /\ JS.includes ALLOWED_LEVELS (JS.toLowerCase "FATAL") = true
  /\ validateLogParams "FrontEnd" "FATAL" "Repository" "late"
       = inl (InvalidPackage "Repository" "frontend").
Proof.
  split; [reflexivity|]. split; [reflexivity|]. split; [reflexivity|].
  apply (proj1 (frontend_shared_packages_only
                  "FrontEnd" "FATAL" "Repository" "late" eq_refl));
    reflexivity.
Defined.

(* ===================================================================== *)
(** ** Constructor *)
(* ===================================================================== *)

(** C10. The constructor takes a falsy option for an absent one: a timeout
    of 0 gives 5000 ms and a retry count of 0 gives 3, so that no
    configuration yields a logger with a zero timeout or zero retries. *)
Theorem constructor_falsy_defaults :
  (forall r, timeout (new_Logger (mkConfig (Some 0%Z) r)) = 5000%Z)
  /\ (forall t, retries (new_Logger (mkConfig t (Some 0%Z))) = 3%Z)
  /\ (forall r, timeout (new_Logger (mkConfig None r)) = 5000%Z)
  /\ (forall t, retries (new_Logger (mkConfig t None)) = 3%Z)
  /\ (forall config, timeout (new_Logger config) <> 0%Z
                     /\ retries (new_Logger config) <> 0%Z).
Proof.
  repeat split; try reflexivity;
    destruct config as [[t|] [r|]]; simpl;
    repeat match goal with
           | |- context [Z.eqb ?x 0] => destruct (Z.eqb_spec x 0)
           end; lia.
Qed.

(* ===================================================================== *)
(** ** Histories *)
(* ===================================================================== *)

Lemma delays_app (h1 h2 : list Event) :
  delays (h1 ++ h2) = (delays h1 ++ delays h2)%list.
Proof.
  induction h1 as [|[] h1 IH]; simpl; try assumption; [reflexivity | now f_equal].
Qed.

Lemma logPosts_app (h1 h2 : list Event) :
  logPosts (h1 ++ h2) = (logPosts h1 ++ logPosts h2)%list.
Proof.
  induction h1 as [|[] h1 IH]; simpl; try assumption; [reflexivity | now f_equal].
Qed.

Lemma authPosts_app (h1 h2 : list Event) :
  authPosts (h1 ++ h2) = authPosts h1 + authPosts h2.
Proof.
  induction h1 as [|[] h1 IH]; simpl; try assumption; [reflexivity | now f_equal].
Qed.

(* ===================================================================== *)
(** ** Token provider *)
(* ===================================================================== *)

Lemma checkPayload_complete (p : list (string * option string)) :
  forallb (fun kv => JS.truthy (snd kv)) p = true -> checkPayload p = inr tt.
Proof.
  induction p as [|[k v] p IH]; simpl; [reflexivity|].
  intros H. apply andb_true_iff in H as [Hv Hp]. rewrite Hv. simpl. auto.
Qed.

Lemma checkPayload_incomplete (p : list (string * option string)) :
  forallb (fun kv => JS.truthy (snd kv)) p = false ->
  exists key, checkPayload p = inl (MissingEnv key).
Proof.
  induction p as [|[k v] p IH]; simpl; [discriminate|].
  intros H. destruct (JS.truthy v); simpl in *; [auto | now exists k].
Qed.

Ltac unfold_auth :=
  unfold getAuthToken, authRequest, new_URL, now_seconds, lift,
    bind, ret, throw, try_catch, get, emit, after,
    set_currentToken, set_tokenExpiryTime.

(** The three tests of [targetOk], as the code makes them. *)
Lemma targetOk_split (w : World) (url : string) :
  targetOk w url
  = (JS.has_scheme url && urlParses w url) && optionsAccepted w url.
Proof. reflexivity. Qed.

(** What one call of [getAuthToken] does, case by case: the events it adds
    contain no delay and no log request; on a hit the cached token comes back
    and nothing is sent; on a miss either the call throws, leaving the cache
    as it was, or it stores and returns a fresh non-empty token after exactly
    one request.  A request is sent exactly when the credentials are
    complete and the address of the endpoint is good. *)
Lemma getAuthToken_cases (w : World) (st : State) :
  exists evs,
    history (snd (getAuthToken w st)) = (history st ++ evs)%list
    /\ delays evs = [] /\ logPosts evs = []
    /\ ((cacheHit w st = true
         /\ authPosts evs = 0
         /\ fst (getAuthToken w st) = Returned (currentToken st)
         /\ currentToken (snd (getAuthToken w st)) = currentToken st
         /\ tokenExpiryTime (snd (getAuthToken w st)) = tokenExpiryTime st)
        \/ (cacheHit w st = false
            /\ authPosts evs
               = (if credentialsComplete (env w)
                     && targetOk w (AUTH_URL (env w)) then 1 else 0)
            /\ (exists e, fst (getAuthToken w st) = Threw (AuthenticationFailed e))
            /\ currentToken (snd (getAuthToken w st)) = currentToken st
            /\ tokenExpiryTime (snd (getAuthToken w st)) = tokenExpiryTime st)
        \/ (cacheHit w st = false
            /\ credentialsComplete (env w) = true
            /\ targetOk w (AUTH_URL (env w)) = true
            /\ authPosts evs = 1
            /\ fst (getAuthToken w st)
                 = Returned (currentToken (snd (getAuthToken w st)))
            /\ JS.truthy (currentToken (snd (getAuthToken w st))) = true)).
Proof.
  unfold cacheHit, credentialsComplete. rewrite targetOk_split.
  unfold_auth.
  destruct (JS.truthy (currentToken st)
            && (tokenExpiryTime st >? dateNow w (history st) / 1000 + 60)%Z)
    eqn:Hhit.
  - eexists. split; [reflexivity|]. cbn [fst snd currentToken tokenExpiryTime history].
    repeat split. left. repeat split.
  - destruct (forallb _ (payload_of (env w))) eqn:Hc.
    + rewrite (checkPayload_complete _ Hc).
      cbn [fst snd currentToken tokenExpiryTime history andb].
      destruct (JS.has_scheme (AUTH_URL (env w))
                && urlParses w (AUTH_URL (env w)));
        [destruct (optionsAccepted w (AUTH_URL (env w)))|];
        cbn [fst snd currentToken tokenExpiryTime history andb].
      2,3: rewrite <- ?app_assoc; eexists; split; [reflexivity|];
           cbn [app delays logPosts authPosts]; repeat split;
           right; left; repeat split; eexists; reflexivity.
      destruct (authReply w _) as [m | | sc [r|]];
        [| | destruct (status_ok sc);
               [destruct (JS.truthy (access_token r) && truthy_num (expires_in r))
                  eqn:Hok|] |];
        cbn [fst snd currentToken tokenExpiryTime history];
        rewrite <- ?app_assoc; (eexists; split; [reflexivity|]);
        cbn [app delays logPosts authPosts]; (split; [reflexivity|]);
        (split; [reflexivity|]).
      3: { right; right. apply andb_true_iff in Hok as [Ht _]. now repeat split. }
      all: right; left; repeat split; eexists; reflexivity.
    + destruct (checkPayload_incomplete _ Hc) as [key Hk]. rewrite Hk.
      cbn [fst snd currentToken tokenExpiryTime history andb].
      rewrite <- ?app_assoc. eexists. split; [reflexivity|].
      cbn [app delays logPosts authPosts]. repeat split.
      right; left; repeat split. eexists; reflexivity.
Qed.

(** The test of [getAuthToken] read against the clock in milliseconds: the
    stored expiry lies more than 60 s after the present instant. *)
Lemma cacheHit_iff (w : World) (st : State) :
  cacheHit w st = true
  <-> JS.truthy (currentToken st) = true
      /\ (1000 * tokenExpiryTime st > dateNow w (history st) + 60000)%Z.
Proof.
  unfold cacheHit. rewrite andb_true_iff, Z.gtb_gt.
  pose proof (Z.div_mod (dateNow w (history st)) 1000 ltac:(lia)) as Hd.
  pose proof (Z.mod_pos_bound (dateNow w (history st)) 1000 ltac:(lia)) as Hm.
  split; intros [Ht He]; (split; [exact Ht | lia]).
Qed.

Lemma getAuthToken_missing_credentials (w : World) (st : State) :
  cacheHit w st = false -> credentialsComplete (env w) = false ->
  exists key,
    getAuthToken w st
    = (Threw (AuthenticationFailed (MissingEnv key)),
       after st [Console AuthFetching;
                 Console (AuthErrorObtaining (MissingEnv key))]).
Proof.
  unfold cacheHit, credentialsComplete. intros Hhit Hc.
  destruct (checkPayload_incomplete _ Hc) as [key Hk]. exists key.
  unfold_auth. rewrite Hhit, Hk.
  cbn [fst snd currentToken tokenExpiryTime history].
  now rewrite <- app_assoc.
Qed.

(** With the credentials complete and an address that is no URL, or that
    [http.request] refuses, the executor throws and nothing is sent. *)
Lemma getAuthToken_bad_target (w : World) (st : State) :
  cacheHit w st = false -> credentialsComplete (env w) = true ->
  targetOk w (AUTH_URL (env w)) = false ->
  exists e,
    (e = InvalidURL \/ e = InvalidOption)
    /\ getAuthToken w st
       = (Threw (AuthenticationFailed e),
          after st [Console AuthFetching; Console (AuthErrorObtaining e)]).
Proof.
  unfold cacheHit, credentialsComplete. rewrite targetOk_split.
  intros Hhit Hc Hbad.
  unfold_auth. rewrite Hhit, (checkPayload_complete _ Hc).
  cbn [fst snd currentToken tokenExpiryTime history].
  destruct (JS.has_scheme (AUTH_URL (env w))
            && urlParses w (AUTH_URL (env w)));
    [destruct (optionsAccepted w (AUTH_URL (env w))); [discriminate|]|];
    cbn [fst snd currentToken tokenExpiryTime history];
    rewrite <- ?app_assoc; eexists; (split; [|reflexivity]); auto.
Qed.

(** A string that starts with [undefined/] has no scheme. *)
Lemma unset_base_is_no_url (w : World) :
  LOG_API_BASE_URL (env w) = None ->
  targetOk w (AUTH_URL (env w)) = false
  /\ targetOk w (LOG_API_URL (env w)) = false.
Proof.
  intros H. unfold targetOk, AUTH_URL, LOG_API_URL. rewrite H.
  split; reflexivity.
Qed.

(** C5, as stated, fails: with no cached token and [MY_EMAIL] unset, the
    call sends no request at all to the authentication endpoint. *)
Lemma refresh_without_credentials_sends_nothing :
  currentToken initial = None
  /\ authPosts (history initial) = 0
  /\ authPosts (history (snd (getAuthToken worldNoCredentials initial))) = 0
  /\ authPosts (history (snd (getAuthToken worldNoCredentials initial))) <> 1.
Proof.
  repeat split. vm_compute. discriminate.
Qed.

(** The same happens with all six credentials set and [LOG_API_BASE_URL]
    unset: [new URL] throws on the address [undefined/auth]. *)
Example refresh_without_base_sends_nothing :
  credentialsComplete (env worldNoBase) = true
  /\ getAuthToken worldNoBase initial
     = (Threw (AuthenticationFailed InvalidURL),
        after initial [Console AuthFetching;
                       Console (AuthErrorObtaining InvalidURL)]).
Proof. split; reflexivity. Qed.

(** C5, amended.  [getAuthToken] returns the cached token without any request
    exactly when a cached token exists and its stored expiry is more than 60
    seconds after the current time, which is what its test [cacheHit]
    decides.  Otherwise it sends exactly one request to the authentication
    endpoint when all six credentials are set and not empty and the address
    of the endpoint is a URL that [http.request] accepts; it sends none and
    throws when a credential is missing, and also when the address is not
    good, as it is with [LOG_API_BASE_URL] unset. *)
Theorem getAuthToken_cache_rule (w : World) (st : State) :
  (cacheHit w st = true
   <-> (JS.truthy (currentToken st) = true
        /\ (1000 * tokenExpiryTime st > dateNow w (history st) + 60000)%Z))
  /\ ((fst (getAuthToken w st) = Returned (currentToken st)
    /\ authPosts (history (snd (getAuthToken w st))) = authPosts (history st))
   <-> (JS.truthy (currentToken st) = true
        /\ (1000 * tokenExpiryTime st > dateNow w (history st) + 60000)%Z))
  /\ (cacheHit w st = false -> credentialsComplete (env w) = true ->
      targetOk w (AUTH_URL (env w)) = true ->
      authPosts (history (snd (getAuthToken w st)))
        = authPosts (history st) + 1)
  /\ (cacheHit w st = false -> credentialsComplete (env w) = false ->
      authPosts (history (snd (getAuthToken w st))) = authPosts (history st)
      /\ exists key,
           fst (getAuthToken w st)
             = Threw (AuthenticationFailed (MissingEnv key)))
  /\ (cacheHit w st = false -> credentialsComplete (env w) = true ->
      targetOk w (AUTH_URL (env w)) = false ->
      authPosts (history (snd (getAuthToken w st))) = authPosts (history st)
      /\ exists e,
           (e = InvalidURL \/ e = InvalidOption)
           /\ fst (getAuthToken w st) = Threw (AuthenticationFailed e))
  /\ (LOG_API_BASE_URL (env w) = None ->
      targetOk w (AUTH_URL (env w)) = false).
Proof.
  split; [apply cacheHit_iff|].
  rewrite <- cacheHit_iff.
  destruct (getAuthToken_cases w st) as (evs & Hh & _ & _ & Hcases).
  rewrite Hh, authPosts_app.
  split; [split|split; [|split; [|split]]].
  - intros [Hr Hn].
    destruct Hcases as [(Hhit & _) | [(_ & Hn' & (e & He) & _) | (_ & _ & _ & Hn' & _)]];
      [exact Hhit | congruence | lia].
  - intros Hhit.
    destruct Hcases as [(_ & Hn & Hr & _) | [(Hm & _) | (Hm & _)]];
      [split; [exact Hr | lia] | congruence | congruence].
  - intros Hm Hc Ht.
    destruct Hcases as [(Hhit & _) | [(_ & Hn & _) | (_ & _ & _ & Hn & _)]];
      [congruence | rewrite Hc, Ht in Hn; cbn in Hn; lia | lia].
  - intros Hm Hc. split.
    + destruct Hcases as [(Hhit & _) | [(_ & Hn & _) | (_ & Hc' & _)]];
        [congruence | rewrite Hc in Hn; cbn in Hn; lia | congruence].
    + destruct (getAuthToken_missing_credentials w st Hm Hc) as [key Hk].
      exists key. now rewrite Hk.
  - intros Hm Hc Ht. split.
    + destruct Hcases as [(Hhit & _) | [(_ & Hn & _) | (_ & _ & Ht' & _)]];
        [congruence | rewrite Hc, Ht in Hn; cbn in Hn; lia | congruence].
    + destruct (getAuthToken_bad_target w st Hm Hc Ht) as (e & He & Hk).
      exists e. now rewrite Hk.
  - intros Hb. apply (unset_base_is_no_url w Hb).
Qed.

(** A stale cache, complete credentials and a good address: exactly one
    request. *)
Lemma getAuthToken_cache_rule_witness :
  cacheHit worldOk staleCache = false
  /\ credentialsComplete (env worldOk) = true
  /\ targetOk worldOk (AUTH_URL (env worldOk)) = true
  /\ authPosts (history (snd (getAuthToken worldOk staleCache)))
       = authPosts (history staleCache) + 1.
Proof.
  split; [reflexivity|]. split; [reflexivity|]. split; [reflexivity|].
  apply (proj1 (proj2 (proj2 (getAuthToken_cache_rule worldOk staleCache))));
    reflexivity.
Defined.

(** The replies after which [getAuthToken] throws once the request is sent. *)
Lemma getAuthToken_bad_reply (w : World) (st : State) :
  cacheHit w st = false -> credentialsComplete (env w) = true ->
  authReplyOk
    (authReply w (history st ++ [Console AuthFetching;
                                 AuthPost (payload_of (env w))])) = false ->
  exists e, fst (getAuthToken w st) = Threw (AuthenticationFailed e).
Proof.
  unfold cacheHit, credentialsComplete, authReplyOk. intros Hhit Hc Hbad.
  unfold_auth. rewrite Hhit, (checkPayload_complete _ Hc).
  cbn [fst snd currentToken tokenExpiryTime history].
  destruct (JS.has_scheme (AUTH_URL (env w))
            && urlParses w (AUTH_URL (env w)));
    [destruct (optionsAccepted w (AUTH_URL (env w)))|];
    cbn [fst snd currentToken tokenExpiryTime history];
    try (eexists; reflexivity).
  rewrite <- app_assoc. cbn [app].
  destruct (authReply w _) as [m | | sc [r|]]; try (eexists; reflexivity).
  destruct (status_ok sc); cbn [andb] in Hbad; [|eexists; reflexivity].
  rewrite Hbad. eexists; reflexivity.
Qed.

(** C9. Whenever [getAuthToken] throws, the cached token and the cached
    expiry time are what they were before the call; and it does throw, the
    cache being stale, when a credential is missing, when the address of the
    endpoint is not good, or when the reply is a network error, a timeout, a
    status other than 200 and 201, a body that does not parse or a body
    without a token or an expiry. *)
Theorem failed_auth_keeps_cache (w : World) (st : State) :
  (forall e, fst (getAuthToken w st) = Threw e ->
     currentToken (snd (getAuthToken w st)) = currentToken st
     /\ tokenExpiryTime (snd (getAuthToken w st)) = tokenExpiryTime st)
  /\ (cacheHit w st = false ->
      credentialsComplete (env w) = false
      \/ authReplyOk
           (authReply w (history st ++ [Console AuthFetching;
                                        AuthPost (payload_of (env w))]))
         = false
      \/ targetOk w (AUTH_URL (env w)) = false ->
      exists e, fst (getAuthToken w st) = Threw e).
Proof.
  split.
  - intros e He.
    destruct (getAuthToken_cases w st) as (evs & _ & _ & _ & Hcases).
    destruct Hcases as [(_ & _ & Hr & Hc & Ht) | [(_ & _ & _ & Hc & Ht) | (_ & _ & _ & _ & Hr & _)]];
      [now split | now split | congruence].
  - intros Hm Hcause.
    destruct (credentialsComplete (env w)) eqn:Hc.
    + destruct Hcause as [Hf | [Hbad | Ht]]; [discriminate | |].
      * destruct (getAuthToken_bad_reply w st Hm Hc Hbad) as [e He].
        now exists (AuthenticationFailed e).
      * destruct (getAuthToken_bad_target w st Hm Hc Ht) as (e & _ & Hk).
        rewrite Hk. eexists; reflexivity.
    + destruct (getAuthToken_missing_credentials w st Hm Hc) as [key Hk].
      rewrite Hk. eexists; reflexivity.
Qed.

(** A stale token survives a refresh answered by status 500. *)
Lemma failed_auth_keeps_cache_witness :
  fst (getAuthToken worldAuthDown staleCache)
    = Threw (AuthenticationFailed (AuthStatus 500))
  /\ currentToken (snd (getAuthToken worldAuthDown staleCache)) = Some "old"
  /\ tokenExpiryTime (snd (getAuthToken worldAuthDown staleCache))
       = 1600000000%Z.
Proof.
  split; [reflexivity|].
  exact (proj1 (failed_auth_keeps_cache worldAuthDown staleCache)
           (AuthenticationFailed (AuthStatus 500)) eq_refl).
Defined.

(* ===================================================================== *)
(** ** One attempt *)
(* ===================================================================== *)

Lemma after_after (st : State) (a b : list Event) :
  after (after st a) b = after st (a ++ b).
Proof. unfold after. cbn [currentToken tokenExpiryTime history]. now rewrite app_assoc. Qed.

Ltac hist :=
  cbn [history after fst snd] in *;
  rewrite ?delays_app, ?logPosts_app, ?authPosts_app in *;
  cbn [delays logPosts authPosts app] in *;
  rewrite ?app_nil_r, ?Nat.add_0_r in *.

Lemma header_ok_bearer (t : string) :
  JS.header_ok ("Bearer " ++ t) = JS.header_ok t.
Proof. reflexivity. Qed.

(** With complete credentials, a good address and a well-behaved
    authentication endpoint the call returns a non-empty token. *)
Lemma getAuthToken_ok (w : World) (st : State) :
  authAlwaysOk w ->
  targetOk w (AUTH_URL (env w)) = true ->
  exists token,
    fst (getAuthToken w st) = Returned token /\ JS.truthy token = true.
Proof.
  intros [Hc Hr] Ht.
  destruct (getAuthToken_cases w st) as (evs & _ & _ & _ & Hcases).
  destruct Hcases as [(Hhit & _ & Hret & _) | [(Hm & _ & (e & He) & _) | (_ & _ & _ & _ & Hret & Htr)]].
  - exists (currentToken st). split; [exact Hret|].
    unfold cacheHit in Hhit. now apply andb_true_iff in Hhit.
  - exfalso.
    pose proof (Hr (history st ++ [Console AuthFetching;
                                   AuthPost (payload_of (env w))])%list) as Hok.
    revert He. rewrite targetOk_split in Ht.
    apply andb_true_iff in Ht as [Hu Ho].
    unfold cacheHit, credentialsComplete, authReplyOk in *.
    unfold_auth. rewrite Hm, (checkPayload_complete _ Hc), Hu, Ho.
    cbn [fst snd currentToken tokenExpiryTime history].
    rewrite <- app_assoc. cbn [app].
    destruct (authReply w _) as [m | | sc [r|]]; try discriminate.
    apply andb_true_iff in Hok as [Hs Hf]. rewrite Hs, Hf. discriminate.
  - eexists; split; [exact Hret | exact Htr].
Qed.

(** The token that a call returns is the cached one or the one of a reply
    of the authentication endpoint, and it is the token left in the cache. *)
Lemma getAuthToken_source (w : World) (st : State) (token : option string) :
  fst (getAuthToken w st) = Returned token ->
  currentToken (snd (getAuthToken w st)) = token
  /\ (token = currentToken st
      \/ exists h statusCode r,
           authReply w h = Responded statusCode (Some r)
           /\ access_token r = token).
Proof.
  unfold_auth.
  destruct (JS.truthy (currentToken st)
            && (tokenExpiryTime st >? dateNow w (history st) / 1000 + 60)%Z).
  - cbn [fst snd currentToken]. intros H. injection H as <-. auto.
  - destruct (checkPayload (payload_of (env w))) as [e|[]];
      cbn [fst snd currentToken tokenExpiryTime history]; [discriminate|].
    destruct (JS.has_scheme (AUTH_URL (env w))
              && urlParses w (AUTH_URL (env w)));
      [destruct (optionsAccepted w (AUTH_URL (env w)))|];
      cbn [fst snd currentToken tokenExpiryTime history]; try discriminate.
    destruct (authReply w _) as [m | | sc [r|]] eqn:Hr; try discriminate.
    destruct (status_ok sc); [|discriminate].
    destruct (JS.truthy (access_token r) && truthy_num (expires_in r));
      cbn [fst snd currentToken tokenExpiryTime history]; [|discriminate].
    intros H. injection H as <-. split; [reflexivity|].
    right. eauto.
Qed.

Lemma tokensPrintable_after (w : World) (st : State) (evs : list Event) :
  tokensPrintable w st -> tokensPrintable w (after st evs).
Proof. intros H. exact H. Qed.

(** A call of [getAuthToken] keeps the tokens printable, and a token that
    it returns is printable. *)
Lemma tokensPrintable_getAuthToken (w : World) (st : State) :
  tokensPrintable w st ->
  tokensPrintable w (snd (getAuthToken w st))
  /\ forall token,
       fst (getAuthToken w st) = Returned token ->
       JS.header_ok (to_str token) = true.
Proof.
  intros [Hcur Hall].
  destruct (getAuthToken_cases w st) as (evs & _ & _ & _ & Hcases).
  assert (Hnew : JS.header_ok (to_str (currentToken (snd (getAuthToken w st))))
                 = true).
  { destruct Hcases as [(_ & _ & _ & Hc & _) | [(_ & _ & _ & Hc & _) | (_ & _ & _ & _ & Hret & _)]].
    - now rewrite Hc.
    - now rewrite Hc.
    - destruct (getAuthToken_source w st _ Hret) as [_ [He | (h & sc & r & Hr & Ha)]].
      + now rewrite He.
      + rewrite <- Ha. exact (Hall h sc r Hr). }
  split; [split; [exact Hnew | exact Hall]|].
  intros token Hret.
  destruct (getAuthToken_source w st token Hret) as [Hc _].
  now rewrite <- Hc.
Qed.

(** [#makeLogApiCall] either cannot make its request, and then throws
    without sending anything, or sends one request and resolves exactly
    with the value of an accepted reply. *)
Lemma makeLogApiCall_cases (w : World) (self : Logger) (d : LogData)
    (token : option string) (st : State) :
  (sendable w self token = false ->
   exists e,
     isSetupError e = true
     /\ makeLogApiCall w self d token st = (Threw e, st))
  /\ (sendable w self token = true ->
      snd (makeLogApiCall w self d token st)
        = after st [LogPost d ("Bearer " ++ to_str token) (timeout self)]
      /\ match logReplyValue
                 (logReply w (history st ++
                    [LogPost d ("Bearer " ++ to_str token) (timeout self)]))
         with
         | Some v => fst (makeLogApiCall w self d token st) = Returned v
         | None =>
             exists e,
               isTransportError e = true
               /\ fst (makeLogApiCall w self d token st) = Threw e
         end).
Proof.
  unfold sendable. rewrite targetOk_split.
  unfold makeLogApiCall, new_URL, logReplyValue, bind, ret, throw, get, emit.
  destruct (JS.has_scheme (LOG_API_URL (env w))
            && urlParses w (LOG_API_URL (env w))); cbn [andb].
  2: { split; [|discriminate]. intros _. exists InvalidURL. now split. }
  destruct (optionsAccepted w (LOG_API_URL (env w))
            && (0 <=? timeout self)%Z
            && JS.header_ok ("Bearer " ++ to_str token)).
  2: { split; [|discriminate]. intros _. exists InvalidOption. now split. }
  split; [discriminate|]. intros _.
  cbn [history after].
  destruct (logReply w _) as [m | | sc [v|]]; cbn [fst snd];
    try (split; [reflexivity | eexists; split; [|reflexivity]; reflexivity]).
  destruct (status_ok sc); cbn [fst snd];
    (split; [reflexivity
            | first [reflexivity
                    | eexists; split; [|reflexivity]; reflexivity]]).
Qed.

(** The only normal return of [validateLogParams] is [true]. *)
Lemma validateLogParams_true (stack level packageName message : string) (b : bool) :
  validateLogParams stack level packageName message = inr b -> b = true.
Proof.
  unfold validateLogParams.
  repeat match goal with
         | |- context [if ?c then _ else _] => destruct c
         end; cbn; congruence.
Qed.

(** The [try] block after a successful validation. *)
Lemma attemptOnce_valid (w : World) (self : Logger)
    (stack level packageName message : string) (st : State) :
  validateLogParams stack level packageName message = inr true ->
  attemptOnce w self stack level packageName message st =
    match getAuthToken w st with
    | (Returned token, st1) =>
        if JS.truthy token
        then makeLogApiCall w self
               (payloadOf stack level packageName message) token st1
        else (Threw NoToken, st1)
    | (Threw e, st1) => (Threw e, st1)
    | (OutOfFuel, st1) => (OutOfFuel, st1)
    end.
Proof.
  intros Hv. unfold attemptOnce, payloadOf. rewrite Hv.
  unfold lift, bind, ret, throw.
  destruct (getAuthToken w st) as [[token| e |] st1]; try reflexivity.
  destruct (JS.truthy token); cbn [negb]; [|reflexivity].
  destruct (makeLogApiCall w self _ token st1) as [[v| e |] st2]; reflexivity.
Qed.

Lemma attemptOnce_invalid (w : World) (self : Logger)
    (stack level packageName message : string) (st : State) (e : Error) :
  validateLogParams stack level packageName message = inl e ->
  attemptOnce w self stack level packageName message st = (Threw e, st).
Proof.
  intros Hv. unfold attemptOnce. rewrite Hv. reflexivity.
Qed.

(** One attempt, whatever the world: it either throws without sending
    anything to the logging endpoint, or the event is valid and the attempt
    ends with the single request that carries [payloadOf] the event, whose
    reply decides the outcome.  No delay occurs inside an attempt. *)
Lemma attemptOnce_cases (w : World) (self : Logger)
    (stack level packageName message : string) (st : State) :
  exists evs,
    history (snd (attemptOnce w self stack level packageName message st))
      = (history st ++ evs)%list
    /\ delays evs = []
    /\ ((logPosts evs = []
         /\ exists e,
              fst (attemptOnce w self stack level packageName message st)
                = Threw e)
        \/ (validateLogParams stack level packageName message = inr true
            /\ logPosts evs = [payloadOf stack level packageName message]
            /\ match logReplyValue (logReply w (history st ++ evs)) with
               | Some v =>
                   fst (attemptOnce w self stack level packageName message st)
                     = Returned v
               | None =>
                   exists e,
                     fst (attemptOnce w self stack level packageName message st)
                       = Threw e
               end)).
Proof.
  destruct (validateLogParams stack level packageName message) as [e|b] eqn:Hv;
    [|pose proof (validateLogParams_true _ _ _ _ _ Hv); subst b].
  - rewrite (attemptOnce_invalid _ _ _ _ _ _ _ _ Hv).
    exists []. rewrite app_nil_r. repeat split. left. split; [reflexivity|].
    exists e. reflexivity.
  - rewrite (attemptOnce_valid _ _ _ _ _ _ _ Hv).
    destruct (getAuthToken_cases w st) as (evs & Hh & Hd & Hp & Hc).
    destruct (getAuthToken w st) as [[token| e |] st1] eqn:Hg; cbn [fst snd] in *.
    + destruct (JS.truthy token) eqn:Ht.
      * set (d := payloadOf stack level packageName message).
        destruct (makeLogApiCall_cases w self d token st1) as [Hno Hyes].
        destruct (sendable w self token).
        -- destruct (Hyes eq_refl) as [Hs Hr].
           rewrite Hs. cbn [history after]. rewrite Hh in *.
           rewrite <- app_assoc in *.
           eexists; split; [reflexivity|]. hist. rewrite Hd, Hp.
           split; [reflexivity|]. right. repeat split.
           destruct (logReplyValue _); [exact Hr|].
           destruct Hr as (e & _ & He). now exists e.
        -- destruct (Hno eq_refl) as (e & _ & He). rewrite He.
           exists evs. cbn [fst snd]. repeat split; try assumption.
           left. split; [assumption | eexists; reflexivity].
      * exists evs. cbn [fst snd]. repeat split; try assumption.
        left. split; [assumption | eexists; reflexivity].
    + exists evs. repeat split; try assumption.
      left. split; [assumption | eexists; reflexivity].
    + exfalso.
      destruct Hc as [(_ & _ & Hc & _) | [(_ & _ & (e & Hc) & _) | (_ & _ & _ & _ & Hc & _)]];
        discriminate.
Qed.

(** An attempt leaves in the cache what [getAuthToken] left there. *)
Lemma attemptOnce_cache (w : World) (self : Logger)
    (stack level packageName message : string) (st : State) :
  (currentToken (snd (attemptOnce w self stack level packageName message st))
     = currentToken st
   /\ tokenExpiryTime
        (snd (attemptOnce w self stack level packageName message st))
      = tokenExpiryTime st)
  \/ (validateLogParams stack level packageName message = inr true
      /\ currentToken
           (snd (attemptOnce w self stack level packageName message st))
         = currentToken (snd (getAuthToken w st))
      /\ tokenExpiryTime
           (snd (attemptOnce w self stack level packageName message st))
         = tokenExpiryTime (snd (getAuthToken w st))).
Proof.
  destruct (validateLogParams stack level packageName message) as [e|b] eqn:Hv;
    [|pose proof (validateLogParams_true _ _ _ _ _ Hv); subst b].
  - rewrite (attemptOnce_invalid _ _ _ _ _ _ _ _ Hv). now left.
  - right. split; [reflexivity|].
    rewrite (attemptOnce_valid _ _ _ _ _ _ _ Hv).
    destruct (getAuthToken w st) as [[token| e |] st1]; cbn [fst snd];
      try (now split).
    destruct (JS.truthy token); [|now split].
    destruct (makeLogApiCall_cases w self
                (payloadOf stack level packageName message) token st1)
      as [Hno Hyes].
    destruct (sendable w self token).
    + destruct (Hyes eq_refl) as [Hs _]. rewrite Hs. now split.
    + destruct (Hno eq_refl) as (e & _ & He). rewrite He. now split.
Qed.

Lemma tokensPrintable_attempt (w : World) (self : Logger)
    (stack level packageName message : string) (st : State) :
  tokensPrintable w st ->
  tokensPrintable w
    (snd (attemptOnce w self stack level packageName message st)).
Proof.
  intros Hp.
  destruct (tokensPrintable_getAuthToken w st Hp) as [[Hg _] _].
  destruct Hp as [Hcur Hall]. split; [|exact Hall].
  destruct (attemptOnce_cache w self stack level packageName message st)
    as [[Hc _] | (_ & Hc & _)]; now rewrite Hc.
Qed.

(* ===================================================================== *)
(** ** The retry recursion *)
(* ===================================================================== *)

(** One unfolding of [#logWithRetry]: the [catch] block on the outcome of
    the attempt. *)
Lemma logWithRetry_unfold (w : World) (fuel : nat) (self : Logger)
    (stack level packageName message : string) (attempt : Z) (st : State) :
  logWithRetry w fuel self stack level packageName message attempt st =
    match attemptOnce w self stack level packageName message st with
    | (Threw e, st1) =>
        if (attempt <? retries self)%Z then
          let st2 := after st1 [Console (LoggerRetrying attempt e);
                                Sleep (1000 * attempt)] in
          match fuel with
          | O => (OutOfFuel, st2)
          | S fuel' =>
              logWithRetry w fuel' self stack level packageName message
                (attempt + 1) st2
          end
        else (Threw e, after st1 [Console (LoggerFailedAfter (retries self) e)])
    | r => r
    end.
Proof.
  destruct fuel; cbn [logWithRetry]; unfold try_catch;
    destruct (attemptOnce w self stack level packageName message st)
      as [[v| e |] st1]; try reflexivity;
    destruct (attempt <? retries self)%Z; unfold bind, emit, throw;
    cbn zeta; rewrite ?after_after; reflexivity.
Qed.

Lemma backoff_S (attempt : Z) (n : nat) :
  backoff attempt (S n) = ((1000 * attempt)%Z :: backoff (attempt + 1) n)%list.
Proof.
  unfold backoff. cbn [seq map]. rewrite Z.add_0_r. f_equal.
  rewrite <- seq_shift, map_map. apply map_ext. intros i. f_equal. lia.
Qed.

Section FailingRun.

Variable w : World.
Variable self : Logger.
Variables stack level packageName message : string.

(** A property of states that the history does not affect, and a way of
    counting requests in a history.  Every attempt started in such a state
    throws and ends in such a state, after [c] requests and without any
    delay. *)
Variable Inv : State -> Prop.
Hypothesis Inv_after : forall st evs, Inv st -> Inv (after st evs).
Variable count : list Event -> nat.
Hypothesis count_app : forall h1 h2, count (h1 ++ h2) = count h1 + count h2.
Hypothesis count_console : forall d, count [Console d] = 0.
Hypothesis count_sleep : forall ms, count [Sleep ms] = 0.
Variable c : nat.
Hypothesis attempt_fails : forall st, Inv st ->
  (exists e, fst (attemptOnce w self stack level packageName message st) = Threw e)
  /\ Inv (snd (attemptOnce w self stack level packageName message st))
  /\ delays (history (snd (attemptOnce w self stack level packageName message st)))
       = delays (history st)
  /\ count (history (snd (attemptOnce w self stack level packageName message st)))
       = count (history st) + c.

(** Then the recursion exhausts the attempts up to the ceiling, waiting
    according to the linear schedule between them, and throws. *)
Lemma failing_run (fuel : nat) : forall (attempt : Z) (st : State),
  Inv st ->
  Z.to_nat (retries self - attempt) <= fuel ->
  (exists e,
     fst (logWithRetry w fuel self stack level packageName message attempt st)
       = Threw e)
  /\ delays (history (snd (logWithRetry w fuel self stack level packageName
                                         message attempt st)))
       = (delays (history st)
            ++ backoff attempt (Z.to_nat (retries self - attempt)))%list
  /\ count (history (snd (logWithRetry w fuel self stack level packageName
                                        message attempt st)))
       = count (history st) + c * S (Z.to_nat (retries self - attempt)).
Proof.
  induction fuel as [|fuel IH]; intros attempt st HI Hfuel;
    rewrite logWithRetry_unfold;
    destruct (attempt_fails st HI) as ((e & He) & HI1 & Hd & Hp);
    destruct (attemptOnce w self stack level packageName message st)
      as [o st1]; cbn [fst snd] in *; subst o;
    destruct (Z.ltb_spec attempt (retries self)) as [Hlt|Hge];
    try lia.
  - replace (Z.to_nat (retries self - attempt)) with 0 by lia.
    cbn [fst snd history after]. rewrite delays_app, count_app, count_console.
    cbn [delays backoff seq map]. rewrite !app_nil_r, Hd, Hp.
    split; [now exists e|]. split; [reflexivity | lia].
  - cbn zeta.
    destruct (IH (attempt + 1)%Z
                (after st1 [Console (LoggerRetrying attempt e);
                            Sleep (1000 * attempt)])
                (Inv_after _ _ HI1) ltac:(lia))
      as (He' & Hd' & Hp').
    split; [exact He'|]. rewrite Hd', Hp'.
    cbn [history after]. rewrite delays_app.
    change [Console (LoggerRetrying attempt e); Sleep (1000 * attempt)]
      with ([Console (LoggerRetrying attempt e)] ++ [Sleep (1000 * attempt)])%list.
    rewrite !count_app, count_console, count_sleep.
    cbn [delays app]. rewrite Hd, Hp.
    replace (Z.to_nat (retries self - attempt))
      with (S (Z.to_nat (retries self - (attempt + 1)))) by lia.
    rewrite backoff_S, <- !app_assoc. split; [reflexivity | lia].
  - replace (Z.to_nat (retries self - attempt)) with 0 by lia.
    cbn [fst snd history after]. rewrite delays_app, count_app, count_console.
    cbn [delays backoff seq map]. rewrite !app_nil_r, Hd, Hp.
    split; [now exists e|]. split; [reflexivity | lia].
Qed.

End FailingRun.

Lemma ready_after (w : World) (self : Logger) (st : State)
    (evs : list Event) :
  ready w self st -> ready w self (after st evs).
Proof. intros H. exact H. Qed.

(** With a valid event, a token at hand and nothing in the way of the
    request, an attempt sends exactly one request, carrying the normalised
    event, and its reply decides. *)
Lemma attemptOnce_sends (w : World) (self : Logger)
    (stack level packageName message : string) (st : State) :
  validateLogParams stack level packageName message = inr true ->
  ready w self st ->
  ready w self (snd (attemptOnce w self stack level packageName message st))
  /\ exists evs,
       history (snd (attemptOnce w self stack level packageName message st))
         = (history st ++ evs)%list
       /\ delays evs = []
       /\ logPosts evs = [payloadOf stack level packageName message]
       /\ match logReplyValue (logReply w (history st ++ evs)) with
          | Some v =>
              fst (attemptOnce w self stack level packageName message st)
                = Returned v
          | None =>
              exists e,
                fst (attemptOnce w self stack level packageName message st)
                  = Threw e
          end.
Proof.
  intros Hv (Hauth & Hta & Htl & Hto & Hpr).
  split.
  { split; [exact Hauth|]. split; [exact Hta|]. split; [exact Htl|].
    split; [exact Hto|]. now apply tokensPrintable_attempt. }
  rewrite (attemptOnce_valid _ _ _ _ _ _ _ Hv).
  destruct (getAuthToken_ok w st Hauth Hta) as (token & Hret & Ht).
  destruct (tokensPrintable_getAuthToken w st Hpr) as [_ Hhdr].
  specialize (Hhdr token Hret).
  destruct (getAuthToken_cases w st) as (evs & Hh & Hd & Hp & _).
  destruct (getAuthToken w st) as [o st1]; cbn [fst snd] in *; subst o.
  rewrite Ht.
  set (d := payloadOf stack level packageName message).
  destruct (makeLogApiCall_cases w self d token st1) as [_ Hyes].
  destruct Hyes as [Hs Hr].
  { unfold sendable. rewrite Htl, header_ok_bearer, Hhdr.
    apply Z.leb_le in Hto. now rewrite Hto. }
  rewrite Hs. cbn [history after]. rewrite Hh in *.
  rewrite <- app_assoc in *.
  eexists; split; [reflexivity|]. hist. rewrite Hd, Hp.
  repeat split. destruct (logReplyValue _); [exact Hr|].
  destruct Hr as (e & _ & He). now exists e.
Qed.

(** The recursion never runs out of the fuel that [Log] gives it, and all
    it ever sends to the logging endpoint is the normalised event, which
    therefore passed the validation. *)
Lemma logWithRetry_total (w : World) (self : Logger)
    (stack level packageName message : string) (fuel : nat) :
  forall (attempt : Z) (st : State),
  Z.to_nat (retries self - attempt) <= fuel ->
  fst (logWithRetry w fuel self stack level packageName message attempt st)
    <> OutOfFuel
  /\ exists n,
       logPosts (history (snd (logWithRetry w fuel self stack level
                                 packageName message attempt st)))
         = (logPosts (history st)
              ++ repeat (payloadOf stack level packageName message) n)%list
       /\ (n <> 0 ->
           validateLogParams stack level packageName message = inr true).
Proof.
  induction fuel as [|fuel IH]; intros attempt st Hfuel;
    rewrite logWithRetry_unfold;
    destruct (attemptOnce_cases w self stack level packageName message st)
      as (evs & Hh & _ & Hc);
    destruct (attemptOnce w self stack level packageName message st)
      as [o st1]; cbn [fst snd] in *.
  all: assert (Hposts : exists n,
         logPosts (history st1)
           = (logPosts (history st)
                ++ repeat (payloadOf stack level packageName message) n)%list
         /\ (n <> 0 ->
             validateLogParams stack level packageName message = inr true)
         /\ o <> OutOfFuel).
  1,3: rewrite Hh, logPosts_app;
       destruct Hc as [(Hp & e & He) | (Hv & Hp & Hr)]; rewrite Hp;
       [ exists 0; repeat split; [tauto | congruence]
       | exists 1; repeat split; [auto|];
         destruct (logReplyValue _); [|destruct Hr as [e Hr]]; congruence ].
  all: destruct Hposts as (n & Hp & Hv & Ho).
  all: destruct o as [v| e |]; [ | | congruence].
  all: try (split; [discriminate | exists n; now split]).
  all: destruct (Z.ltb_spec attempt (retries self)) as [Hlt|Hge]; try lia.
  all: try (cbn [fst snd]; split; [discriminate|]; exists n; hist; now split).
  cbn zeta.
  destruct (IH (attempt + 1)%Z
              (after st1 [Console (LoggerRetrying attempt e);
                          Sleep (1000 * attempt)]) ltac:(lia))
    as (Hne & n' & Hp' & Hv').
  split; [exact Hne|]. exists (n + n'). rewrite Hp'. hist. rewrite Hp.
  rewrite <- app_assoc, repeat_app. split; [reflexivity|].
  intros Hn. destruct n; [apply Hv'; lia | apply Hv; lia].
Qed.

(** [get_logID] throws exactly on the replies that are not [readable]. *)
Lemma get_logID_cases (response : json) (st : State) :
  if readable response
  then exists logID, get_logID response st = (Returned logID, st)
  else get_logID response st = (Threw TypeError, st).
Proof.
  unfold readable, get_logID.
  destruct response as [| | | | |fields]; try (eexists; reflexivity);
    try reflexivity.
  destruct (lookup "logID" fields) as [logID|]; [|eexists; reflexivity].
  destruct (has_string_form logID); [eexists; reflexivity | reflexivity].
Qed.

(** [Log] turns whatever the recursion does into a returned value, adding
    one console line. *)
Lemma Log_cases (w : World) (self : Logger)
    (stack level packageName message : string) (st : State) :
  fst (logWithRetry w (enough_fuel self) self stack level packageName
         message 1 st) <> OutOfFuel ->
  exists d,
    Log w self stack level packageName message st
    = (Returned
         match fst (logWithRetry w (enough_fuel self) self stack level
                      packageName message 1 st) with
         | Returned v => delivered v
         | _ => JNull
         end,
       after (snd (logWithRetry w (enough_fuel self) self stack level
                     packageName message 1 st)) [Console d]).
Proof.
  unfold Log, try_catch, bind at 1.
  destruct (logWithRetry w (enough_fuel self) self stack level packageName
              message 1 st) as [[v| e |] st1]; cbn [fst snd]; intros Hne.
  - pose proof (get_logID_cases v st1) as Hg. unfold delivered, bind.
    destruct (readable v).
    + destruct Hg as [logID Hg]. rewrite Hg. unfold ret, emit.
      eexists; reflexivity.
    + rewrite Hg. unfold bind, ret, emit. eexists; reflexivity.
  - unfold bind, ret, emit. eexists; reflexivity.
  - congruence.
Qed.

(** A failed attempt below the ceiling: the next attempt starts after a
    delay of 1000 ms times the number of the failed attempt. *)
Lemma retry_step (w : World) (self : Logger)
    (stack level packageName message : string)
    (fuel : nat) (attempt : Z) (st : State) :
  validateLogParams stack level packageName message = inr true ->
  ready w self st ->
  (attempt < retries self)%Z ->
  (forall h,
     logPosts h = (logPosts (history st)
                     ++ [payloadOf stack level packageName message])%list ->
     logReplyValue (logReply w h) = None) ->
  exists st',
    logWithRetry w (S fuel) self stack level packageName message attempt st
      = logWithRetry w fuel self stack level packageName message
          (attempt + 1) st'
    /\ ready w self st'
    /\ delays (history st') = (delays (history st) ++ [1000 * attempt]%Z)%list
    /\ logPosts (history st')
         = (logPosts (history st)
              ++ [payloadOf stack level packageName message])%list.
Proof.
  intros Hv Hready Hlt Hfail. rewrite logWithRetry_unfold.
  destruct (attemptOnce_sends w self stack level packageName message st
              Hv Hready) as (Hready' & evs & Hh & Hd & Hp & Hr).
  rewrite Hfail in Hr by (now rewrite logPosts_app, Hp).
  destruct Hr as [e He].
  destruct (attemptOnce w self stack level packageName message st)
    as [o st1]; cbn [fst snd] in *; subst o.
  apply Z.ltb_lt in Hlt. rewrite Hlt. cbn zeta.
  eexists. split; [reflexivity|]. split; [now apply ready_after|].
  hist. rewrite Hh. hist.
  rewrite Hd, Hp, app_nil_r. now split.
Qed.

(** An attempt whose reply is accepted ends the recursion at once. *)
Lemma success_step (w : World) (self : Logger)
    (stack level packageName message : string)
    (fuel : nat) (attempt : Z) (st : State) (v : json) :
  validateLogParams stack level packageName message = inr true ->
  ready w self st ->
  (forall h,
     logPosts h = (logPosts (history st)
                     ++ [payloadOf stack level packageName message])%list ->
     logReplyValue (logReply w h) = Some v) ->
  exists st',
    logWithRetry w fuel self stack level packageName message attempt st
      = (Returned v, st')
    /\ delays (history st') = delays (history st)
    /\ logPosts (history st')
         = (logPosts (history st)
              ++ [payloadOf stack level packageName message])%list.
Proof.
  intros Hv Hready Hok. rewrite logWithRetry_unfold.
  destruct (attemptOnce_sends w self stack level packageName message st
              Hv Hready) as (_ & evs & Hh & Hd & Hp & Hr).
  rewrite Hok in Hr by (now rewrite logPosts_app, Hp).
  destruct (attemptOnce w self stack level packageName message st)
    as [o st1]; cbn [fst snd] in *; subst o.
  eexists. split; [reflexivity|]. rewrite Hh. hist.
  rewrite Hd, Hp, app_nil_r. now split.
Qed.



(* ===================================================================== *)
(** ** Runs of the scenarios *)
(* ===================================================================== *)

(** The scenario of the design document, from a fresh process. *)
Example scenario_first_call :
  Log worldOk defaultLogger "backend" "error" "service" "DB connect failed"
    initial
  = (Returned (JObj [("logID", JStr "abc123")]),
     {| currentToken := Some "tok1";
        tokenExpiryTime := 1700003600;
        history :=
          [ Console AuthFetching;
            AuthPost (payload_of someEnv);
            Console AuthObtained;
            LogPost (payloadOf "backend" "error" "service" "DB connect failed")
              "Bearer tok1" 5000;
            Console (LoggerSent (Some (JStr "abc123"))) ] |}).
Proof. reflexivity. Qed.

(** With a token good for another hour nothing is asked of the
    authentication endpoint. *)
Example scenario_cached_token :
  getAuthToken worldOk freshCache
  = (Returned (Some "tok0"), after freshCache [Console AuthUsingCached]).
Proof. reflexivity. Qed.

(** The level-specific methods are [Log] at that level. *)
Example scenario_convenience :
  error worldOk defaultLogger "backend" "service" "DB connect failed" initial
  = Log worldOk defaultLogger "backend" "error" "service" "DB connect failed"
      initial
  /\ fst (fatal worldOk defaultLogger "frontend" "repository" "late" initial)
     = Returned JNull.
Proof. split; reflexivity. Qed.

(* ===================================================================== *)
(** ** Properties of the log shipper *)
(* ===================================================================== *)

(** C1. The code departs from the statement: a validation error is thrown
    inside the [try] block of [#logWithRetry], so its [catch] block retries
    it like any other error.  With a ceiling of 3 an invalid event is
    validated three times, with delays of 1000 ms and 2000 ms in between,
    before [Log] gives up and returns [null]. *)
Theorem validation_failure_is_retried (w : World) (self : Logger)
    (stack level packageName message : string) (st : State) (e : Error) :
  retries self = 3%Z ->
  validateLogParams stack level packageName message = inl e ->
  Log w self stack level packageName message st
    = (Returned JNull,
       after st [Console (LoggerRetrying 1 e); Sleep 1000;
                 Console (LoggerRetrying 2 e); Sleep 2000;
                 Console (LoggerFailedAfter 3 e);
                 Console (LoggerFinalFailed e)])
  /\ delays (history (snd (Log w self stack level packageName message st)))
       = (delays (history st) ++ [1000; 2000]%Z)%list.
Proof.
  intros Hr Hv.
  assert (HL : Log w self stack level packageName message st
    = (Returned JNull,
       after st [Console (LoggerRetrying 1 e); Sleep 1000;
                 Console (LoggerRetrying 2 e); Sleep 2000;
                 Console (LoggerFailedAfter 3 e);
                 Console (LoggerFinalFailed e)])).
  { unfold Log, enough_fuel, try_catch, bind at 1. rewrite Hr.
    change (Z.to_nat (3 - 1)) with 2.
    rewrite logWithRetry_unfold, (attemptOnce_invalid _ _ _ _ _ _ _ _ Hv), Hr.
    cbn [Z.ltb Z.compare Pos.compare Pos.compare_cont]. cbn zeta.
    rewrite logWithRetry_unfold, (attemptOnce_invalid _ _ _ _ _ _ _ _ Hv), Hr.
    cbn [Z.ltb Z.compare Pos.compare Pos.compare_cont Z.add Pos.add]. cbn zeta.
    rewrite logWithRetry_unfold, (attemptOnce_invalid _ _ _ _ _ _ _ _ Hv), Hr.
    cbn [Z.ltb Z.compare Pos.compare Pos.compare_cont Z.add Pos.add Pos.succ].
    unfold bind, emit, ret. rewrite !after_after. reflexivity. }
  split; [exact HL|]. rewrite HL. hist. reflexivity.
Qed.

(** The call of the repository's own test 4, stack [server]. *)
Lemma validation_failure_is_retried_witness :
  retries defaultLogger = 3%Z
  /\ validateLogParams "server" "info" "config" "Attempting to log from an invalid stack."
       = inl (InvalidStack "server")
  /\ delays (history (snd (Log worldOk defaultLogger "server" "info" "config"
                             "Attempting to log from an invalid stack." initial)))
       = [1000; 2000]%Z.
Proof.
  split; [reflexivity|]. split; [reflexivity|].
  exact (proj2 (validation_failure_is_retried worldOk defaultLogger
                  "server" "info" "config"
                  "Attempting to log from an invalid stack." initial
                  (InvalidStack "server") eq_refl eq_refl)).
Defined.

(** C2, as stated, fails: the logging endpoint answers 200 with the empty
    object, which has no log identifier, and the single attempt counts as a
    success: [Log] returns the object after one request and no delay. *)
Lemma reply_without_logID_is_success :
  hasLogID (JObj []) = false
  /\ logReply worldNoLogID [] = Responded 200 (Some (JObj []))
  /\ fst (Log worldNoLogID defaultLogger "backend" "error" "service"
            "DB connect failed" initial) = Returned (JObj [])
  /\ List.length
       (logPosts (history (snd (Log worldNoLogID defaultLogger "backend"
                                  "error" "service" "DB connect failed"
                                  initial)))) = 1
  /\ delays (history (snd (Log worldNoLogID defaultLogger "backend" "error"
                             "service" "DB connect failed" initial))) = [].
Proof. repeat split. Qed.

(** A reply without a log identifier is readable unless it is [null]. *)
Lemma readable_without_logID (v : json) :
  hasLogID v = false -> v <> JNull -> readable v = true.
Proof.
  unfold hasLogID, readable. destruct v as [| | | | |fields]; try reflexivity.
  - congruence.
  - destruct (lookup "logID" fields); [discriminate | reflexivity].
Qed.

(** C2, amended.  A call of [#makeLogApiCall] counts as a success exactly
    when the request could be made (a good address, a timeout that is not
    negative, a token that fits in a header) and the reply has status 200 or
    201 and a body that parses as JSON; any other outcome is thrown.  The
    log identifier plays no part in it: an attempt that ended with a parsed
    value ends the recursion with that value, without delay and without
    further attempt.  [Log] returns that value, unless the template literal
    of its console line throws on it, as it does on [null] and on a log
    identifier without a string form: then [Log] returns [null], still
    without any retry.  A body without a log identifier is returned as it
    is. *)
Theorem attempt_success_rule (w : World) (self : Logger) (st : State) :
  (forall d token v,
     fst (makeLogApiCall w self d token st) = Returned v
     <-> sendable w self token = true
         /\ exists statusCode,
              logReply w (history st ++
                            [LogPost d ("Bearer " ++ to_str token)
                               (timeout self)])
                = Responded statusCode (Some v)
              /\ (statusCode = 200 \/ statusCode = 201)%Z)
  /\ (forall d token,
        (exists v, fst (makeLogApiCall w self d token st) = Returned v)
        \/ (exists e, fst (makeLogApiCall w self d token st) = Threw e))
  /\ (forall stack level packageName message fuel attempt v,
        fst (attemptOnce w self stack level packageName message st)
          = Returned v ->
        logWithRetry w fuel self stack level packageName message attempt st
          = attemptOnce w self stack level packageName message st)
  /\ (forall stack level packageName message v,
        fst (attemptOnce w self stack level packageName message st)
          = Returned v ->
        fst (Log w self stack level packageName message st)
          = Returned (if readable v then v else JNull)
        /\ delays (history (snd (Log w self stack level packageName message st)))
             = delays (history st)
        /\ (hasLogID v = false -> v <> JNull -> readable v = true)).
Proof.
  assert (Hstop : forall stack level packageName message fuel attempt v,
        fst (attemptOnce w self stack level packageName message st)
          = Returned v ->
        logWithRetry w fuel self stack level packageName message attempt st
          = attemptOnce w self stack level packageName message st).
  { intros stack level packageName message fuel attempt v Hr.
    rewrite logWithRetry_unfold.
    destruct (attemptOnce w self stack level packageName message st)
      as [o st1]; cbn [fst] in Hr; subst o. reflexivity. }
  split; [|split; [|split; [exact Hstop|]]]; cycle 2.
  { intros stack level packageName message v Hr.
    pose proof (Hstop stack level packageName message (enough_fuel self) 1%Z v Hr)
      as Hrun.
    destruct (Log_cases w self stack level packageName message st) as [c HL].
    { rewrite Hrun, Hr. discriminate. }
    rewrite HL, Hrun, Hr. hist. split; [reflexivity|].
    split; [|apply readable_without_logID].
    destruct (attemptOnce_cases w self stack level packageName message st)
      as (evs & Hh & Hd & _).
    rewrite Hh. hist. now rewrite Hd, app_nil_r. }
  - intros d token v.
    destruct (makeLogApiCall_cases w self d token st) as [Hno Hyes].
    destruct (sendable w self token).
    2: { destruct (Hno eq_refl) as (e & _ & He). rewrite He.
         split; [discriminate | intros [H _]; discriminate]. }
    destruct (Hyes eq_refl) as [_ Hr].
    unfold logReplyValue, status_ok in Hr.
    destruct (logReply w _) as [m | | sc [v'|]].
    + destruct Hr as (e & _ & He). rewrite He.
      split; [discriminate | intros (_ & sc' & H & _); discriminate].
    + destruct Hr as (e & _ & He). rewrite He.
      split; [discriminate | intros (_ & sc' & H & _); discriminate].
    + destruct (Z.eqb_spec sc 200) as [E1|N1];
        [|destruct (Z.eqb_spec sc 201) as [E2|N2]]; cbn [orb] in Hr.
      * rewrite Hr. split.
        -- intros H. injection H as <-. split; [reflexivity|]. exists sc. auto.
        -- intros (_ & sc' & H & _). injection H as _ <-. reflexivity.
      * rewrite Hr. split.
        -- intros H. injection H as <-. split; [reflexivity|]. exists sc. auto.
        -- intros (_ & sc' & H & _). injection H as _ <-. reflexivity.
      * destruct Hr as (e & _ & He). rewrite He.
        split; [discriminate|].
        intros (_ & sc' & H & Hs). injection H as <- _. lia.
    + destruct Hr as (e & _ & He). rewrite He.
      split; [discriminate | intros (_ & sc' & H & _); discriminate].
  - intros d token.
    destruct (makeLogApiCall_cases w self d token st) as [Hno Hyes].
    destruct (sendable w self token).
    + destruct (Hyes eq_refl) as [_ Hr].
      destruct (logReplyValue _); [left; eauto|].
      destruct Hr as (e & _ & He). right. eauto.
    + destruct (Hno eq_refl) as (e & _ & He). rewrite He. right.
      exists e. reflexivity.
Qed.

(** The reply 200 with the empty object ends the recursion at once. *)
Lemma attempt_success_rule_witness :
  fst (attemptOnce worldNoLogID defaultLogger "backend" "error" "service"
         "DB connect failed" initial) = Returned (JObj [])
  /\ logWithRetry worldNoLogID 2 defaultLogger "backend" "error" "service"
       "DB connect failed" 1 initial
     = attemptOnce worldNoLogID defaultLogger "backend" "error" "service"
         "DB connect failed" initial.
Proof.
  split; [reflexivity|].
  exact (proj1 (proj2 (proj2 (attempt_success_rule worldNoLogID defaultLogger
                               initial)))
           "backend" "error" "service" "DB connect failed" 2 1%Z (JObj [])
           eq_refl).
Defined.

(** With a negative timeout nothing is sent, whatever the endpoints would
    answer; and a log identifier without a string form turns an accepted
    request into the result [null]. *)
Example request_refused_or_unreadable :
  sendable worldOk hastyLogger (Some "tok1") = false
  /\ logPosts (history (snd (Log worldOk hastyLogger "backend" "error"
                               "service" "DB connect failed" initial))) = []
  /\ fst (Log worldOk hastyLogger "backend" "error" "service"
            "DB connect failed" initial) = Returned JNull
  /\ fst (attemptOnce worldOddLogID defaultLogger "backend" "error" "service"
            "DB connect failed" initial)
     = Returned (JObj [("logID", JObj [("toString", JNum 1)])])
  /\ fst (Log worldOddLogID defaultLogger "backend" "error" "service"
            "DB connect failed" initial) = Returned JNull
  /\ delays (history (snd (Log worldOddLogID defaultLogger "backend" "error"
                             "service" "DB connect failed" initial))) = [].
Proof. repeat split. Qed.




(** The scenarios in which every attempt can make its request. *)
Lemma ready_scenario (w : World) (self : Logger) (st : State) :
  credentialsComplete (env w) = true ->
  (forall h, authReply w h = Responded 200 (Some tok1)) ->
  targetOk w (AUTH_URL (env w)) = true ->
  targetOk w (LOG_API_URL (env w)) = true ->
  (0 <= timeout self)%Z ->
  JS.header_ok (to_str (currentToken st)) = true ->
  ready w self st.
Proof.
  intros Hc Hr Ha Hl Ht Hk.
  split; [split; [exact Hc | intros h; now rewrite Hr]|].
  split; [exact Ha|]. split; [exact Hl|]. split; [exact Ht|].
  split; [exact Hk|].
  intros h sc r H. rewrite Hr in H. injection H as _ <-. reflexivity.
Qed.




(** With both endpoints unreachable and nothing in the cache, the three
    requests all go to the authentication endpoint. *)
Example whole_transport_down :
  transportDown worldAllDown defaultLogger initial
  /\ fst (Log worldAllDown defaultLogger "backend" "error" "service"
            "DB connect failed" initial) = Returned JNull
  /\ authPosts (history (snd (Log worldAllDown defaultLogger "backend"
                                "error" "service" "DB connect failed"
                                initial))) = 3
  /\ logPosts (history (snd (Log worldAllDown defaultLogger "backend" "error"
                               "service" "DB connect failed" initial))) = [].
Proof.
  split; [|repeat split].
  repeat split; try reflexivity. cbn. lia.
Qed.

(** C4, as stated, fails: the message of the scenario of the design document
    is transmitted with its capital letters. *)
Lemma message_is_sent_as_written :
  validateLogParams "Backend" "ERROR" "Service" "DB connect failed" = inr true
  /\ logPosts (history (snd (Log worldOk defaultLogger "Backend" "ERROR"
                               "Service" "DB connect failed" initial)))
     = [ {| stack := "backend"; level := "error"; package_ := "service";
            message := "DB connect failed" |} ]
  /\ JS.toLowerCase "DB connect failed" <> "DB connect failed".
Proof. repeat split. discriminate. Qed.

(** C4, amended.  Every body that [Log] transmits to the logging endpoint
    is the event with its stack, level and package in lower case and its
    message as the caller wrote it; a body is transmitted only for an event
    that passed the validation, so that the three lower-cased fields are
    members of the allowed sets. *)
Theorem transmitted_body (w : World) (self : Logger)
    (stack level packageName message : string) (st : State) :
  exists n,
    logPosts (history (snd (Log w self stack level packageName message st)))
      = (logPosts (history st)
           ++ repeat {| stack := JS.toLowerCase stack;
                        level := JS.toLowerCase level;
                        package_ := JS.toLowerCase packageName;
                        message := message |} n)%list
    /\ (n <> 0 ->
        validateLogParams stack level packageName message = inr true
        /\ JS.includes ALLOWED_STACKS (JS.toLowerCase stack) = true
        /\ JS.includes ALLOWED_LEVELS (JS.toLowerCase level) = true
        /\ JS.includes (ALLOWED_BACKEND_PACKAGES ++ ALLOWED_COMMON_PACKAGES)
             (JS.toLowerCase packageName) = true)
    /\ JS.toLowerCase (JS.toLowerCase stack) = JS.toLowerCase stack
    /\ JS.toLowerCase (JS.toLowerCase level) = JS.toLowerCase level
    /\ JS.toLowerCase (JS.toLowerCase packageName) = JS.toLowerCase packageName.
Proof.
  destruct (logWithRetry_total w self stack level packageName message
              (enough_fuel self) 1 st (Nat.le_refl _)) as (Hne & n & Hp & Hv).
  destruct (Log_cases w self stack level packageName message st Hne)
    as [d HL].
  exists n. rewrite HL. hist. split; [exact Hp|].
  split; [|repeat split; apply toLowerCase_idempotent].
  intros Hn. specialize (Hv Hn). split; [exact Hv|].
  destruct (fieldsAccepted stack level packageName) eqn:Hf.
  - unfold fieldsAccepted in Hf. apply andb_true_iff in Hf as [Hl Hf].
    split; [|split; [exact Hl|]].
    + apply orb_true_iff in Hf as [Hf|Hf]; apply andb_true_iff in Hf as [Hs _];
        apply String.eqb_eq in Hs; rewrite Hs; reflexivity.
    + apply orb_true_iff in Hf as [Hf|Hf]; apply andb_true_iff in Hf as [_ Hc];
        [exact Hc | rewrite includes_app, Hc; apply orb_true_r].
  - destruct (validate_fields_rejected _ _ _ message Hf) as (e & He & _).
    congruence.
Qed.

(** The scenario of the design document with capital letters in every
    field. *)
Lemma transmitted_body_witness :
  exists n,
    logPosts (history (snd (Log worldOk defaultLogger "Backend" "ERROR"
                              "Service" "DB connect failed" initial)))
      = (logPosts (history initial)
           ++ repeat {| stack := "backend"; level := "error";
                        package_ := "service";
                        message := "DB connect failed" |} n)%list.
Proof.
  destruct (transmitted_body worldOk defaultLogger "Backend" "ERROR"
              "Service" "DB connect failed" initial) as (n & Hn & _).
  exists n. exact Hn.
Defined.

(** With the logging endpoint down every attempt throws, whatever else
    holds. *)
Lemma attempt_throws_when_log_down (w : World) (self : Logger)
    (stack level packageName message : string) :
  (forall h, logReplyValue (logReply w h) = None) ->
  forall st, True ->
    (exists e, fst (attemptOnce w self stack level packageName message st)
                 = Threw e)
    /\ True
    /\ delays (history (snd (attemptOnce w self stack level packageName
                               message st))) = delays (history st)
    /\ 0 = 0 + 0.
Proof.
  intros Hfail st _.
  destruct (attemptOnce_cases w self stack level packageName message st)
    as (evs & Hh & Hd & Hc).
  rewrite Hh, delays_app, Hd, app_nil_r.
  repeat split.
  destruct Hc as [(_ & He) | (_ & _ & Hr)]; [exact He|].
  now rewrite Hfail in Hr.
Qed.

(** C6. After a failed attempt [attempt] below the ceiling the recursion
    warns, waits exactly [1000 * attempt] ms and starts attempt
    [attempt + 1].  With a ceiling of 3 and a logging endpoint that fails the
    first two requests and accepts the third, [Log] has sent three requests
    after exactly two delays, of 1000 ms and of 2000 ms, and returns the
    accepted value, or [null] if the template literal of its console line
    throws on that value; this is so given that every attempt obtains a
    token and that nothing keeps the request from being made.  With any
    ceiling and a logging endpoint that always fails, the delays are 1000,
    2000, ... up to 1000 times the ceiling minus one. *)
Theorem linear_backoff (w : World) (self : Logger)
    (stack level packageName message : string) (st : State) :
  (forall fuel attempt e,
     fst (attemptOnce w self stack level packageName message st) = Threw e ->
     (attempt < retries self)%Z ->
     logWithRetry w (S fuel) self stack level packageName message attempt st
       = logWithRetry w fuel self stack level packageName message (attempt + 1)
           (after (snd (attemptOnce w self stack level packageName message st))
              [Console (LoggerRetrying attempt e); Sleep (1000 * attempt)]))
  /\ (forall v,
        retries self = 3%Z ->
        validateLogParams stack level packageName message = inr true ->
        ready w self st ->
        (forall h,
           List.length (logPosts h) = List.length (logPosts (history st)) + 1
           \/ List.length (logPosts h) = List.length (logPosts (history st)) + 2 ->
           logReplyValue (logReply w h) = None) ->
        (forall h,
           List.length (logPosts h) = List.length (logPosts (history st)) + 3 ->
           logReplyValue (logReply w h) = Some v) ->
        fst (Log w self stack level packageName message st)
          = Returned (if readable v then v else JNull)
        /\ delays (history (snd (Log w self stack level packageName message st)))
             = (delays (history st) ++ [1000; 2000]%Z)%list
        /\ logPosts (history (snd (Log w self stack level packageName message st)))
             = (logPosts (history st)
                  ++ repeat (payloadOf stack level packageName message) 3)%list)
  /\ (validateLogParams stack level packageName message = inr true ->
      authAlwaysOk w ->
      (forall h, logReplyValue (logReply w h) = None) ->
      delays (history (snd (Log w self stack level packageName message st)))
        = (delays (history st)
             ++ map (fun i => (1000 * (1 + Z.of_nat i))%Z)
                  (seq 0 (Z.to_nat (retries self - 1))))%list).
Proof.
  split; [|split]; cycle 2.
  { intros Hv Hauth Hfail.
    destruct (failing_run w self stack level packageName message
                (fun _ => True) (fun _ _ H => H)
                (fun _ => 0) (fun _ _ => eq_refl)
                (fun _ => eq_refl) (fun _ => eq_refl) 0
                (attempt_throws_when_log_down w self stack level packageName
                   message Hfail)
                (enough_fuel self) 1 st I (Nat.le_refl _))
      as ((e & He) & Hd & _).
    destruct (Log_cases w self stack level packageName message st) as [d HL].
    { rewrite He. discriminate. }
    rewrite HL. hist. exact Hd. }
  - intros fuel attempt e He Hlt. rewrite logWithRetry_unfold.
    destruct (attemptOnce w self stack level packageName message st)
      as [o st1]; cbn [fst snd] in *; subst o.
    apply Z.ltb_lt in Hlt. now rewrite Hlt.
  - intros v Hr Hv Hready Hfail Hok.
    set (d := payloadOf stack level packageName message) in *.
    destruct (retry_step w self stack level packageName message 1 1 st
                Hv Hready ltac:(lia)) as (st1 & E1 & R1 & D1 & P1).
    { intros h Hh. apply Hfail. left. rewrite Hh, length_app. reflexivity. }
    destruct (retry_step w self stack level packageName message 0 2 st1
                Hv R1 ltac:(lia)) as (st2 & E2 & R2 & D2 & P2).
    { intros h Hh. apply Hfail. right.
      rewrite Hh, P1, !length_app. cbn [List.length]. lia. }
    destruct (success_step w self stack level packageName message 0 3 st2 v
                Hv R2) as (st3 & E3 & D3 & P3).
    { intros h Hh. apply Hok.
      rewrite Hh, P2, P1, !length_app. cbn [List.length]. lia. }
    assert (Hrun : logWithRetry w (enough_fuel self) self stack level
                     packageName message 1 st = (Returned v, st3)).
    { unfold enough_fuel. rewrite Hr. change (Z.to_nat (3 - 1)) with 2.
      rewrite E1. change (1 + 1)%Z with 2%Z. rewrite E2.
      change (2 + 1)%Z with 3%Z. exact E3. }
    destruct (Log_cases w self stack level packageName message st) as [c HL].
    { rewrite Hrun. discriminate. }
    rewrite HL, Hrun. hist. rewrite D3, D2, D1, P3, P2, P1.
    rewrite <- !app_assoc. repeat split.
Qed.

(** The logging endpoint answers 503 twice and then 201. *)
Lemma linear_backoff_witness :
  retries defaultLogger = 3%Z
  /\ validateLogParams "backend" "error" "service" "DB connect failed"
       = inr true
  /\ ready worldThirdTime defaultLogger initial
  /\ fst (Log worldThirdTime defaultLogger "backend" "error" "service"
            "DB connect failed" initial)
     = Returned (JObj [("logID", JStr "abc123")])
  /\ delays (history (snd (Log worldThirdTime defaultLogger "backend" "error"
                             "service" "DB connect failed" initial)))
     = [1000; 2000]%Z.
Proof.
  assert (Ha : ready worldThirdTime defaultLogger initial).
  { apply ready_scenario; try reflexivity. cbn. lia. }
  split; [reflexivity|]. split; [reflexivity|]. split; [exact Ha|].
  destruct (proj1 (proj2 (linear_backoff worldThirdTime defaultLogger
                            "backend" "error" "service" "DB connect failed"
                            initial))
              (JObj [("logID", JStr "abc123")]) eq_refl eq_refl Ha)
    as (H1 & H2 & _).
  - intros h [H|H]; cbn [logReply worldThirdTime]; rewrite H; reflexivity.
  - intros h H; cbn [logReply worldThirdTime]; rewrite H; reflexivity.
  - split; [exact H1 | exact H2].
Defined.

(* ===================================================================== *)
(** ** Validation as a whole *)
(* ===================================================================== *)

Lemma fieldsAccepted_iff (stack level packageName : string) :
  fieldsAccepted stack level packageName = true
  <-> In (JS.toLowerCase level) ALLOWED_LEVELS
      /\ ((JS.toLowerCase stack = "backend"
           /\ In (JS.toLowerCase packageName)
                (ALLOWED_BACKEND_PACKAGES ++ ALLOWED_COMMON_PACKAGES))
          \/ (JS.toLowerCase stack = "frontend"
              /\ In (JS.toLowerCase packageName) ALLOWED_COMMON_PACKAGES)).
Proof.
  unfold fieldsAccepted.
  rewrite andb_true_iff, orb_true_iff, !andb_true_iff, !String.eqb_eq,
    !includes_In.
  tauto.
Qed.

(** X1. An event is accepted exactly when it fits the taxonomy (level among the
    five levels; stack [backend] with a backend-only or shared package, or
    stack [frontend] with a shared package; all compared in lower case) and
    its message is not blank and at most 48 characters long.  Hence two
    events that differ only in the case of stack, level and package are
    accepted or rejected together. *)
Theorem validation_accepts_iff (stack level packageName message : string) :
  (validateLogParams stack level packageName message = inr true
   <-> In (JS.toLowerCase level) ALLOWED_LEVELS
       /\ ((JS.toLowerCase stack = "backend"
            /\ In (JS.toLowerCase packageName)
                 (ALLOWED_BACKEND_PACKAGES ++ ALLOWED_COMMON_PACKAGES))
           \/ (JS.toLowerCase stack = "frontend"
               /\ In (JS.toLowerCase packageName) ALLOWED_COMMON_PACKAGES))
       /\ JS.blank message = false
       /\ String.length message <= 48)
  /\ (forall stack' level' packageName',
        JS.toLowerCase stack' = JS.toLowerCase stack ->
        JS.toLowerCase level' = JS.toLowerCase level ->
        JS.toLowerCase packageName' = JS.toLowerCase packageName ->
        (validateLogParams stack' level' packageName' message = inr true
         <-> validateLogParams stack level packageName message = inr true)).
Proof.
  assert (Hchar : forall s l p,
    validateLogParams s l p message = inr true
    <-> fieldsAccepted s l p = true
        /\ JS.blank message = false /\ String.length message <= 48).
  { intros s l p. destruct (fieldsAccepted s l p) eqn:Hf.
    - rewrite (validate_accepted_fields _ _ _ message Hf).
      destruct (Nat.eqb_spec (String.length (JS.trim message)) 0) as [E|E].
      + apply trim_length_zero in E. rewrite E.
        split; [discriminate | intros (_ & H & _); discriminate].
      + assert (Hb : JS.blank message = false).
        { destruct (JS.blank message) eqn:Hb; [|reflexivity].
          apply trim_length_zero in Hb. contradiction. }
        rewrite Hb.
        destruct (Nat.ltb_spec 48 (String.length message)).
        * split; [discriminate | intros (_ & _ & H'); lia].
        * split; [intros _; repeat split; lia | reflexivity].
    - destruct (validate_fields_rejected _ _ _ message Hf) as (e & He & _).
      rewrite He. split; [discriminate | intros (H & _); discriminate]. }
  split.
  - rewrite Hchar, fieldsAccepted_iff. tauto.
  - intros s' l' p' Hs Hl Hp. rewrite !Hchar.
    assert (Hf : fieldsAccepted s' l' p' = fieldsAccepted stack level packageName).
    { unfold fieldsAccepted. now rewrite Hs, Hl, Hp. }
    rewrite Hf. tauto.
Qed.

(** [BackEnd]/[WARN]/[Cache] is accepted as [backend]/[warn]/[cache] is. *)
Lemma validation_accepts_iff_witness :
  JS.toLowerCase "BackEnd" = JS.toLowerCase "backend"
  /\ validateLogParams "BackEnd" "WARN" "Cache" "slow" = inr true.
Proof.
  split; [reflexivity|].
  apply (proj2 (validation_accepts_iff "backend" "warn" "cache" "slow")
           "BackEnd" "WARN" "Cache" eq_refl eq_refl eq_refl).
  reflexivity.
Defined.

(** X2. The stack is judged first and the level second, whatever the other
    arguments are, and the error carries the argument as the caller wrote
    it: an unknown stack gives [InvalidStack], and with a known stack an
    unknown level gives [InvalidLevel]; neither error arises otherwise. *)
Theorem validation_stack_then_level (stack level packageName message : string) :
  (forall x,
     validateLogParams stack level packageName message = inl (InvalidStack x)
     <-> x = stack /\ ~ In (JS.toLowerCase stack) ALLOWED_STACKS)
  /\ (forall x,
        validateLogParams stack level packageName message = inl (InvalidLevel x)
        <-> x = level
            /\ In (JS.toLowerCase stack) ALLOWED_STACKS
            /\ ~ In (JS.toLowerCase level) ALLOWED_LEVELS).
Proof.
  pose proof (includes_In ALLOWED_STACKS (JS.toLowerCase stack)) as HS.
  pose proof (includes_In ALLOWED_LEVELS (JS.toLowerCase level)) as HL.
  unfold validateLogParams.
  destruct (JS.includes ALLOWED_STACKS (JS.toLowerCase stack)) eqn:Hs;
    cbn [negb].
  2: { assert (~ In (JS.toLowerCase stack) ALLOWED_STACKS)
         by (intros H; apply HS in H; discriminate).
       split; intros x; split.
       - intros H'. injection H' as <-. now split.
       - intros [-> _]. reflexivity.
       - discriminate.
       - intros (_ & H' & _). contradiction. }
  assert (HinS : In (JS.toLowerCase stack) ALLOWED_STACKS) by now apply HS.
  destruct (JS.includes ALLOWED_LEVELS (JS.toLowerCase level)) eqn:Hl;
    cbn [negb].
  2: { assert (~ In (JS.toLowerCase level) ALLOWED_LEVELS)
         by (intros H; apply HL in H; discriminate).
       split; intros x; split.
       - discriminate.
       - intros [_ H']. contradiction.
       - intros H'. injection H' as <-. now repeat split.
       - intros (-> & _). reflexivity. }
  assert (HinL : In (JS.toLowerCase level) ALLOWED_LEVELS) by now apply HL.
  split; intros x; split.
  1,3: repeat match goal with
         | |- context [if ?c then _ else _] => destruct c
         end; discriminate.
  - intros [_ H]. contradiction.
  - intros (_ & _ & H). contradiction.
Qed.

(* ===================================================================== *)
(** ** The token provider, further *)
(* ===================================================================== *)

(** What a refresh stores is what the authentication endpoint sent. *)
Lemma getAuthToken_refresh (w : World) (st : State) (token : option string) :
  cacheHit w st = false ->
  fst (getAuthToken w st) = Returned token ->
  exists statusCode r,
    authReply w (history st ++ [Console AuthFetching;
                                AuthPost (payload_of (env w))])
      = Responded statusCode (Some r)
    /\ status_ok statusCode = true
    /\ access_token r = token
    /\ expires_in r = Some (tokenExpiryTime (snd (getAuthToken w st)))
    /\ currentToken (snd (getAuthToken w st)) = token
    /\ tokenExpiryTime (snd (getAuthToken w st)) <> 0%Z
    /\ JS.truthy token = true.
Proof.
  unfold cacheHit. unfold_auth. intros Hhit. rewrite Hhit.
  destruct (checkPayload (payload_of (env w))) as [e|[]];
    cbn [fst snd currentToken tokenExpiryTime history]; [discriminate|].
  destruct (JS.has_scheme (AUTH_URL (env w))
            && urlParses w (AUTH_URL (env w)));
    [destruct (optionsAccepted w (AUTH_URL (env w)))|];
    cbn [fst snd currentToken tokenExpiryTime history]; try discriminate.
  rewrite <- app_assoc. cbn [app].
  destruct (authReply w _) as [m | | sc [r|]]; try discriminate.
  destruct (status_ok sc) eqn:Hs; [|discriminate].
  destruct (JS.truthy (access_token r) && truthy_num (expires_in r)) eqn:Hok;
    cbn [fst snd currentToken tokenExpiryTime history]; [|discriminate].
  intros H. injection H as <-.
  apply andb_true_iff in Hok as [Ht He].
  exists sc, r. repeat split; try assumption.
  - destruct (expires_in r); [reflexivity | discriminate].
  - destruct (expires_in r) as [n|]; [|discriminate].
    cbn in He. now destruct (Z.eqb_spec n 0).
Qed.

(** X3. A token obtained by a refresh is the one the endpoint sent, it is kept
    with the expiry the endpoint sent, and any later call made while the
    clock reads more than 60 seconds before that expiry returns it from the
    cache, adding nothing but a console line. *)
Theorem refreshed_token_is_reused (w w' : World) (st : State)
    (token : option string) :
  cacheHit w st = false ->
  fst (getAuthToken w st) = Returned token ->
  (exists statusCode r,
     authReply w (history st ++ [Console AuthFetching;
                                 AuthPost (payload_of (env w))])
       = Responded statusCode (Some r)
     /\ access_token r = token
     /\ expires_in r = Some (tokenExpiryTime (snd (getAuthToken w st))))
  /\ ((dateNow w' (history (snd (getAuthToken w st))) / 1000 + 60
        < tokenExpiryTime (snd (getAuthToken w st)))%Z ->
      getAuthToken w' (snd (getAuthToken w st))
        = (Returned token,
           after (snd (getAuthToken w st)) [Console AuthUsingCached])).
Proof.
  intros Hmiss Hret.
  destruct (getAuthToken_refresh w st token Hmiss Hret)
    as (sc & r & Hr & _ & Ha & He & Hc & _ & Ht).
  split; [exists sc, r; auto|].
  intros Hclock. set (st1 := snd (getAuthToken w st)) in *.
  unfold getAuthToken at 1, now_seconds, bind, ret, get, emit.
  rewrite Hc, Ht. apply Z.gtb_lt in Hclock. rewrite Hclock. reflexivity.
Qed.

(** A first call fetches [tok1]; the second call finds it in the cache. *)
Lemma refreshed_token_is_reused_witness :
  cacheHit worldOk initial = false
  /\ fst (getAuthToken worldOk initial) = Returned (Some "tok1")
  /\ fst (getAuthToken worldAuthDown (snd (getAuthToken worldOk initial)))
     = Returned (Some "tok1").
Proof.
  split; [reflexivity|]. split; [reflexivity|].
  rewrite (proj2 (refreshed_token_is_reused worldOk worldAuthDown initial
                    (Some "tok1") eq_refl eq_refl));
    reflexivity.
Defined.

(** X4. [getAuthToken] never returns [null] or the empty string, so that the
    guard [if (!token)] of [#logWithRetry] never fires: an attempt throws a
    validation error, a wrapped authentication error, an error of
    [new URL] or of [http.request] raised before the request is sent, or a
    transport error, and nothing else. *)
Theorem token_never_empty (w : World) (self : Logger)
    (stack level packageName message : string) (st : State) :
  (forall token,
     fst (getAuthToken w st) = Returned token -> JS.truthy token = true)
  /\ (forall e,
        fst (attemptOnce w self stack level packageName message st) = Threw e ->
        e <> NoToken
        /\ (validateLogParams stack level packageName message = inl e
            \/ (exists cause, e = AuthenticationFailed cause)
            \/ isTransportError e = true
            \/ isSetupError e = true)).
Proof.
  assert (Htok : forall st0 token,
            fst (getAuthToken w st0) = Returned token -> JS.truthy token = true).
  { intros st0 token Hret.
    destruct (getAuthToken_cases w st0) as (evs & _ & _ & _ & Hc).
    destruct Hc as [(Hhit & _ & Hr & _)
                   | [(_ & _ & (e & He) & _) | (_ & _ & _ & _ & Hr & Ht)]].
    - unfold cacheHit in Hhit. apply andb_true_iff in Hhit as [Hhit _].
      congruence.
    - congruence.
    - congruence. }
  split; [apply Htok|].
  intros e He.
  assert (Hkind : validateLogParams stack level packageName message = inl e
            \/ (exists cause, e = AuthenticationFailed cause)
            \/ isTransportError e = true
            \/ isSetupError e = true).
  { destruct (validateLogParams stack level packageName message) as [e'|b] eqn:Hv.
    - rewrite (attemptOnce_invalid _ _ _ _ _ _ _ _ Hv) in He.
      left. cbn in He. congruence.
    - right. pose proof (validateLogParams_true _ _ _ _ _ Hv); subst b.
      rewrite (attemptOnce_valid _ _ _ _ _ _ _ Hv) in He.
      pose proof (Htok st) as Ht.
      destruct (getAuthToken_cases w st) as (evs & _ & _ & _ & Hc).
      destruct (getAuthToken w st) as [[token| e' |] st1]; cbn [fst snd] in *.
      + rewrite (Ht token eq_refl) in He. right.
        destruct (makeLogApiCall_cases w self
                    (payloadOf stack level packageName message) token st1)
          as [Hno Hyes].
        destruct (sendable w self token).
        * destruct (Hyes eq_refl) as [_ Hr].
          destruct (logReplyValue _).
          -- rewrite Hr in He. discriminate.
          -- destruct Hr as (e0 & Hk & Hr).
             rewrite Hr in He. injection He as <-. now left.
        * destruct (Hno eq_refl) as (e0 & Hk & Hr).
          rewrite Hr in He. injection He as <-. now right.
      + left. injection He as <-.
        destruct Hc as [(_ & _ & Hr & _)
                       | [(_ & _ & (c & Hr) & _) | (_ & _ & _ & _ & Hr & _)]];
          try discriminate.
        injection Hr as ->. now exists c.
      + discriminate. }
  split; [|exact Hkind].
  intros ->. destruct Hkind as [Hv | [[c Hc] | [Ht | Ht]]]; try discriminate.
  unfold validateLogParams in Hv.
  repeat match type of Hv with
         | context [if ?c then _ else _] => destruct c
         end; discriminate.
Qed.

(** The refused connection of [worldLogDown] is a transport error. *)
Lemma token_never_empty_witness :
  fst (attemptOnce worldLogDown defaultLogger "backend" "error" "service"
         "DB connect failed" initial) = Threw (LogRequest "ECONNREFUSED")
  /\ LogRequest "ECONNREFUSED" <> NoToken.
Proof.
  split; [reflexivity|].
  exact (proj1 (proj2 (token_never_empty worldLogDown defaultLogger "backend"
                         "error" "service" "DB connect failed" initial)
                  (LogRequest "ECONNREFUSED") eq_refl)).
Defined.

Lemma checkPayload_first_missing (p : list (string * option string))
    (key : string) :
  checkPayload p = inl (MissingEnv key)
  <-> exists before v rest,
        p = (before ++ (key, v) :: rest)%list
        /\ forallb (fun kv => JS.truthy (snd kv)) before = true
        /\ JS.truthy v = false.
Proof.
  induction p as [|[k v] p IH]; cbn [checkPayload].
  - split; [discriminate|]. intros (b & v & r & H & _). now destruct b.
  - destruct (JS.truthy v) eqn:Hv; cbn [negb].
    + rewrite IH. split.
      * intros (b & v' & r & -> & Hb & Hv').
        exists ((k, v) :: b), v', r. cbn. rewrite Hv, Hb. auto.
      * intros (b & v' & r & H & Hb & Hv').
        destruct b as [|[k0 v0] b]; cbn in H; injection H as -> -> ->.
        -- congruence.
        -- cbn in Hb. apply andb_true_iff in Hb as [_ Hb].
           exists b, v', r. auto.
    + split.
      * intros H. injection H as <-. exists [], v, p. auto.
      * intros (b & v' & r & H & Hb & Hv').
        destruct b as [|[k0 v0] b]; cbn in H; injection H as -> -> ->.
        -- reflexivity.
        -- cbn in Hb. rewrite Hv in Hb. discriminate.
Qed.

(** X5. With no usable cached token, [getAuthToken] reports a missing
    credential exactly when one of the six is unset or empty; the error
    names the first such variable in the order email, name, rollNo,
    accessCode, clientID, clientSecret, and no request is sent. *)
Theorem first_missing_credential (w : World) (st : State) (key : string) :
  cacheHit w st = false ->
  (fst (getAuthToken w st) = Threw (AuthenticationFailed (MissingEnv key))
   <-> exists before v rest,
         payload_of (env w) = (before ++ (key, v) :: rest)%list
         /\ forallb (fun kv => JS.truthy (snd kv)) before = true
         /\ JS.truthy v = false)
  /\ (fst (getAuthToken w st) = Threw (AuthenticationFailed (MissingEnv key)) ->
      authPosts (history (snd (getAuthToken w st))) = authPosts (history st)).
Proof.
  intros Hmiss. rewrite <- checkPayload_first_missing.
  assert (Hiff : fst (getAuthToken w st)
                   = Threw (AuthenticationFailed (MissingEnv key))
                 <-> checkPayload (payload_of (env w)) = inl (MissingEnv key)).
  { unfold cacheHit in Hmiss. unfold_auth. rewrite Hmiss.
    destruct (checkPayload (payload_of (env w))) as [e|[]] eqn:Hp;
      cbn [fst snd currentToken tokenExpiryTime history].
    - split; intros H; congruence.
    - destruct (JS.has_scheme (AUTH_URL (env w))
                && urlParses w (AUTH_URL (env w)));
        [destruct (optionsAccepted w (AUTH_URL (env w)))|];
        cbn [fst snd currentToken tokenExpiryTime history];
        try (split; discriminate).
      rewrite <- app_assoc. cbn [app].
      destruct (authReply w _) as [m | | sc [r|]]; cbn [fst];
        try (split; discriminate).
      destruct (status_ok sc); cbn [fst]; [|split; discriminate].
      destruct (JS.truthy (access_token r) && truthy_num (expires_in r));
        cbn [fst]; split; discriminate. }
  split; [exact Hiff|].
  intros H. apply Hiff in H.
  destruct (credentialsComplete (env w)) eqn:Hc.
  - unfold credentialsComplete in Hc.
    rewrite (checkPayload_complete _ Hc) in H. discriminate.
  - destruct (getAuthToken_missing_credentials w st Hmiss Hc) as [k Hk].
    rewrite Hk. hist. reflexivity.
Qed.

(** An unset [MY_EMAIL] is named, before any other credential. *)
Lemma first_missing_credential_witness :
  cacheHit worldNoCredentials initial = false
  /\ fst (getAuthToken worldNoCredentials initial)
     = Threw (AuthenticationFailed (MissingEnv "email")).
Proof.
  split; [reflexivity|].
  apply (proj1 (first_missing_credential worldNoCredentials initial "email"
                  eq_refl)).
  exists [], None, (List.tl (payload_of (env worldNoCredentials))).
  repeat split.
Defined.

(* ===================================================================== *)
(** ** The retry recursion in any world *)
(* ===================================================================== *)

Lemma logHeaders_app (h1 h2 : list Event) :
  logHeaders (h1 ++ h2) = (logHeaders h1 ++ logHeaders h2)%list.
Proof.
  induction h1 as [|[] h1 IH]; simpl; try assumption; [reflexivity | now f_equal].
Qed.

(** An attempt adds no delay, at most one request to each endpoint. *)
Lemma attemptOnce_events (w : World) (self : Logger)
    (stack level packageName message : string) (st : State) :
  exists evs,
    history (snd (attemptOnce w self stack level packageName message st))
      = (history st ++ evs)%list
    /\ delays evs = []
    /\ List.length (logPosts evs) <= 1
    /\ authPosts evs <= 1.
Proof.
  destruct (validateLogParams stack level packageName message) as [e|b] eqn:Hv.
  - rewrite (attemptOnce_invalid _ _ _ _ _ _ _ _ Hv).
    exists []. rewrite app_nil_r. cbn. auto.
  - pose proof (validateLogParams_true _ _ _ _ _ Hv); subst b.
    rewrite (attemptOnce_valid _ _ _ _ _ _ _ Hv).
    destruct (getAuthToken_cases w st) as (evs & Hh & Hd & Hp & Hc).
    assert (Ha : authPosts evs <= 1).
    { destruct Hc as [(_ & Ha & _) | [(_ & Ha & _) | (_ & _ & _ & Ha & _)]];
        rewrite Ha; [lia | destruct (_ && _); lia | lia]. }
    destruct (getAuthToken w st) as [[token| e |] st1]; cbn [fst snd] in *.
    + destruct (JS.truthy token).
      * destruct (makeLogApiCall_cases w self
                    (payloadOf stack level packageName message) token st1)
          as [Hno Hyes].
        destruct (sendable w self token).
        -- destruct (Hyes eq_refl) as [Hs _].
           rewrite Hs. cbn [history after]. rewrite Hh, <- app_assoc.
           eexists; split; [reflexivity|]. hist. rewrite Hd, Hp. cbn.
           repeat split; lia.
        -- destruct (Hno eq_refl) as (e0 & _ & Hs). rewrite Hs.
           exists evs. rewrite Hp. cbn. auto.
      * exists evs. rewrite Hp. cbn. auto.
    + exists evs. rewrite Hp. cbn. auto.
    + exists evs. rewrite Hp. cbn. auto.
Qed.

(** The shape of every run: the delays follow the linear schedule from the
    first attempt on, and with [k] delays at most [k + 1] requests went to
    each endpoint. *)
Lemma run_shape (w : World) (self : Logger)
    (stack level packageName message : string) (fuel : nat) :
  forall (attempt : Z) (st : State),
  Z.to_nat (retries self - attempt) <= fuel ->
  exists k,
    k <= Z.to_nat (retries self - attempt)
    /\ delays (history (snd (logWithRetry w fuel self stack level packageName
                               message attempt st)))
         = (delays (history st) ++ backoff attempt k)%list
    /\ List.length (logPosts (history (snd (logWithRetry w fuel self stack
                                  level packageName message attempt st))))
         <= List.length (logPosts (history st)) + S k
    /\ authPosts (history (snd (logWithRetry w fuel self stack level
                                  packageName message attempt st)))
         <= authPosts (history st) + S k.
Proof.
  induction fuel as [|fuel IH]; intros attempt st Hfuel;
    rewrite logWithRetry_unfold;
    destruct (attemptOnce_events w self stack level packageName message st)
      as (evs & Hh & Hd & Hp & Ha);
    destruct (attemptOnce w self stack level packageName message st)
      as [[v| e |] st1]; cbn [fst snd] in *.
  all: destruct (Z.ltb_spec attempt (retries self)) as [Hlt|Hge]; try lia.
  all: try (exists 0; cbn [fst snd history after]; rewrite ?Hh;
            rewrite ?delays_app, ?logPosts_app, ?authPosts_app, ?length_app;
            cbn [delays logPosts authPosts backoff seq map app List.length];
            rewrite ?Hd, ?app_nil_r; repeat split; try reflexivity; lia).
  cbn zeta.
  destruct (IH (attempt + 1)%Z
              (after st1 [Console (LoggerRetrying attempt e);
                          Sleep (1000 * attempt)]) ltac:(lia))
    as (k & Hk & Hd' & Hp' & Ha').
  exists (S k). rewrite Hd'. cbn [history after] in *. rewrite Hh in *.
  rewrite ?delays_app, ?logPosts_app, ?authPosts_app, ?length_app in *.
  cbn [delays logPosts authPosts app List.length] in *.
  rewrite Hd, !app_nil_r, backoff_S, <- app_assoc in *.
  repeat split; lia.
Qed.

Lemma total_backoff (k : nat) (attempt : Z) :
  total (backoff attempt k)
  = (1000 * Z.of_nat k * attempt + 500 * Z.of_nat k * (Z.of_nat k - 1))%Z.
Proof.
  revert attempt. induction k as [|k IH]; intros attempt.
  - reflexivity.
  - rewrite backoff_S. cbn [total fold_right]. fold (total (backoff (attempt + 1) k)).
    rewrite IH. lia.
Qed.

(** X6. In any world a call of [Log] with ceiling [r] waits according to the
    linear schedule 1000, 2000, ... and stops after at most [max 1 r]
    attempts: there are [k] delays for some [k] below [max 1 r], at most
    [k + 1] requests were sent to the logging endpoint and at most [k + 1]
    to the authentication endpoint, and the time slept is at most
    [500 * r * (r - 1)] ms once [r] is at least 1. *)
Theorem bounded_retries (w : World) (self : Logger)
    (stack level packageName message : string) (st : State) :
  exists k,
    (Z.of_nat k < Z.max 1 (retries self))%Z
    /\ delays (history (snd (Log w self stack level packageName message st)))
         = (delays (history st)
              ++ map (fun i => (1000 * (1 + Z.of_nat i))%Z) (seq 0 k))%list
    /\ List.length (logPosts (history (snd (Log w self stack level packageName
                                               message st))))
         <= List.length (logPosts (history st)) + S k
    /\ authPosts (history (snd (Log w self stack level packageName message st)))
         <= authPosts (history st) + S k
    /\ ((1 <= retries self)%Z ->
        (total (map (fun i => (1000 * (1 + Z.of_nat i))%Z) (seq 0 k))
           <= 500 * retries self * (retries self - 1))%Z).
Proof.
  destruct (run_shape w self stack level packageName message
              (enough_fuel self) 1 st (Nat.le_refl _))
    as (k & Hk & Hd & Hp & Ha).
  destruct (logWithRetry_total w self stack level packageName message
              (enough_fuel self) 1 st (Nat.le_refl _)) as [Hne _].
  destruct (Log_cases w self stack level packageName message st Hne)
    as [d HL].
  exists k. rewrite HL. hist.
  split; [lia|]. split; [exact Hd|]. split; [exact Hp|]. split; [exact Ha|].
  intros Hr. change (map _ (seq 0 k)) with (backoff 1 k).
  rewrite total_backoff. nia.
Qed.

(** [Log] on a returned value and on a thrown error. *)
Lemma Log_of_value (w : World) (self : Logger)
    (stack level packageName message : string) (st st1 : State) (v : json) :
  logWithRetry w (enough_fuel self) self stack level packageName message 1 st
    = (Returned v, st1) ->
  readable v = true ->
  exists logID,
    Log w self stack level packageName message st
      = (Returned v, after st1 [Console (LoggerSent logID)]).
Proof.
  intros Hrun Hv. unfold Log, try_catch, bind at 1. rewrite Hrun.
  pose proof (get_logID_cases v st1) as Hg. rewrite Hv in Hg.
  destruct Hg as [logID Hg]. unfold bind. rewrite Hg.
  unfold ret, emit. eexists; reflexivity.
Qed.

Lemma Log_of_unreadable (w : World) (self : Logger)
    (stack level packageName message : string) (st st1 : State) (v : json) :
  logWithRetry w (enough_fuel self) self stack level packageName message 1 st
    = (Returned v, st1) ->
  readable v = false ->
  Log w self stack level packageName message st
    = (Returned JNull, after st1 [Console (LoggerFinalFailed TypeError)]).
Proof.
  intros Hrun Hv. unfold Log, try_catch, bind at 1. rewrite Hrun.
  pose proof (get_logID_cases v st1) as Hg. rewrite Hv in Hg.
  unfold bind. rewrite Hg. reflexivity.
Qed.

Lemma Log_of_error (w : World) (self : Logger)
    (stack level packageName message : string) (st st1 : State) (e : Error) :
  logWithRetry w (enough_fuel self) self stack level packageName message 1 st
    = (Threw e, st1) ->
  Log w self stack level packageName message st
    = (Returned JNull, after st1 [Console (LoggerFinalFailed e)]).
Proof.
  intros Hrun. unfold Log, try_catch, bind at 1. rewrite Hrun.
  reflexivity.
Qed.

(** X7. A value other than [null] comes back from [Log] only when the event
    passed the validation and the logging endpoint accepted a request that
    carried it: the value is the parsed body of that reply, which is the last
    thing that happened before the console line of [Log]. *)
Theorem Log_value_is_accepted_reply (w : World) (self : Logger)
    (stack level packageName message : string) (st : State) (v : json) :
  fst (Log w self stack level packageName message st) = Returned v ->
  v <> JNull ->
  validateLogParams stack level packageName message = inr true
  /\ exists h logID,
       history (snd (Log w self stack level packageName message st))
         = (h ++ [Console (LoggerSent logID)])%list
       /\ logReplyValue (logReply w h) = Some v
       /\ exists sent,
            logPosts h
              = (sent ++ [payloadOf stack level packageName message])%list.
Proof.
  assert (Hrun : forall fuel attempt st0 v0,
    fst (logWithRetry w fuel self stack level packageName message attempt st0)
      = Returned v0 ->
    validateLogParams stack level packageName message = inr true
    /\ logReplyValue
         (logReply w (history (snd (logWithRetry w fuel self stack level
                                      packageName message attempt st0))))
       = Some v0
    /\ exists sent,
         logPosts (history (snd (logWithRetry w fuel self stack level
                                   packageName message attempt st0)))
           = (sent ++ [payloadOf stack level packageName message])%list).
  { induction fuel as [|fuel IH]; intros attempt st0 v0;
      rewrite logWithRetry_unfold;
      destruct (attemptOnce_cases w self stack level packageName message st0)
        as (evs & Hh & _ & Hc);
      destruct (attemptOnce w self stack level packageName message st0)
        as [[v1| e |] st1]; cbn [fst snd] in *.
    all: try discriminate.
    all: try (intros H; injection H as <-;
              destruct Hc as [(_ & e & He) | (Hv & Hp & Hr)]; [discriminate|];
              rewrite <- Hh in Hr;
              destruct (logReplyValue (logReply w (history st1))) as [v2|];
                [|destruct Hr as [e Hr]; discriminate];
              injection Hr as <-; split; [exact Hv|]; split; [reflexivity|];
              exists (logPosts (history st0)); now rewrite Hh, logPosts_app, Hp).
    all: destruct (attempt <? retries self)%Z; cbn zeta; try discriminate.
    apply IH. }
  intros Hret Hv.
  specialize (Hrun (enough_fuel self) 1%Z st).
  destruct (logWithRetry w (enough_fuel self) self stack level packageName
              message 1 st) as [[v1| e |] st1] eqn:Hlw; cbn [fst snd] in *.
  - destruct (Hrun v1 eq_refl) as (Hval & Hrep & sent & Hsent).
    destruct (readable v1) eqn:Hv1.
    2: { rewrite (Log_of_unreadable w self stack level packageName message
                    st st1 v1 Hlw Hv1) in Hret.
         cbn in Hret. congruence. }
    + destruct (Log_of_value w self stack level packageName message st st1 v1
                  Hlw Hv1) as [logID HL].
      rewrite HL in *. cbn [fst snd history after] in *.
      injection Hret as <-. split; [exact Hval|].
      exists (history st1), logID. split; [reflexivity|].
      split; [exact Hrep | now exists sent].
  - rewrite (Log_of_error w self stack level packageName message st st1 e Hlw)
      in Hret.
    cbn in Hret. congruence.
  - revert Hret. unfold Log, try_catch, bind at 1. rewrite Hlw. discriminate.
Qed.

(** The scenario of the design document. *)
Lemma Log_value_is_accepted_reply_witness :
  fst (Log worldOk defaultLogger "backend" "error" "service"
         "DB connect failed" initial)
    = Returned (JObj [("logID", JStr "abc123")])
  /\ validateLogParams "backend" "error" "service" "DB connect failed"
       = inr true.
Proof.
  split; [reflexivity|].
  apply (Log_value_is_accepted_reply worldOk defaultLogger "backend" "error"
           "service" "DB connect failed" initial
           (JObj [("logID", JStr "abc123")]) eq_refl).
  discriminate.
Defined.

(** X8. When the logging endpoint accepts the first request with the JSON
    text [null] as its body, no retry and no delay follows, yet [Log]
    reports [null] as if the shipping had failed: reading [logID] of [null]
    throws, and the [catch] of [Log] turns that into the [null] result. *)
Theorem null_body_reads_as_failure (w : World) (self : Logger)
    (stack level packageName message : string) (st : State) :
  fst (attemptOnce w self stack level packageName message st)
    = Returned JNull ->
  Log w self stack level packageName message st
    = (Returned JNull,
       after (snd (attemptOnce w self stack level packageName message st))
         [Console (LoggerFinalFailed TypeError)])
  /\ delays (history (snd (Log w self stack level packageName message st)))
       = delays (history st)
  /\ List.length
       (logPosts (history (snd (Log w self stack level packageName message st))))
     = List.length (logPosts (history st)) + 1.
Proof.
  intros Hret.
  assert (HL : Log w self stack level packageName message st
    = (Returned JNull,
       after (snd (attemptOnce w self stack level packageName message st))
         [Console (LoggerFinalFailed TypeError)])).
  { unfold Log, try_catch, bind at 1. rewrite logWithRetry_unfold.
    destruct (attemptOnce w self stack level packageName message st)
      as [o st1]; cbn [fst snd] in *; subst o.
    unfold get_logID, throw, bind, ret, emit. reflexivity. }
  split; [exact HL|]. rewrite HL. hist.
  destruct (attemptOnce_cases w self stack level packageName message st)
    as (evs & Hh & Hd & [(_ & e & He) | (_ & Hp & _)]); [congruence|].
  rewrite Hh. hist. rewrite Hd, Hp, app_nil_r, length_app. split; reflexivity.
Qed.

(** Status 200 with the body [null]. *)
Lemma null_body_reads_as_failure_witness :
  fst (attemptOnce worldNullBody defaultLogger "backend" "error" "service"
         "DB connect failed" initial) = Returned JNull
  /\ delays (history (snd (Log worldNullBody defaultLogger "backend" "error"
                             "service" "DB connect failed" initial)))
     = delays (history initial).
Proof.
  split; [reflexivity|].
  exact (proj1 (proj2 (null_body_reads_as_failure worldNullBody defaultLogger
                         "backend" "error" "service" "DB connect failed"
                         initial eq_refl))).
Defined.

(* ===================================================================== *)
(** ** Runs under an invariant of the cache *)
(* ===================================================================== *)

Section InvariantRun.

Variable w : World.
Variable self : Logger.
Variables stack level packageName message : string.

(** A property of events that console lines and delays have, and a property
    of states that the history does not affect; every attempt started in
    such a state ends in such a state and adds such events only. *)
Variable good : Event -> Prop.
Variable Inv : State -> Prop.
Hypothesis good_console : forall d, good (Console d).
Hypothesis good_sleep : forall ms, good (Sleep ms).
Hypothesis Inv_after : forall st evs, Inv st -> Inv (after st evs).
Hypothesis attempt_good : forall st, Inv st ->
  Inv (snd (attemptOnce w self stack level packageName message st))
  /\ exists evs,
       history (snd (attemptOnce w self stack level packageName message st))
         = (history st ++ evs)%list
       /\ Forall good evs.

Lemma run_events (fuel : nat) : forall (attempt : Z) (st : State),
  Inv st ->
  Inv (snd (logWithRetry w fuel self stack level packageName message attempt st))
  /\ exists evs,
       history (snd (logWithRetry w fuel self stack level packageName message
                       attempt st))
         = (history st ++ evs)%list
       /\ Forall good evs.
Proof.
  induction fuel as [|fuel IH]; intros attempt st HI;
    rewrite logWithRetry_unfold;
    destruct (attempt_good st HI) as (HI1 & evs & Hh & Hg);
    destruct (attemptOnce w self stack level packageName message st)
      as [[v| e |] st1]; cbn [fst snd] in *.
  all: try (split; [exact HI1 | exists evs; now split]).
  all: destruct (attempt <? retries self)%Z; cbn zeta; cbn [fst snd].
  all: try (split; [now apply Inv_after|]; cbn [history after]; rewrite Hh,
              <- app_assoc; eexists; split; [reflexivity|];
            apply Forall_app; split; [exact Hg|]; repeat constructor; auto).
  destruct (IH (attempt + 1)%Z
              (after st1 [Console (LoggerRetrying attempt e);
                          Sleep (1000 * attempt)]))
    as (HI2 & evs2 & Hh2 & Hg2); [now apply Inv_after|].
  split; [exact HI2|]. rewrite Hh2. cbn [history after].
  rewrite Hh, <- !app_assoc. eexists; split; [reflexivity|].
  apply Forall_app; split; [exact Hg|].
  apply Forall_app; split; [|exact Hg2]. repeat constructor; auto.
Qed.

(** The same for [Log]. *)
Lemma Log_events (st : State) :
  Inv st ->
  Inv (snd (Log w self stack level packageName message st))
  /\ exists evs,
       history (snd (Log w self stack level packageName message st))
         = (history st ++ evs)%list
       /\ Forall good evs.
Proof.
  intros HI.
  destruct (run_events (enough_fuel self) 1 st HI) as (HI1 & evs & Hh & Hg).
  destruct (logWithRetry_total w self stack level packageName message
              (enough_fuel self) 1 st (Nat.le_refl _)) as [Hne _].
  destruct (Log_cases w self stack level packageName message st Hne)
    as [d HL].
  rewrite HL. cbn [snd]. split; [now apply Inv_after|].
  cbn [history after]. rewrite Hh, <- app_assoc.
  eexists; split; [reflexivity|].
  apply Forall_app; split; [exact Hg | repeat constructor; auto].
Qed.

End InvariantRun.

Section FailingRunInv.

Variable w : World.
Variable self : Logger.
Variables stack level packageName message : string.

Variable Inv : State -> Prop.
Hypothesis Inv_after : forall st evs, Inv st -> Inv (after st evs).
Hypothesis attempt_fails_inv : forall st, Inv st ->
  (exists e, fst (attemptOnce w self stack level packageName message st) = Threw e)
  /\ Inv (snd (attemptOnce w self stack level packageName message st))
  /\ delays (history (snd (attemptOnce w self stack level packageName message st)))
       = delays (history st).

(** If every attempt started under the invariant throws, the run goes
    through the whole schedule and throws. *)
Lemma failing_run_inv (fuel : nat) : forall (attempt : Z) (st : State),
  Inv st ->
  Z.to_nat (retries self - attempt) <= fuel ->
  (exists e,
     fst (logWithRetry w fuel self stack level packageName message attempt st)
       = Threw e)
  /\ delays (history (snd (logWithRetry w fuel self stack level packageName
                                         message attempt st)))
       = (delays (history st)
            ++ backoff attempt (Z.to_nat (retries self - attempt)))%list.
Proof.
  induction fuel as [|fuel IH]; intros attempt st HI Hfuel;
    rewrite logWithRetry_unfold;
    destruct (attempt_fails_inv st HI) as ((e & He) & HI1 & Hd);
    destruct (attemptOnce w self stack level packageName message st)
      as [o st1]; cbn [fst snd] in *; subst o;
    destruct (Z.ltb_spec attempt (retries self)) as [Hlt|Hge];
    try lia.
  - replace (Z.to_nat (retries self - attempt)) with 0 by lia.
    hist. split; [now exists e | exact Hd].
  - cbn zeta.
    destruct (IH (attempt + 1)%Z
                (after st1 [Console (LoggerRetrying attempt e);
                            Sleep (1000 * attempt)])
                (Inv_after _ _ HI1) ltac:(lia)) as (He' & Hd').
    split; [exact He'|]. rewrite Hd'. hist. rewrite Hd.
    replace (Z.to_nat (retries self - attempt))
      with (S (Z.to_nat (retries self - (attempt + 1)))) by lia.
    now rewrite backoff_S, <- !app_assoc.
  - replace (Z.to_nat (retries self - attempt)) with 0 by lia.
    hist. split; [now exists e | exact Hd].
Qed.

End FailingRunInv.

Lemma getAuthToken_hit (w : World) (st : State) :
  cacheHit w st = true ->
  getAuthToken w st
    = (Returned (currentToken st), after st [Console AuthUsingCached]).
Proof.
  unfold cacheHit. intros Hhit.
  unfold getAuthToken, now_seconds, bind, ret, get, emit.
  now rewrite Hhit.
Qed.

Lemma quiet_events (d : LogData) (authorization : string) (t : Z)
    (evs : list Event) :
  Forall (quietEvent d authorization t) evs ->
  authPosts evs = 0
  /\ logHeaders evs = repeat authorization (List.length (logHeaders evs))
  /\ logPosts evs = repeat d (List.length (logPosts evs)).
Proof.
  induction 1 as [|e evs He _ (IHa & IHh & IHp)]; [repeat split|].
  destruct e; cbn in *; try contradiction; auto.
  destruct He as (-> & -> & _). repeat split; [exact IHa | |]; now f_equal.
Qed.

Lemma offline_events (evs : list Event) :
  Forall offlineEvent evs -> authPosts evs = 0 /\ logPosts evs = [].
Proof.
  induction 1 as [|e evs He _ (IHa & IHp)]; [now split|].
  destruct e; cbn in *; try contradiction; auto.
Qed.

(** X9. While the cached token stays fresh, that is while every reading of
    the clock is more than 60 seconds before its expiry, a call of [Log]
    never contacts the authentication endpoint and leaves the cache as it
    is, and every request it sends to the logging endpoint carries the
    cached token in its [Authorization] header. *)
Theorem fresh_cache_needs_no_auth (w : World) (self : Logger)
    (stack level packageName message : string) (st : State) :
  JS.truthy (currentToken st) = true ->
  (forall h, (dateNow w h / 1000 + 60 < tokenExpiryTime st)%Z) ->
  authPosts (history (snd (Log w self stack level packageName message st)))
    = authPosts (history st)
  /\ currentToken (snd (Log w self stack level packageName message st))
       = currentToken st
  /\ tokenExpiryTime (snd (Log w self stack level packageName message st))
       = tokenExpiryTime st
  /\ exists n,
       logHeaders (history (snd (Log w self stack level packageName message st)))
         = (logHeaders (history st)
              ++ repeat ("Bearer " ++ to_str (currentToken st))%string n)%list.
Proof.
  intros Ht Hclock.
  set (hdr := "Bearer " ++ to_str (currentToken st)).
  set (d := payloadOf stack level packageName message).
  set (Inv := fun st' : State =>
                currentToken st' = currentToken st
                /\ tokenExpiryTime st' = tokenExpiryTime st).
  destruct (Log_events w self stack level packageName message
              (quietEvent d hdr (timeout self)) Inv) with (st := st)
    as ((Hc & He) & evs & Hh & Hg).
  - intros; exact I.
  - intros; exact I.
  - intros st' evs [H1 H2]. split; assumption.
  - intros st' [H1 H2].
    assert (Hhit : cacheHit w st' = true).
    { unfold cacheHit. rewrite H1, H2, Ht. apply Z.gtb_lt, Hclock. }
    destruct (validateLogParams stack level packageName message) as [e|b] eqn:Hv.
    + rewrite (attemptOnce_invalid _ _ _ _ _ _ _ _ Hv). cbn [snd].
      split; [now split|]. exists []. now rewrite app_nil_r.
    + pose proof (validateLogParams_true _ _ _ _ _ Hv); subst b.
      rewrite (attemptOnce_valid _ _ _ _ _ _ _ Hv), (getAuthToken_hit _ _ Hhit).
      rewrite H1, Ht.
      destruct (makeLogApiCall_cases w self d (currentToken st)
                  (after st' [Console AuthUsingCached])) as [Hno Hyes].
      fold d. destruct (sendable w self (currentToken st)).
      * destruct (Hyes eq_refl) as [Hs _].
        rewrite Hs. cbn [history after currentToken tokenExpiryTime].
        split; [now split|]. rewrite <- app_assoc.
        eexists; split; [reflexivity|].
        repeat constructor.
      * destruct (Hno eq_refl) as (e0 & _ & Hs).
        rewrite Hs. cbn [snd history after currentToken tokenExpiryTime].
        split; [now split|].
        eexists; split; [reflexivity|].
        repeat constructor.
  - now split.
  - destruct (quiet_events _ _ _ _ Hg) as (Ha & Hhd & _).
    rewrite Hh, authPosts_app, logHeaders_app, Ha, Hhd.
    repeat split; try assumption; [lia | eexists; reflexivity].
Qed.

(** Three refused requests, each with the token that was in the cache. *)
Lemma fresh_cache_needs_no_auth_witness :
  JS.truthy (currentToken freshCache) = true
  /\ authPosts (history (snd (Log worldLogDown defaultLogger "backend" "error"
                                "service" "DB connect failed" freshCache))) = 0
  /\ logHeaders (history (snd (Log worldLogDown defaultLogger "backend" "error"
                                 "service" "DB connect failed" freshCache)))
     = ["Bearer tok0"; "Bearer tok0"; "Bearer tok0"].
Proof.
  split; [reflexivity|]. split; [|reflexivity].
  apply (fresh_cache_needs_no_auth worldLogDown defaultLogger "backend"
           "error" "service" "DB connect failed" freshCache eq_refl).
  intros h. reflexivity.
Defined.

(** X10. With no cached token and a credential missing, a call of [Log]
    contacts neither endpoint, whatever the event, and still waits through
    the whole schedule, 1000 ms to [1000 * (r - 1)] ms for the ceiling [r],
    before it returns [null]. *)
Theorem missing_credentials_offline (w : World) (self : Logger)
    (stack level packageName message : string) (st : State) :
  currentToken st = None ->
  credentialsComplete (env w) = false ->
  fst (Log w self stack level packageName message st) = Returned JNull
  /\ authPosts (history (snd (Log w self stack level packageName message st)))
       = authPosts (history st)
  /\ logPosts (history (snd (Log w self stack level packageName message st)))
       = logPosts (history st)
  /\ delays (history (snd (Log w self stack level packageName message st)))
       = (delays (history st)
            ++ map (fun i => (1000 * (1 + Z.of_nat i))%Z)
                 (seq 0 (Z.to_nat (retries self - 1))))%list.
Proof.
  intros Hnone Hcred.
  set (Inv := fun st' : State => currentToken st' = None).
  assert (Hattempt : forall st', Inv st' ->
    exists e evs,
      attemptOnce w self stack level packageName message st'
        = (Threw e, after st' evs)
      /\ Forall offlineEvent evs /\ delays evs = []).
  { intros st' HI.
    destruct (validateLogParams stack level packageName message) as [e|b] eqn:Hv.
    - rewrite (attemptOnce_invalid _ _ _ _ _ _ _ _ Hv).
      exists e, []. unfold after. rewrite app_nil_r.
      destruct st'; repeat split; constructor.
    - pose proof (validateLogParams_true _ _ _ _ _ Hv); subst b.
      rewrite (attemptOnce_valid _ _ _ _ _ _ _ Hv).
      assert (Hmiss : cacheHit w st' = false).
      { unfold cacheHit. unfold Inv in HI. now rewrite HI. }
      destruct (getAuthToken_missing_credentials w st' Hmiss Hcred)
        as [key Hk].
      rewrite Hk. eexists; eexists; split; [reflexivity|].
      split; [repeat constructor | reflexivity]. }
  destruct (Log_events w self stack level packageName message
              offlineEvent Inv) with (st := st) as (_ & evs & Hh & Hg).
  - intros; exact I.
  - intros; exact I.
  - intros st' evs' H. exact H.
  - intros st' HI. destruct (Hattempt st' HI) as (e & evs' & Ha & Hg' & _).
    rewrite Ha. cbn [snd]. split; [exact HI|]. now exists evs'.
  - exact Hnone.
  - destruct (failing_run_inv w self stack level packageName message Inv)
      with (fuel := enough_fuel self) (attempt := 1%Z) (st := st)
      as ((e & He) & Hd).
    + intros st' evs' H. exact H.
    + intros st' HI. destruct (Hattempt st' HI) as (e & evs' & Ha & _ & Hd).
      rewrite Ha. cbn [fst snd]. split; [now exists e|]. split; [exact HI|].
      hist. now rewrite Hd, app_nil_r.
    + exact Hnone.
    + apply Nat.le_refl.
    + destruct (offline_events _ Hg) as (Hap & Hlp).
      destruct (logWithRetry w (enough_fuel self) self stack level packageName
                  message 1 st) as [o st1] eqn:Hlw; cbn [fst snd] in *; subst o.
      rewrite (Log_of_error _ _ _ _ _ _ _ _ _ Hlw) in *.
      cbn [fst snd history after] in *.
      split; [reflexivity|]. split; [|split].
      * rewrite Hh, authPosts_app, Hap. lia.
      * now rewrite Hh, logPosts_app, Hlp, app_nil_r.
      * rewrite delays_app. cbn [delays]. rewrite app_nil_r. exact Hd.
Qed.

(** A valid event, [MY_EMAIL] unset, a fresh process, the default ceiling. *)
Lemma missing_credentials_offline_witness :
  currentToken initial = None
  /\ credentialsComplete (env worldNoCredentials) = false
  /\ delays (history (snd (Log worldNoCredentials defaultLogger "backend"
                             "error" "service" "DB connect failed" initial)))
     = [1000; 2000]%Z.
Proof.
  split; [reflexivity|]. split; [reflexivity|].
  exact (proj2 (proj2 (proj2 (missing_credentials_offline worldNoCredentials
                                defaultLogger "backend" "error" "service"
                                "DB connect failed" initial eq_refl eq_refl)))).
Defined.

(* ===================================================================== *)
(** ** Shortcodes *)
(* ===================================================================== *)

Lemma length_append (s1 s2 : string) :
  String.length (s1 ++ s2) = String.length s1 + String.length s2.
Proof. induction s1 as [|c s1 IH]; simpl; [reflexivity | now rewrite IH]. Qed.

Lemma all_alnum_append (s1 s2 : string) :
  Shortener.all_alnum (s1 ++ s2)
  = Shortener.all_alnum s1 && Shortener.all_alnum s2.
Proof.
  induction s1 as [|c s1 IH]; simpl; [reflexivity|].
  now rewrite IH, andb_assoc.
Qed.

(** An index below 62 picks one character, a letter or a digit. *)
Lemma char_at_in_range (i : nat) :
  i < 62 ->
  String.length (Shortener.char_at i) = 1
  /\ Shortener.all_alnum (Shortener.char_at i) = true.
Proof.
  intros Hi.
  do 62 (destruct i as [|i]; [split; reflexivity|]).
  lia.
Qed.

Lemma candidate_in_range (rnd : nat -> nat) (n : nat) :
  (forall k, rnd k < 62) ->
  forall start,
    String.length (Shortener.candidate rnd start n) = n
    /\ Shortener.all_alnum (Shortener.candidate rnd start n) = true.
Proof.
  intros Hr. induction n as [|n IH]; intros start; cbn [Shortener.candidate].
  - split; reflexivity.
  - destruct (char_at_in_range (rnd start) (Hr start)) as [Hl Ha].
    destruct (IH (S start)) as [Hl' Ha'].
    rewrite length_append, all_alnum_append, Hl, Ha, Hl', Ha'. split; reflexivity.
Qed.

(** A length that is no array length: the call rejects at once. *)
Lemma generate_too_long (w : Shortener.World) (n fuel : nat)
    (st : Shortener.State) :
  Shortener.too_long n = true ->
  Shortener.generateUniqueShortcode w fuel n st
    = (Shortener.Rejected Shortener.RangeError, st).
Proof.
  intros Hlong. destruct fuel; cbn [Shortener.generateUniqueShortcode];
    now rewrite Hlong.
Qed.

(** What a run of the loop does, by the number of turns. *)
Lemma generate_turns (w : Shortener.World) (n : nat) (fuel : nat) :
  forall st,
    match Shortener.generateUniqueShortcode w fuel n st with
    | (Shortener.Resolved code, st') =>
        Shortener.too_long n = false
        /\ exists j, j < fuel
          /\ code = Shortener.turn w st n j
          /\ Shortener.taken code (Shortener.shortened_urls st) = false
          /\ (forall i, i < j ->
                Shortener.taken (Shortener.turn w st n i)
                  (Shortener.shortened_urls st) = true)
          /\ (forall i, i <= j ->
                Shortener.dbError w (Shortener.statements st + i) = None)
          /\ st' = Shortener.mkState (Shortener.shortened_urls st)
                     (Shortener.clicks st)
                     (Shortener.randoms st + S j * n)
                     (Shortener.statements st + S j)
                     (Shortener.dates st) (Shortener.logged st)
    | (Shortener.Rejected err, st') =>
        (Shortener.too_long n = true
         /\ err = Shortener.RangeError /\ st' = st)
        \/ (Shortener.too_long n = false
            /\ exists j message, j < fuel
              /\ err = Shortener.DbFailure message
              /\ Shortener.dbError w (Shortener.statements st + j)
                 = Some message
              /\ (forall i, i < j ->
                    Shortener.taken (Shortener.turn w st n i)
                      (Shortener.shortened_urls st) = true
                    /\ Shortener.dbError w (Shortener.statements st + i)
                       = None)
              /\ st' = Shortener.mkState (Shortener.shortened_urls st)
                         (Shortener.clicks st)
                         (Shortener.randoms st + S j * n)
                         (Shortener.statements st + S j)
                         (Shortener.dates st) (Shortener.logged st))
    | (Shortener.OutOfFuel, _) =>
        Shortener.too_long n = false
        /\ forall i, i < fuel ->
             Shortener.taken (Shortener.turn w st n i)
               (Shortener.shortened_urls st) = true
             /\ Shortener.dbError w (Shortener.statements st + i) = None
    end.
Proof.
  destruct (Shortener.too_long n) eqn:Hlong.
  { intros st. rewrite (generate_too_long w n fuel st Hlong). left. auto. }
  induction fuel as [|fuel IH]; intros st;
    cbn [Shortener.generateUniqueShortcode]; rewrite Hlong.
  - split; [reflexivity|]. intros i Hi. lia.
  - unfold Shortener.selectOne.
    cbn [Shortener.drawn Shortener.statements Shortener.shortened_urls].
    assert (H0 : Shortener.candidate (Shortener.randomIndex w)
                   (Shortener.randoms st) n = Shortener.turn w st n 0).
    { unfold Shortener.turn. now rewrite Nat.add_0_r. }
    destruct (Shortener.dbError w (Shortener.statements st)) as [m|] eqn:He.
    + right. split; [reflexivity|].
      exists 0, m. rewrite Nat.add_0_r. repeat split; try lia; try assumption.
      unfold Shortener.ran, Shortener.drawn; cbn. f_equal; lia.
    + destruct (Shortener.taken _ (Shortener.shortened_urls st)) eqn:Ht;
        cbn [negb].
      * specialize (IH (Shortener.ran (Shortener.drawn n st))).
        assert (Hturn : forall i,
          Shortener.turn w (Shortener.ran (Shortener.drawn n st)) n i
          = Shortener.turn w st n (S i)).
        { intros i. unfold Shortener.turn. cbn. f_equal. lia. }
        destruct (Shortener.generateUniqueShortcode w fuel n
                    (Shortener.ran (Shortener.drawn n st)))
          as [[code| err |] st'];
          cbn [Shortener.ran Shortener.drawn Shortener.shortened_urls
               Shortener.clicks Shortener.randoms Shortener.statements
               Shortener.dates Shortener.logged] in IH.
        -- destruct IH as (_ & j & Hj & Hc & Hf & Hb & Hdb & Hs).
           split; [reflexivity|].
           exists (S j). rewrite Hturn in Hc. repeat split; try lia; try assumption.
           ++ intros [|i] Hi; [now rewrite <- H0|].
              rewrite <- Hturn. apply Hb. lia.
           ++ intros [|i] Hi; [now rewrite Nat.add_0_r|].
              replace (Shortener.statements st + S i)
                with (S (Shortener.statements st) + i) by lia.
              apply Hdb. lia.
           ++ rewrite Hs. f_equal; lia.
        -- destruct IH as [(Hno & _) | (_ & j & m & Hj & Herr & Hdb & Hb & Hs)];
             [discriminate|].
           right. split; [reflexivity|].
           exists (S j), m. repeat split; try lia; try assumption.
           ++ replace (Shortener.statements st + S j)
                with (S (Shortener.statements st) + j) by lia.
              exact Hdb.
           ++ destruct i as [|i]; [now rewrite <- H0|].
              rewrite <- Hturn. apply Hb. lia.
           ++ destruct i as [|i]; [now rewrite Nat.add_0_r|].
              replace (Shortener.statements st + S i)
                with (S (Shortener.statements st) + i) by lia.
              apply Hb. lia.
           ++ rewrite Hs. f_equal; lia.
        -- destruct IH as [_ IH]. split; [reflexivity|]. intros [|i] Hi.
           ++ rewrite <- H0, Nat.add_0_r. now split.
           ++ rewrite <- Hturn.
              replace (Shortener.statements st + S i)
                with (S (Shortener.statements st) + i) by lia.
              apply IH. lia.
      * split; [reflexivity|]. exists 0. rewrite <- H0.
        repeat split; try lia; try assumption.
        -- intros i Hi. assert (i = 0) by lia. subst i.
           now rewrite Nat.add_0_r.
        -- unfold Shortener.ran, Shortener.drawn; cbn. f_equal; lia.
Qed.

(** X11. A shortcode returned by [generateUniqueShortcode] is not in the
    table, which the search leaves as it was; when the random indices are
    below 62, as [Math.floor(Math.random() * 62)] is, the shortcode has the
    requested length and only letters and digits, so that for a length
    between 3 and 15 it passes [isShortcodeValid], the test applied to custom
    shortcodes. *)
Theorem generated_shortcode (w : Shortener.World) (fuel n : nat)
    (st st' : Shortener.State) (code : string) :
  Shortener.generateUniqueShortcode w fuel n st = (Shortener.Resolved code, st') ->
  Shortener.taken code (Shortener.shortened_urls st) = false
  /\ Shortener.shortened_urls st' = Shortener.shortened_urls st
  /\ Shortener.clicks st' = Shortener.clicks st
  /\ ((forall k, Shortener.randomIndex w k < 62) ->
      String.length code = n
      /\ Shortener.all_alnum code = true
      /\ (3 <= n <= 15 -> Shortener.isShortcodeValid code = true)).
Proof.
  intros Hgen. pose proof (generate_turns w n fuel st) as H.
  rewrite Hgen in H. destruct H as (_ & j & _ & Hc & Hf & _ & _ & Hs).
  subst st'. cbn. repeat split; try assumption.
  - subst code. now apply candidate_in_range.
  - subst code. now apply candidate_in_range.
  - intros Hn.
    destruct (candidate_in_range (Shortener.randomIndex w) n H
                (Shortener.randoms st + j * n)) as [Hl Ha].
    unfold Shortener.turn in Hc. rewrite <- Hc in Hl, Ha.
    unfold Shortener.isShortcodeValid, Shortener.alnum_test.
    rewrite Ha, Hl.
    destruct code; [cbn in Hl; lia|].
    cbn [String.eqb negb andb].
    apply andb_true_iff. split; apply Nat.leb_le; lia.
Qed.

(** With [AAAAAAA] taken, the second turn gives [BBBBBBB]. *)
Lemma generated_shortcode_witness :
  fst (Shortener.generateUniqueShortcode Shortener.quietWorld 5 7
         Shortener.oneCodeTaken) = Shortener.Resolved "BBBBBBB"
  /\ Shortener.isShortcodeValid "BBBBBBB" = true.
Proof.
  split; [reflexivity|].
  destruct (generated_shortcode Shortener.quietWorld 5 7
              Shortener.oneCodeTaken
              (snd (Shortener.generateUniqueShortcode Shortener.quietWorld 5 7
                      Shortener.oneCodeTaken))
              "BBBBBBB" eq_refl) as (_ & _ & _ & H).
  destruct H as (_ & _ & H).
  - intros k. unfold Shortener.quietWorld. cbn [Shortener.randomIndex].
    destruct (k <? 7)%nat; lia.
  - apply H. lia.
Defined.

(** X12. For a length below [2^32] the loop stops at the first turn whose
    shortcode is free or whose query fails: if the shortcodes of the turns
    before turn [j] are taken and their queries succeed, then with a free
    shortcode and a successful query at turn [j] the call returns that
    shortcode, and with a failing query at turn [j] it rejects with the
    error of the database; either way [j + 1] queries were run and
    [(j + 1) * length] random indices drawn.  For a length from [2^32] on
    [Array.from] throws a RangeError in the first turn: the call rejects
    with it, and no random index was drawn and no query run. *)
Theorem first_free_candidate (w : Shortener.World) (fuel n j : nat)
    (st : Shortener.State) :
  (Shortener.too_long n = false ->
   j < fuel ->
   (forall i, i < j ->
      Shortener.taken (Shortener.turn w st n i) (Shortener.shortened_urls st)
        = true
      /\ Shortener.dbError w (Shortener.statements st + i) = None) ->
   (Shortener.dbError w (Shortener.statements st + j) = None ->
    Shortener.taken (Shortener.turn w st n j) (Shortener.shortened_urls st)
      = false ->
    Shortener.generateUniqueShortcode w fuel n st
      = (Shortener.Resolved (Shortener.turn w st n j),
         Shortener.mkState (Shortener.shortened_urls st) (Shortener.clicks st)
           (Shortener.randoms st + S j * n) (Shortener.statements st + S j)
           (Shortener.dates st) (Shortener.logged st)))
   /\ (forall message,
         Shortener.dbError w (Shortener.statements st + j) = Some message ->
         Shortener.generateUniqueShortcode w fuel n st
           = (Shortener.Rejected (Shortener.DbFailure message),
              Shortener.mkState (Shortener.shortened_urls st)
                (Shortener.clicks st)
                (Shortener.randoms st + S j * n)
                (Shortener.statements st + S j)
                (Shortener.dates st) (Shortener.logged st))))
  /\ ((4294967296 <= Z.of_nat n)%Z ->
      Shortener.too_long n = true
      /\ Shortener.generateUniqueShortcode w fuel n st
         = (Shortener.Rejected Shortener.RangeError, st)).
Proof.
  split.
  2: { intros Hn.
       assert (Hlong : Shortener.too_long n = true)
         by (unfold Shortener.too_long; now apply Z.leb_le).
       split; [exact Hlong | now apply generate_too_long]. }
  intros Hlong Hj Hbefore.
  pose proof (generate_turns w n fuel st) as H.
  split.
  - intros Hok Hfree.
    destruct (Shortener.generateUniqueShortcode w fuel n st)
      as [[code| err |] st'].
    + destruct H as (_ & j' & _ & Hc & Hf & Hb & _ & Hs).
      assert (j' = j).
      { destruct (Nat.lt_trichotomy j' j) as [Hlt | [Heq | Hgt]];
          [|exact Heq|].
        - destruct (Hbefore j' Hlt) as [Ht _]. congruence.
        - specialize (Hb j Hgt). congruence. }
      subst j'. now rewrite Hc, Hs.
    + destruct H as [(Hno & _) | (_ & j' & m & _ & _ & Hdb & Hb & _)];
        [congruence|].
      exfalso.
      destruct (Nat.lt_trichotomy j' j) as [Hlt | [Heq | Hgt]].
      * destruct (Hbefore j' Hlt) as [_ Hn]. congruence.
      * subst j'. congruence.
      * destruct (Hb j Hgt) as [Ht _]. congruence.
    + destruct H as [_ H]. destruct (H j Hj) as [Ht _]. congruence.
  - intros message Herr.
    destruct (Shortener.generateUniqueShortcode w fuel n st)
      as [[code| err |] st'].
    + destruct H as (_ & j' & _ & Hc & Hf & Hb & Hdb & _). exfalso.
      destruct (Nat.lt_trichotomy j' j) as [Hlt | [Heq | Hgt]].
      * destruct (Hbefore j' Hlt) as [Ht _]. congruence.
      * subst j'. specialize (Hdb j (Nat.le_refl _)). congruence.
      * specialize (Hdb j ltac:(lia)). congruence.
    + destruct H as [(Hno & _) | (_ & j' & m & _ & He & Hdb & Hb & Hs)];
        [congruence|].
      assert (j' = j).
      { destruct (Nat.lt_trichotomy j' j) as [Hlt | [Heq | Hgt]];
          [|exact Heq|].
        - destruct (Hbefore j' Hlt) as [_ Hn]. congruence.
        - destruct (Hb j Hgt) as [_ Hn]. congruence. }
      subst j'. rewrite He, Hs. congruence.
    + destruct H as [_ H]. destruct (H j Hj) as [_ Hn]. congruence.
Qed.

(** The first turn is taken, the second is free. *)
Lemma first_free_candidate_witness :
  Shortener.too_long 7 = false
  /\ Shortener.generateUniqueShortcode Shortener.quietWorld 5 7
       Shortener.oneCodeTaken
     = (Shortener.Resolved "BBBBBBB",
        Shortener.mkState (Shortener.shortened_urls Shortener.oneCodeTaken)
          [] 14 2 0 []).
Proof.
  split; [reflexivity|].
  refine (proj1 (proj1 (first_free_candidate Shortener.quietWorld 5 7 1
                          Shortener.oneCodeTaken) eq_refl _ _)
            eq_refl eq_refl).
  - lia.
  - intros i Hi. assert (i = 0) by lia. subst i. split; reflexivity.
Defined.

(** X13. The loop has no bound of its own: if the shortcode of every turn is
    taken and no query fails, the call never returns, whatever the number of
    turns allowed, unless its length is [2^32] or more and [Array.from]
    throws in the first turn.  The loop runs for ever with length 0 as soon
    as the table holds the empty shortcode. *)
Theorem generator_may_not_terminate (w : Shortener.World) (n : nat)
    (st : Shortener.State) :
  (forall i,
     Shortener.taken (Shortener.turn w st n i) (Shortener.shortened_urls st)
       = true
     /\ Shortener.dbError w (Shortener.statements st + i) = None) ->
  forall fuel,
    fst (Shortener.generateUniqueShortcode w fuel n st)
      = if Shortener.too_long n
        then Shortener.Rejected Shortener.RangeError
        else Shortener.OutOfFuel.
Proof.
  intros Hall fuel. pose proof (generate_turns w n fuel st) as H.
  destruct (Shortener.too_long n) eqn:Hlong.
  { now rewrite generate_too_long. }
  destruct (Shortener.generateUniqueShortcode w fuel n st)
    as [[code| err |] st']; [| |reflexivity]; exfalso.
  - destruct H as (_ & j & _ & Hc & Hf & _). destruct (Hall j) as [Ht _].
    congruence.
  - destruct H as [(Hno & _) | (_ & j & m & _ & _ & Hdb & _)];
      [discriminate|].
    destruct (Hall j) as [_ Hn]. congruence.
Qed.

(** Length 0 with the empty shortcode taken. *)
Lemma generator_may_not_terminate_witness :
  fst (Shortener.generateUniqueShortcode Shortener.quietWorld 1000 0
         Shortener.emptyCodeTaken) = Shortener.OutOfFuel.
Proof.
  apply (generator_may_not_terminate Shortener.quietWorld 0
           Shortener.emptyCodeTaken).
  intros i. split; reflexivity.
Defined.

(** A [SHORTCODE_LENGTH] of [2^32]: every call rejects with the RangeError
    of [Array.from]. *)
Example array_length_limit (w : Shortener.World) (fuel : nat)
    (st : Shortener.State) :
  Shortener.generateUniqueShortcode w fuel
    (Shortener.to_length (Shortener.parseInt "4294967296")) st
  = (Shortener.Rejected Shortener.RangeError, st).
Proof.
  apply generate_too_long.
  change (Shortener.parseInt "4294967296") with (Some 4294967296%Z).
  unfold Shortener.too_long, Shortener.to_length.
  apply Z.leb_le. rewrite Z2Nat.id; lia.
Qed.

(* ===================================================================== *)
(** ** Trimming, and the client address *)
(* ===================================================================== *)

Lemma append_empty_r (s : string) : s ++ "" = s.
Proof. induction s as [|c s IH]; simpl; [reflexivity | now rewrite IH]. Qed.

Lemma rev_append_append (s a : string) :
  JS.rev_append s a = JS.reverse s ++ a.
Proof.
  unfold JS.reverse. revert a.
  assert (H : forall s a b, JS.rev_append s (a ++ b) = JS.rev_append s a ++ b).
  { clear. induction s as [|c s IH]; intros a b; simpl; [reflexivity|].
    now rewrite <- IH. }
  intros a. now rewrite <- H.
Qed.

Lemma rev_append_twice (s a b : string) :
  JS.rev_append (JS.rev_append s a) b = JS.rev_append a (s ++ b).
Proof.
  revert a b. induction s as [|c s IH]; intros a b; simpl; [reflexivity|].
  now rewrite IH.
Qed.

Lemma reverse_involutive (s : string) : JS.reverse (JS.reverse s) = s.
Proof.
  unfold JS.reverse. rewrite rev_append_twice. simpl. apply append_empty_r.
Qed.

Lemma trimStart_no_lead (s : string) : Shortener.no_lead (JS.trimStart s).
Proof.
  induction s as [|c s IH]; simpl; [exact I|].
  destruct (JS.is_space c) eqn:E; [exact IH | exact E].
Qed.

Lemma trimStart_fixed (s : string) : Shortener.no_lead s -> JS.trimStart s = s.
Proof. destruct s as [|c s]; simpl; [reflexivity | now intros ->]. Qed.

Lemma trimStart_snoc (s : string) (c : ascii) :
  JS.is_space c = false ->
  JS.trimStart (s ++ String c "") = JS.trimStart s ++ String c "".
Proof.
  intros Hc. induction s as [|d s IH]; simpl; [now rewrite Hc|].
  destruct (JS.is_space d); [exact IH | reflexivity].
Qed.

Lemma reverse_snoc (s : string) (c : ascii) :
  JS.reverse (s ++ String c "") = String c (JS.reverse s).
Proof.
  unfold JS.reverse.
  assert (H : forall a, JS.rev_append (s ++ String c "") a
                        = String c (JS.rev_append s a)).
  { induction s as [|d s IH]; intros a; simpl; [reflexivity | apply IH]. }
  apply H.
Qed.

Lemma trimEnd_no_lead (s : string) : Shortener.no_lead s -> Shortener.no_lead (JS.trimEnd s).
Proof.
  destruct s as [|c s]; [intros _; exact I|]. cbn [Shortener.no_lead]. intros Hc.
  unfold JS.trimEnd. unfold JS.reverse at 2. cbn [JS.rev_append].
  rewrite rev_append_append, trimStart_snoc, reverse_snoc by exact Hc.
  exact Hc.
Qed.

(** The result of [trim] neither starts nor ends with white space: trimming
    it again changes nothing. *)
Lemma trim_idempotent (s : string) : JS.trim (JS.trim s) = JS.trim s.
Proof.
  assert (Hlead : Shortener.no_lead (JS.trim s)).
  { unfold JS.trim. apply trimEnd_no_lead, trimStart_no_lead. }
  unfold JS.trim at 1. rewrite (trimStart_fixed _ Hlead).
  unfold JS.trim, JS.trimEnd. rewrite reverse_involutive.
  now rewrite (trimStart_fixed _ (trimStart_no_lead _)).
Qed.

Lemma has_comma_rev_append (s a : string) :
  Shortener.has_comma (JS.rev_append s a)
  = Shortener.has_comma s || Shortener.has_comma a.
Proof.
  revert a. induction s as [|c s IH]; intros a; simpl; [reflexivity|].
  rewrite IH. simpl. destruct (Ascii.eqb c ","), (Shortener.has_comma s);
    simpl; try reflexivity; now rewrite ?orb_true_r.
Qed.

Lemma has_comma_trimStart (s : string) :
  Shortener.has_comma s = false -> Shortener.has_comma (JS.trimStart s) = false.
Proof.
  induction s as [|c s IH]; simpl; [reflexivity|].
  intros H. apply orb_false_iff in H as [Hc Hs].
  destruct (JS.is_space c); [now apply IH | simpl; now rewrite Hc, Hs].
Qed.

Lemma has_comma_trim (s : string) :
  Shortener.has_comma s = false -> Shortener.has_comma (JS.trim s) = false.
Proof.
  intros H. unfold JS.trim, JS.trimEnd, JS.reverse.
  rewrite has_comma_rev_append, orb_false_r.
  apply has_comma_trimStart.
  rewrite has_comma_rev_append, orb_false_r.
  now apply has_comma_trimStart.
Qed.

Lemma has_comma_before_comma (s : string) :
  Shortener.has_comma (Shortener.before_comma s) = false.
Proof.
  induction s as [|c s IH]; simpl; [reflexivity|].
  destruct (Ascii.eqb c ",") eqn:E; simpl; [reflexivity | now rewrite E].
Qed.

(** X14. A non-empty [x-forwarded-for] header decides the client address
    alone, whatever [req.ip] and the socket say: the address is the part of
    the header before its first comma, trimmed, so it holds no comma and
    neither starts nor ends with white space, and it is the empty string
    when that part is blank.  Without the header, or with an empty one, the
    address is [req.ip] if that is a non-empty string and the address of
    the socket otherwise. *)
Theorem client_ip_from_header (req : Shortener.Request) :
  (forall header,
     Shortener.x_forwarded_for req = Some header -> header <> "" ->
     exists address,
       Shortener.getClientIp req = Some address
       /\ address = JS.trim (Shortener.before_comma header)
       /\ Shortener.has_comma address = false
       /\ JS.trim address = address
       /\ (JS.blank (Shortener.before_comma header) = true -> address = ""))
  /\ (JS.truthy (Shortener.x_forwarded_for req) = false ->
      Shortener.getClientIp req
        = if JS.truthy (Shortener.ip req) then Shortener.ip req
          else Shortener.remoteAddress req).
Proof.
  split.
  - intros header Hh Hne. unfold Shortener.getClientIp. rewrite Hh.
    cbn [JS.truthy]. apply String.eqb_neq in Hne. rewrite Hne. cbn [negb].
    eexists. split; [reflexivity|]. split; [reflexivity|].
    split; [apply has_comma_trim, has_comma_before_comma|].
    split; [apply trim_idempotent|].
    intros Hb. apply trim_length_zero in Hb.
    destruct (JS.trim (Shortener.before_comma header)); [reflexivity|].
    discriminate.
  - intros Hf. unfold Shortener.getClientIp. now rewrite Hf.
Qed.

(** A proxy chain: the first hop is the client. *)
Lemma client_ip_from_header_witness :
  exists address,
    Shortener.getClientIp
      (Shortener.mkRequest (Some " 203.0.113.7 , 10.0.0.1") None
         (Some "10.0.0.1") None) = Some address
    /\ address = "203.0.113.7".
Proof.
  destruct (proj1 (client_ip_from_header
                     (Shortener.mkRequest (Some " 203.0.113.7 , 10.0.0.1") None
                        (Some "10.0.0.1") None))
              " 203.0.113.7 , 10.0.0.1" eq_refl ltac:(discriminate))
    as (address & Hg & Ha & _).
  exists address. split; [exact Hg | exact Ha].
Defined.

(* ===================================================================== *)
(** ** The controller *)
(* ===================================================================== *)

Lemma taken_find (code : string) (rows : list Shortener.UrlRow) :
  Shortener.taken code rows = false
  <-> find (fun r => String.eqb (Shortener.shortcode r) code) rows = None.
Proof.
  unfold Shortener.taken. induction rows as [|r rows IH]; simpl; [tauto|].
  destruct (String.eqb (Shortener.shortcode r) code); simpl;
    [split; discriminate | exact IH].
Qed.

Lemma taken_In (code : string) (rows : list Shortener.UrlRow) :
  Shortener.taken code rows = false
  <-> ~ In code (map Shortener.shortcode rows).
Proof.
  unfold Shortener.taken. induction rows as [|r rows IH]; simpl; [tauto|].
  destruct (String.eqb_spec (Shortener.shortcode r) code); simpl.
  - split; [discriminate | tauto].
  - rewrite IH. tauto.
Qed.

(** What the end of [createShortUrl] does. *)
Lemma saveShortUrl_cases (w : Shortener.World) (config : Shortener.Config)
    (code theUrl : string) (minutes createdAt : Z) (st : Shortener.State) :
  let expiry := (createdAt + minutes * 60 * 1000)%Z in
  Shortener.clicks (snd (Shortener.saveShortUrl w config code theUrl minutes
                           createdAt st)) = Shortener.clicks st
  /\ ((fst (Shortener.saveShortUrl w config code theUrl minutes createdAt st)
         = Shortener.Resolved
             (Shortener.Json 201
                (Shortener.CreatedBody
                   ("http://" ++ Shortener.hostname config ++ "/" ++ code)
                   expiry))
       /\ Shortener.valid_time expiry = true
       /\ Shortener.dbError w (Shortener.statements st) = None
       /\ Shortener.taken code (Shortener.shortened_urls st) = false
       /\ Shortener.shortened_urls
            (snd (Shortener.saveShortUrl w config code theUrl minutes
                    createdAt st))
          = (Shortener.shortened_urls st
               ++ [Shortener.mkUrlRow code theUrl createdAt expiry])%list)
      \/ (exists message,
            fst (Shortener.saveShortUrl w config code theUrl minutes
                   createdAt st)
              = Shortener.Resolved
                  (Shortener.Json 500
                     (Shortener.ErrorBody "Internal Server Error" message))
            /\ (Shortener.valid_time expiry = false
                \/ Shortener.dbError w (Shortener.statements st) <> None
                \/ Shortener.taken code (Shortener.shortened_urls st) = true)
            /\ Shortener.shortened_urls
                 (snd (Shortener.saveShortUrl w config code theUrl minutes
                         createdAt st))
               = Shortener.shortened_urls st)).
Proof.
  cbv zeta. unfold Shortener.saveShortUrl, Shortener.insertUrl,
    Shortener.createFailed.
  destruct (Shortener.valid_time _) eqn:Hv; cbn [negb].
  2: { cbn. split; [reflexivity|]. right. eexists. repeat split. now left. }
  destruct (Shortener.dbError w (Shortener.statements st)) as [m|] eqn:He.
  { cbn. split; [reflexivity|]. right. eexists. repeat split.
    right; left; discriminate. }
  cbn [Shortener.shortcode].
  destruct (Shortener.taken code (Shortener.shortened_urls st)) eqn:Ht.
  { cbn. split; [reflexivity|]. right. eexists. repeat split.
    right; right; reflexivity. }
  cbn. split; [reflexivity|]. left. repeat split.
Qed.

(** Every call of [createShortUrl] that comes back is a creation or a
    refusal, and leaves the clicks alone. *)
Lemma createShortUrl_cases (w : Shortener.World) (config : Shortener.Config)
    (fuel : nat) (body : Shortener.CreateBody) (st st' : Shortener.State)
    (response : Shortener.Response) :
  Shortener.createShortUrl w config fuel body st
    = (Shortener.Resolved response, st') ->
  Shortener.clicks st' = Shortener.clicks st
  /\ (Shortener.created w config body st st' response
      \/ Shortener.refused st st' response).
Proof.
  unfold Shortener.createShortUrl.
  assert (Herr : forall status error message st0,
    (status = 400 \/ status = 409 \/ status = 500)%Z ->
    Shortener.clicks st0 = Shortener.clicks st ->
    Shortener.shortened_urls st0 = Shortener.shortened_urls st ->
    (Shortener.Resolved (Shortener.Json status
        (Shortener.ErrorBody error message)), st0)
      = (Shortener.Resolved response, st') ->
    Shortener.clicks st' = Shortener.clicks st
    /\ (Shortener.created w config body st st' response
        \/ Shortener.refused st st' response)).
  { intros status error message st0 Hs Hc Hu H. injection H as <- <-.
    split; [exact Hc|]. right. exists status, error, message. auto. }
  destruct (Shortener.url body) as [theUrl|] eqn:Hurl.
  2: { apply Herr; auto. }
  destruct (String.eqb_spec theUrl "") as [He|Hne]; cbn [orb].
  { apply Herr; auto. }
  destruct (Shortener.urlRegex_test config theUrl) eqn:Htest; cbn [negb].
  2: { apply Herr; auto. }
  destruct (match Shortener.validity body with
            | Some v => Shortener.parseValidity v
            | None => Shortener.defaultValidityMinutes config
            end) as [minutes|] eqn:Hmin.
  2: { apply Herr; auto. }
  destruct (Z.leb_spec minutes 0) as [Hle|Hpos].
  { apply Herr; auto. }
  unfold Shortener.newDate.
  set (st1 := Shortener.mkState _ _ _ _ (S (Shortener.dates st)) _).
  set (createdAt := Shortener.clock w (Shortener.dates st)).
  assert (Hsave : forall code st2,
    Shortener.shortened_urls st2 = Shortener.shortened_urls st ->
    Shortener.clicks st2 = Shortener.clicks st ->
    (JS.truthy (Shortener.customShortcode body) = true ->
       Shortener.customShortcode body = Some code
       /\ Shortener.isShortcodeValid code = true) ->
    (JS.truthy (Shortener.customShortcode body) = false ->
       exists j,
         code = Shortener.candidate (Shortener.randomIndex w)
                  (Shortener.randoms st
                   + j * Shortener.to_length (Shortener.shortcodeLength config))
                  (Shortener.to_length (Shortener.shortcodeLength config))) ->
    Shortener.saveShortUrl w config code theUrl minutes createdAt st2
      = (Shortener.Resolved response, st') ->
    Shortener.clicks st' = Shortener.clicks st
    /\ (Shortener.created w config body st st' response
        \/ Shortener.refused st st' response)).
  { intros code st2 Hu Hc Hcust Hgen Hs.
    destruct (saveShortUrl_cases w config code theUrl minutes createdAt st2)
      as [Hcl [(Hr & _ & _ & Ht & Hrows) | (m & Hr & _ & Hrows)]];
      rewrite Hs in *; cbn [fst snd] in *.
    - injection Hr as ->. split; [congruence|]. left.
      exists code, theUrl, minutes. rewrite Hrows, Hu, Hurl, Hmin.
      rewrite Hu in Ht. repeat split; auto; now apply Hcust.
    - injection Hr as ->. split; [congruence|]. right.
      exists 500%Z, "Internal Server Error", m. rewrite Hrows. auto. }
  destruct (JS.truthy (Shortener.customShortcode body)) eqn:Hcustom.
  - destruct (Shortener.customShortcode body) as [custom|] eqn:Hc;
      [|discriminate].
    destruct (Shortener.isShortcodeValid custom) eqn:Hvalid; cbn [negb].
    2: { apply Herr; auto. }
    unfold Shortener.dbGetUrl.
    destruct (Shortener.dbError w (Shortener.statements st1)) as [m|].
    { unfold Shortener.createFailed. apply Herr; auto. }
    destruct (find _ (Shortener.shortened_urls st1)) as [row|].
    { apply Herr; auto. }
    apply Hsave; auto. discriminate.
  - pose proof (generate_turns w
                  (Shortener.to_length (Shortener.shortcodeLength config))
                  fuel st1) as Hg.
    destruct (Shortener.generateUniqueShortcode w fuel _ st1)
      as [[code| err |] st2].
    + destruct Hg as (_ & j & _ & Hcode & _ & _ & _ & Hst2).
      apply Hsave; try (subst st2; reflexivity); [discriminate|].
      intros _. exists j. exact Hcode.
    + assert (Hrows : Shortener.shortened_urls st2 = Shortener.shortened_urls st
                      /\ Shortener.clicks st2 = Shortener.clicks st).
      { destruct Hg as [(_ & _ & ->) | (_ & j & m & _ & _ & _ & _ & ->)];
          split; reflexivity. }
      unfold Shortener.createFailed. apply Herr; auto; apply Hrows.
    + discriminate.
Qed.

(** X15. A call of [createShortUrl] that comes back either created a link
    or refused: in the first case the response is 201 with the short link
    [http://<hostname>/<shortcode>] and the expiry, which is the time of the
    call plus the validity in minutes, and the table has gained exactly the
    row of that link, under a shortcode that was free, for a URL that the
    configured test accepts; in the second case the response is an error
    with status 400, 409 or 500 and the table of links is as it was.  The
    clicks are never touched. *)
Theorem create_adds_one_row_or_nothing (w : Shortener.World)
    (config : Shortener.Config) (fuel : nat) (body : Shortener.CreateBody)
    (st st' : Shortener.State) (response : Shortener.Response) :
  Shortener.createShortUrl w config fuel body st
    = (Shortener.Resolved response, st') ->
  Shortener.clicks st' = Shortener.clicks st
  /\ (Shortener.created w config body st st' response
      \/ Shortener.refused st st' response).
Proof. apply createShortUrl_cases. Qed.

(** A custom shortcode, 45 minutes. *)
Lemma create_adds_one_row_or_nothing_witness :
  Shortener.created Shortener.quietWorld Shortener.someConfig
    Shortener.exampleBody Shortener.emptyTables
    (snd (Shortener.createShortUrl Shortener.quietWorld Shortener.someConfig
            5 Shortener.exampleBody Shortener.emptyTables))
    (Shortener.Json 201
       (Shortener.CreatedBody "http://localhost:3000/docs2024"
          1700002700000))
  \/ Shortener.refused Shortener.emptyTables
       (snd (Shortener.createShortUrl Shortener.quietWorld Shortener.someConfig
               5 Shortener.exampleBody Shortener.emptyTables))
       (Shortener.Json 201
          (Shortener.CreatedBody "http://localhost:3000/docs2024"
             1700002700000)).
Proof.
  exact (proj2 (create_adds_one_row_or_nothing Shortener.quietWorld
                  Shortener.someConfig 5 Shortener.exampleBody
                  Shortener.emptyTables _ _ eq_refl)).
Defined.

Lemma find_app_found {A : Type} (f : A -> bool) (l l' : list A) (x : A) :
  find f l = Some x -> find f (l ++ l') = Some x.
Proof.
  induction l as [|y l IH]; simpl; [discriminate|].
  destruct (f y); [auto | exact IH].
Qed.

Ltac split_handler :=
  repeat (match goal with
          | |- context [Shortener.dbError ?a ?b] =>
              destruct (Shortener.dbError a b) eqn:?
          | |- context [find ?f ?l] => destruct (find f l) eqn:?
          | |- context [Z.ltb ?a ?b] => destruct (Z.ltb a b) eqn:?
          end;
          cbn [Shortener.newDate Shortener.ran Shortener.insertClick
               Shortener.logEvent Shortener.statements Shortener.dates
               Shortener.shortened_urls Shortener.clicks fst snd]).

(** [redirectShortUrl], case by case. *)
Lemma redirectShortUrl_cases (w : Shortener.World) (code : string)
    (req : Shortener.Request) (st : Shortener.State) :
  Shortener.shortened_urls (snd (Shortener.redirectShortUrl w code req st))
    = Shortener.shortened_urls st
  /\ match Shortener.dbError w (Shortener.statements st) with
     | Some _ =>
         fst (Shortener.redirectShortUrl w code req st)
           = Shortener.Json 500
               (Shortener.ErrorBody "Internal Server Error"
                  "An unexpected error occurred.")
         /\ Shortener.clicks (snd (Shortener.redirectShortUrl w code req st))
            = Shortener.clicks st
     | None =>
         match Shortener.lookupUrl code st with
         | None =>
             fst (Shortener.redirectShortUrl w code req st)
               = Shortener.Json 404
                   (Shortener.ErrorBody "Not Found" "Short link not found.")
             /\ Shortener.clicks
                  (snd (Shortener.redirectShortUrl w code req st))
                = Shortener.clicks st
         | Some row =>
             if (Shortener.expires_at row
                 <? Shortener.clock w (Shortener.dates st))%Z
             then
               fst (Shortener.redirectShortUrl w code req st)
                 = Shortener.Json 410
                     (Shortener.ErrorBody "Gone" "Short link has expired.")
               /\ Shortener.clicks
                    (snd (Shortener.redirectShortUrl w code req st))
                  = Shortener.clicks st
             else
               fst (Shortener.redirectShortUrl w code req st)
                 = Shortener.Redirect 302 (Shortener.original_url row)
               /\ Shortener.clicks
                    (snd (Shortener.redirectShortUrl w code req st))
                  = match Shortener.dbError w (S (Shortener.statements st)) with
                    | Some _ => Shortener.clicks st
                    | None =>
                        (Shortener.clicks st
                           ++ [Shortener.mkClickRow code
                                 (Shortener.clock w (Shortener.dates st))
                                 (if JS.truthy (Shortener.referer req)
                                  then Shortener.referer req else None)
                                 (Shortener.getClientIp req)])%list
                    end
         end
     end.
Proof.
  unfold Shortener.redirectShortUrl, Shortener.dbGetUrl, Shortener.lookupUrl,
    Shortener.insertClick, Shortener.newDate, Shortener.ran.
  split_handler; repeat split.
Qed.

(** [getShortUrlStats], case by case. *)
Lemma getShortUrlStats_cases (w : Shortener.World) (code : string)
    (st : Shortener.State) :
  Shortener.shortened_urls (snd (Shortener.getShortUrlStats w code st))
    = Shortener.shortened_urls st
  /\ Shortener.clicks (snd (Shortener.getShortUrlStats w code st))
     = Shortener.clicks st
  /\ match Shortener.dbError w (Shortener.statements st) with
     | Some _ =>
         fst (Shortener.getShortUrlStats w code st)
           = Shortener.Json 500
               (Shortener.ErrorBody "Internal Server Error"
                  "An unexpected error occurred while retrieving statistics.")
     | None =>
         match Shortener.lookupUrl code st with
         | None =>
             fst (Shortener.getShortUrlStats w code st)
               = Shortener.Json 404
                   (Shortener.ErrorBody "Not Found"
                      "Short link statistics not found.")
         | Some row =>
             match Shortener.dbError w (S (Shortener.statements st)) with
             | Some _ =>
                 fst (Shortener.getShortUrlStats w code st)
                   = Shortener.Json 500
                       (Shortener.ErrorBody "Internal Server Error"
                          "An unexpected error occurred while retrieving statistics.")
             | None =>
                 fst (Shortener.getShortUrlStats w code st)
                   = Shortener.Json 200
                       (Shortener.StatsBody (Shortener.shortcode row)
                          (Shortener.original_url row)
                          (Shortener.created_at row)
                          (Shortener.expires_at row)
                          (List.length (Shortener.clicksOf code st))
                          (map (fun click =>
                                  Shortener.mkClickDetail
                                    (Shortener.click_timestamp click)
                                    (Shortener.referrer click)
                                    (Shortener.ip_address click))
                             (Shortener.clicksOf code st)))
             end
         end
     end.
Proof.
  unfold Shortener.getShortUrlStats, Shortener.dbGetUrl,
    Shortener.dbAllClicks, Shortener.lookupUrl, Shortener.clicksOf,
    Shortener.ran.
  split_handler; repeat split. now rewrite length_map.
Qed.

(** A handler call only appends: at most one link, under a shortcode that
    was free, and some clicks. *)
Lemma step_appends (st st' : Shortener.State) :
  Shortener.step st st' ->
  exists links newClicks,
    Shortener.shortened_urls st' = (Shortener.shortened_urls st ++ links)%list
    /\ Shortener.clicks st' = (Shortener.clicks st ++ newClicks)%list
    /\ (links = []
        \/ exists row, links = [row]
             /\ Shortener.taken (Shortener.shortcode row)
                  (Shortener.shortened_urls st) = false).
Proof.
  intros [w config fuel body st0 response st1 Hc | w code req st0 | w code st0].
  - destruct (createShortUrl_cases _ _ _ _ _ _ _ Hc) as [Hcl [Hcr | Hre]].
    + destruct Hcr as (c & u & m & _ & _ & _ & _ & _ & _ & Ht & Hrows & _).
      exists [Shortener.mkUrlRow c u (Shortener.clock w (Shortener.dates st0))
                (Shortener.clock w (Shortener.dates st0) + m * 60 * 1000)], [].
      rewrite Hrows, Hcl, app_nil_r.
      split; [reflexivity|]. split; [reflexivity|].
      right. eexists; split; [reflexivity | exact Ht].
    + destruct Hre as (s & e & m & _ & _ & Hrows).
      exists [], []. rewrite Hrows, Hcl, !app_nil_r. auto.
  - destruct (redirectShortUrl_cases w code req st0) as [Hu Hc].
    exists []. rewrite Hu, app_nil_r.
    destruct (Shortener.dbError w (Shortener.statements st0));
      [destruct Hc as [_ ->]; exists []; rewrite app_nil_r; auto|].
    destruct (Shortener.lookupUrl code st0) as [row|];
      [|destruct Hc as [_ ->]; exists []; rewrite app_nil_r; auto].
    destruct (Z.ltb _ _);
      [destruct Hc as [_ ->]; exists []; rewrite app_nil_r; auto|].
    destruct Hc as [_ ->].
    destruct (Shortener.dbError w (S (Shortener.statements st0)));
      [exists []; rewrite app_nil_r; auto|].
    eexists. split; [reflexivity|]. split; [reflexivity | now left].
  - destruct (getShortUrlStats_cases w code st0) as (Hu & Hc & _).
    exists [], []. rewrite Hu, Hc, !app_nil_r. auto.
Qed.

Lemma NoDup_snoc {A : Type} (l : list A) (x : A) :
  NoDup l -> ~ In x l -> NoDup (l ++ [x]).
Proof.
  induction 1 as [|y l Hy Hl IH]; intros Hx; cbn.
  - constructor; [tauto | constructor].
  - constructor.
    + rewrite in_app_iff. cbn. cbn in Hx. intuition congruence.
    + apply IH. cbn in Hx. tauto.
Qed.

(** Any number of handler calls only append to the two tables. *)
Lemma steps_append_only (st st' : Shortener.State) :
  Shortener.steps st st' ->
  exists links newClicks,
    Shortener.shortened_urls st' = (Shortener.shortened_urls st ++ links)%list
    /\ Shortener.clicks st' = (Shortener.clicks st ++ newClicks)%list.
Proof.
  induction 1 as [st | st1 st2 st3 Hstep _ (links & cl & Hu & Hc)].
  - exists [], []. now rewrite !app_nil_r.
  - destruct (step_appends _ _ Hstep) as (links0 & cl0 & Hu0 & Hc0 & _).
    exists (links0 ++ links)%list, (cl0 ++ cl)%list.
    now rewrite Hu, Hc, Hu0, Hc0, !app_assoc.
Qed.

(** X16. Whatever handlers are called, in whatever order and worlds, a link
    once stored stays as it is, the clicks recorded for a shortcode are only
    ever added to at the end, and shortcodes that were distinct remain
    distinct. *)
Theorem links_persist (st st' : Shortener.State) :
  Shortener.steps st st' ->
  (forall code row,
     Shortener.lookupUrl code st = Some row ->
     Shortener.lookupUrl code st' = Some row)
  /\ (forall code, exists later,
        Shortener.clicksOf code st'
          = (Shortener.clicksOf code st ++ later)%list)
  /\ (NoDup (map Shortener.shortcode (Shortener.shortened_urls st)) ->
      NoDup (map Shortener.shortcode (Shortener.shortened_urls st'))).
Proof.
  induction 1 as [st | st1 st2 st3 Hstep _ (IHl & IHc & IHn)].
  - repeat split; auto. intros code. exists []. now rewrite app_nil_r.
  - destruct (step_appends _ _ Hstep) as (links & newClicks & Hu & Hc & Hl).
    repeat split.
    + intros code row Hf. apply IHl. unfold Shortener.lookupUrl in *.
      rewrite Hu. now apply find_app_found.
    + intros code. destruct (IHc code) as [later Hlater].
      unfold Shortener.clicksOf in *. rewrite Hlater, Hc, filter_app.
      rewrite <- app_assoc. eexists; reflexivity.
    + intros Hnd. apply IHn. rewrite Hu, map_app.
      destruct Hl as [-> | (row & -> & Ht)]; [now rewrite app_nil_r|].
      cbn [map]. apply taken_In in Ht. now apply NoDup_snoc.
Qed.

(** A run that creates a link and then follows it. *)
Lemma links_persist_witness :
  Shortener.lookupUrl "docs2024"
    (snd (Shortener.redirectShortUrl Shortener.quietWorld "docs2024"
            Shortener.plainRequest
            (snd (Shortener.createShortUrl Shortener.quietWorld
                    Shortener.someConfig 5 Shortener.exampleBody
                    Shortener.emptyTables))))
  = Some (Shortener.mkUrlRow "docs2024" "http://example.org/page"
            1700000000000 1700002700000).
Proof.
  apply (proj1 (links_persist
                  (snd (Shortener.createShortUrl Shortener.quietWorld
                          Shortener.someConfig 5 Shortener.exampleBody
                          Shortener.emptyTables))
                  _
                  (Shortener.steps_more _ _ _
                     (Shortener.step_redirect Shortener.quietWorld "docs2024"
                        Shortener.plainRequest _)
                     (Shortener.steps_none _)))).
  reflexivity.
Defined.

Lemma find_app_new {A : Type} (f : A -> bool) (l : list A) (x : A) :
  find f l = None -> f x = true -> find f (l ++ [x]) = Some x.
Proof.
  induction l as [|y l IH]; cbn; intros Hn Hx; [now rewrite Hx|].
  destruct (f y); [discriminate | now apply IH].
Qed.

(** X17. A link that [createShortUrl] has announced with status 201 can be
    followed afterwards, whatever calls came in between: when the lookup
    succeeds, [redirectShortUrl] for its shortcode answers 302 with the URL
    of the request as long as the clock has not passed the announced expiry
    (the instant of expiry included), and answers 410 without recording a
    click once the clock is past it. *)
Theorem created_link_redirects (w : Shortener.World)
    (config : Shortener.Config) (fuel : nat) (body : Shortener.CreateBody)
    (st st1 st2 : Shortener.State) (shortlink : string) (expiry : Z) :
  Shortener.createShortUrl w config fuel body st
    = (Shortener.Resolved
         (Shortener.Json 201 (Shortener.CreatedBody shortlink expiry)), st1) ->
  Shortener.steps st1 st2 ->
  exists code theUrl,
    shortlink = "http://" ++ Shortener.hostname config ++ "/" ++ code
    /\ Shortener.url body = Some theUrl
    /\ forall w2 req,
         Shortener.dbError w2 (Shortener.statements st2) = None ->
         ((Shortener.clock w2 (Shortener.dates st2) <= expiry)%Z ->
          fst (Shortener.redirectShortUrl w2 code req st2)
            = Shortener.Redirect 302 theUrl)
         /\ ((expiry < Shortener.clock w2 (Shortener.dates st2))%Z ->
             fst (Shortener.redirectShortUrl w2 code req st2)
               = Shortener.Json 410
                   (Shortener.ErrorBody "Gone" "Short link has expired.")
             /\ Shortener.clicks
                  (snd (Shortener.redirectShortUrl w2 code req st2))
                = Shortener.clicks st2).
Proof.
  intros Hc Hsteps.
  destruct (createShortUrl_cases _ _ _ _ _ _ _ Hc) as [_ [Hcr | Hre]].
  2: { destruct Hre as (s & e & m & Hr & _). discriminate. }
  destruct Hcr as (code & theUrl & minutes & Hurl & _ & _ & _ & _ & Hr & Ht
                   & Hrows & _).
  injection Hr as -> ->. exists code, theUrl.
  split; [reflexivity|]. split; [exact Hurl|].
  intros w2 req Hdb.
  assert (Hfind : Shortener.lookupUrl code st2
            = Some (Shortener.mkUrlRow code theUrl
                      (Shortener.clock w (Shortener.dates st))
                      (Shortener.clock w (Shortener.dates st)
                       + minutes * 60 * 1000))).
  { destruct (steps_append_only _ _ Hsteps) as (links & cl & Hu & _).
    unfold Shortener.lookupUrl. rewrite Hu, Hrows.
    apply find_app_found, find_app_new.
    - now apply taken_find.
    - cbn. apply String.eqb_refl. }
  destruct (redirectShortUrl_cases w2 code req st2) as [_ Hcases].
  rewrite Hdb, Hfind in Hcases. cbn [Shortener.expires_at
    Shortener.original_url] in Hcases.
  split; intros Hclock.
  - apply Z.ltb_ge in Hclock. rewrite Hclock in Hcases. apply Hcases.
  - apply Z.ltb_lt in Hclock. rewrite Hclock in Hcases. exact Hcases.
Qed.

(** The link of [exampleBody], followed one hour later, has expired. *)
Lemma created_link_redirects_witness :
  fst (Shortener.redirectShortUrl Shortener.quietWorld "docs2024"
         Shortener.plainRequest
         (snd (Shortener.createShortUrl Shortener.quietWorld
                 Shortener.someConfig 5 Shortener.exampleBody
                 Shortener.emptyTables)))
    = Shortener.Redirect 302 "http://example.org/page"
  /\ fst (Shortener.redirectShortUrl Shortener.laterWorld "docs2024"
            Shortener.plainRequest
            (snd (Shortener.createShortUrl Shortener.quietWorld
                    Shortener.someConfig 5 Shortener.exampleBody
                    Shortener.emptyTables)))
     = Shortener.Json 410
         (Shortener.ErrorBody "Gone" "Short link has expired.").
Proof.
  destruct (created_link_redirects Shortener.quietWorld Shortener.someConfig
              5 Shortener.exampleBody Shortener.emptyTables _ _
              "http://localhost:3000/docs2024" 1700002700000 eq_refl
              (Shortener.steps_none _))
    as (code & theUrl & Hlink & Hurl & Hredirect).
  injection Hlink as <-. injection Hurl as <-.
  split.
  - apply (Hredirect Shortener.quietWorld Shortener.plainRequest eq_refl).
    cbn. lia.
  - apply (Hredirect Shortener.laterWorld Shortener.plainRequest eq_refl).
    cbn. lia.
Defined.

(** X18. [redirectShortUrl] answers by the first of these that applies: 500
    if the lookup fails; 404 if the shortcode is unknown; 410 if the clock is
    past the expiry of the link; and otherwise 302 with the stored URL,
    whether or not the click could be recorded.  Only in the last case, and
    only if the insertion succeeds, one click is added, with the time of the
    call, the referer and the address given by [getClientIp]; the links are
    never changed. *)
Theorem redirect_outcome (w : Shortener.World) (code : string)
    (req : Shortener.Request) (st : Shortener.State) :
  Shortener.shortened_urls (snd (Shortener.redirectShortUrl w code req st))
    = Shortener.shortened_urls st
  /\ (Shortener.dbError w (Shortener.statements st) <> None ->
      fst (Shortener.redirectShortUrl w code req st)
        = Shortener.Json 500
            (Shortener.ErrorBody "Internal Server Error"
               "An unexpected error occurred.")
      /\ Shortener.clicks (snd (Shortener.redirectShortUrl w code req st))
         = Shortener.clicks st)
  /\ (Shortener.dbError w (Shortener.statements st) = None ->
      (Shortener.lookupUrl code st = None ->
       fst (Shortener.redirectShortUrl w code req st)
         = Shortener.Json 404
             (Shortener.ErrorBody "Not Found" "Short link not found.")
       /\ Shortener.clicks (snd (Shortener.redirectShortUrl w code req st))
          = Shortener.clicks st)
      /\ (forall row,
            Shortener.lookupUrl code st = Some row ->
            ((Shortener.expires_at row
              < Shortener.clock w (Shortener.dates st))%Z ->
             fst (Shortener.redirectShortUrl w code req st)
               = Shortener.Json 410
                   (Shortener.ErrorBody "Gone" "Short link has expired.")
             /\ Shortener.clicks
                  (snd (Shortener.redirectShortUrl w code req st))
                = Shortener.clicks st)
            /\ ((Shortener.clock w (Shortener.dates st)
                 <= Shortener.expires_at row)%Z ->
                fst (Shortener.redirectShortUrl w code req st)
                  = Shortener.Redirect 302 (Shortener.original_url row)
                /\ (Shortener.dbError w (S (Shortener.statements st)) = None ->
                    Shortener.clicks
                      (snd (Shortener.redirectShortUrl w code req st))
                    = (Shortener.clicks st
                         ++ [Shortener.mkClickRow code
                               (Shortener.clock w (Shortener.dates st))
                               (if JS.truthy (Shortener.referer req)
                                then Shortener.referer req else None)
                               (Shortener.getClientIp req)])%list)
                /\ (Shortener.dbError w (S (Shortener.statements st)) <> None ->
                    Shortener.clicks
                      (snd (Shortener.redirectShortUrl w code req st))
                    = Shortener.clicks st)))).
Proof.
  destruct (redirectShortUrl_cases w code req st) as [Hu Hc].
  split; [exact Hu|]. split.
  - intros Herr.
    destruct (Shortener.dbError w (Shortener.statements st)); [exact Hc|].
    now elim Herr.
  - intros Hok. rewrite Hok in Hc. split.
    + intros Hnone. now rewrite Hnone in Hc.
    + intros row Hrow. rewrite Hrow in Hc. split; intros Hclock.
      * apply Z.ltb_lt in Hclock. now rewrite Hclock in Hc.
      * apply Z.ltb_ge in Hclock. rewrite Hclock in Hc.
        destruct Hc as [Hr Hcl]. split; [exact Hr|].
        split; intros Hins.
        -- now rewrite Hins in Hcl.
        -- destruct (Shortener.dbError w (S (Shortener.statements st)));
             [exact Hcl | now elim Hins].
Qed.

(** The click cannot be recorded, the visitor is redirected all the same. *)
Lemma redirect_outcome_witness :
  fst (Shortener.redirectShortUrl Shortener.secondStatementFails "AAAAAAA"
         Shortener.plainRequest Shortener.oneCodeTaken)
    = Shortener.Redirect 302 "http://localhost"
  /\ Shortener.clicks
       (snd (Shortener.redirectShortUrl Shortener.secondStatementFails
               "AAAAAAA" Shortener.plainRequest Shortener.oneCodeTaken))
     = [].
Proof.
  destruct (proj2 (proj2 (redirect_outcome Shortener.secondStatementFails
                            "AAAAAAA" Shortener.plainRequest
                            Shortener.oneCodeTaken)) eq_refl)
    as [_ Hrow].
  destruct (Hrow _ eq_refl) as [_ Hfresh].
  destruct Hfresh as (Hr & _ & Hfail); [cbn; lia|].
  split; [exact Hr|]. apply Hfail. discriminate.
Defined.

(* ===================================================================== *)
(** ** Numbers in text *)
(* ===================================================================== *)

Lemma digit_value_of_digit (k : nat) :
  k < 10 ->
  Shortener.digit_value (ascii_of_nat (48 + k)) = Some (Z.of_nat k).
Proof.
  intros Hk. do 10 (destruct k as [|k]; [reflexivity|]). lia.
Qed.

(** A digit is no white space and no sign. *)
Lemma digit_is_plain (c : ascii) (d : Z) :
  Shortener.digit_value c = Some d ->
  JS.is_space c = false /\ Ascii.eqb c "-" = false /\ Ascii.eqb c "+" = false.
Proof.
  destruct c as [[] [] [] [] [] [] [] []]; cbn; intros H;
    try discriminate; repeat split.
Qed.

Lemma digits_fuel_append (fuel : nat) : forall n acc rest,
  Shortener.digits_fuel fuel n acc ++ rest
  = Shortener.digits_fuel fuel n (acc ++ rest).
Proof.
  induction fuel as [|fuel IH]; intros n acc rest; cbn; [reflexivity|].
  destruct (n / 10 =? 0)%Z; [reflexivity | apply IH].
Qed.

Lemma digits_fuel_unfold (fuel : nat) (n : Z) (acc : string) :
  Shortener.digits_fuel (S fuel) n acc
  = let acc' := String (ascii_of_nat (48 + Z.to_nat (n mod 10))) acc in
    if (n / 10 =? 0)%Z then acc'
    else Shortener.digits_fuel fuel (n / 10) acc'.
Proof. reflexivity. Qed.

(** Reading back the digits that were written gives the number. *)
Lemma parse_digits_fuel (fuel : nat) : forall n acc,
  (0 <= n < 2 ^ Z.of_nat (S fuel))%Z ->
  Shortener.parse_digits (Shortener.digits_fuel (S fuel) n acc) None
  = Shortener.parse_digits acc (Some n).
Proof.
  induction fuel as [|fuel IH]; intros n acc Hn;
    rewrite digits_fuel_unfold; cbv zeta;
    pose proof (Z.mod_pos_bound n 10 ltac:(lia)) as Hm;
    pose proof (Z.div_mod n 10 ltac:(lia)) as Hd;
    destruct (Z.eqb_spec (n / 10) 0) as [Hz|Hnz].
  - cbn [Shortener.parse_digits].
    rewrite digit_value_of_digit by lia. do 2 f_equal. lia.
  - exfalso. change (2 ^ Z.of_nat 1)%Z with 2%Z in Hn.
    assert (n / 10 = 0)%Z by (apply Z.div_small; lia). contradiction.
  - cbn [Shortener.parse_digits].
    rewrite digit_value_of_digit by lia. do 2 f_equal. lia.
  - rewrite IH.
    + cbn [Shortener.parse_digits].
      rewrite digit_value_of_digit by lia. do 2 f_equal. lia.
    + rewrite Nat2Z.inj_succ, Z.pow_succ_r in Hn by lia.
      split; [apply Z.div_pos; lia|].
      apply Z.div_lt_upper_bound; lia.
Qed.

Lemma digits_fuel_head (fuel : nat) : forall n acc,
  (0 <= n)%Z ->
  exists c s d,
    Shortener.digits_fuel (S fuel) n acc = String c s
    /\ Shortener.digit_value c = Some d.
Proof.
  induction fuel as [|fuel IH]; intros n acc Hn;
    rewrite digits_fuel_unfold; cbv zeta;
    pose proof (Z.mod_pos_bound n 10 ltac:(lia)) as Hm.
  - destruct (n / 10 =? 0)%Z; do 3 eexists;
      (split; [reflexivity | apply digit_value_of_digit; lia]).
  - destruct (n / 10 =? 0)%Z.
    + do 3 eexists; split; [reflexivity | apply digit_value_of_digit; lia].
    + apply IH. apply Z.div_pos; lia.
Qed.

Lemma trimStart_blank_prefix (pad s : string) :
  JS.blank pad = true -> JS.trimStart (pad ++ s) = JS.trimStart s.
Proof.
  induction pad as [|c pad IH]; cbn; [reflexivity|].
  intros H. apply andb_true_iff in H as [Hc Hp]. now rewrite Hc, IH.
Qed.

Lemma log2_bound (n : Z) :
  (0 <= n)%Z -> (0 <= n < 2 ^ Z.of_nat (S (Z.to_nat (Z.log2 n))))%Z.
Proof.
  intros Hn. split; [exact Hn|].
  rewrite Nat2Z.inj_succ, Z2Nat.id by apply Z.log2_nonneg.
  destruct (Z.eq_dec n 0) as [->|Hz]; [reflexivity|].
  apply Z.log2_spec. lia.
Qed.

(** Below [2^53] a whole number is a double of its own. *)
Lemma nearest_small (m : Z) : (m < 2 ^ 53)%Z -> Shortener.nearest m = m.
Proof.
  intros Hm. unfold Shortener.nearest.
  destruct (Z.ltb_spec m (2 ^ 53)) as [_|Hge]; [reflexivity | lia].
Qed.

Lemma to_double_safe (n : Z) :
  Shortener.safe_integer n -> Shortener.to_double n = n.
Proof.
  unfold Shortener.safe_integer, Shortener.to_double. intros Hn.
  destruct (Z.ltb_spec n 0); rewrite nearest_small; lia.
Qed.

(** It is printed digit by digit. *)
Lemma print_small (m : Z) :
  (0 <= m < 2 ^ 53)%Z -> Shortener.print m = Shortener.digits m.
Proof.
  intros Hm. unfold Shortener.print.
  assert (Hinf : (2 ^ 53 <= Shortener.infinity)%Z)
    by (unfold Shortener.infinity; apply Z.pow_le_mono_r; lia).
  destruct (Z.leb_spec Shortener.infinity m) as [Hge|_]; [lia|].
  destruct (Z.ltb_spec m (2 ^ 53)) as [_|Hge]; [reflexivity | lia].
Qed.

Lemma parseInt_decimal (n : Z) (rest : string) :
  Shortener.safe_integer n ->
  match rest with
  | EmptyString => True
  | String c _ => Shortener.digit_value c = None
  end ->
  Shortener.parseInt (Shortener.decimal n ++ rest) = Some n.
Proof.
  intros Hsafe Hrest.
  assert (Hstop : forall m, Shortener.parse_digits rest (Some m) = Some m).
  { intros m. destruct rest as [|c rest']; cbn; [reflexivity|].
    now rewrite Hrest. }
  assert (Hnat : forall m fuel, (0 <= m < 2 ^ Z.of_nat (S fuel))%Z ->
    exists c s d,
      Shortener.digits_fuel (S fuel) m "" ++ rest = String c s
      /\ Shortener.digit_value c = Some d
      /\ Shortener.parse_digits (String c s) None = Some m).
  { intros m fuel Hm. rewrite digits_fuel_append. cbn [append].
    destruct (digits_fuel_head fuel m rest (proj1 Hm)) as (c & s & d & Hh & Hd).
    exists c, s, d. rewrite <- Hh, parse_digits_fuel, Hstop by exact Hm.
    auto. }
  rewrite <- (to_double_safe n Hsafe) at 2.
  unfold Shortener.safe_integer in Hsafe.
  unfold Shortener.parseInt, Shortener.decimal.
  destruct (Z.ltb_spec n 0) as [Hneg|Hpos];
    rewrite print_small by lia; unfold Shortener.digits.
  - cbn [append JS.trimStart].
    replace (JS.is_space "-") with false by reflexivity.
    replace (Ascii.eqb "-" "-") with true by reflexivity.
    destruct (Hnat (- n)%Z _ (log2_bound (- n) ltac:(lia)))
      as (c & s & d & Hh & Hd & Hp).
    rewrite Hh, Hp. cbn [option_map]. do 2 f_equal. lia.
  - destruct (Hnat n _ (log2_bound n Hpos)) as (c & s & d & Hh & Hd & Hp).
    rewrite Hh. destruct (digit_is_plain c d Hd) as (Hs & Hm & Hpl).
    cbn [JS.trimStart]. rewrite Hs, Hm, Hpl, Hp. reflexivity.
Qed.

(** X19. [parseInt] reads back the decimal text of any whole number, and it
    does so on a lenient input: white space before the number and anything
    that does not start with a digit after it are ignored.  A validity of
    45 can therefore be sent as the number 45, as the text 45 or as the text
    [45 minutes]. *)
Theorem parseInt_reads_decimal (n : Z) (pad rest : string) :
  Shortener.safe_integer n ->
  JS.blank pad = true ->
  match rest with
  | EmptyString => True
  | String c _ => Shortener.digit_value c = None
  end ->
  Shortener.parseInt (pad ++ Shortener.decimal n ++ rest) = Some n
  /\ Shortener.parseValidity (Shortener.VNumber n) = Some n
  /\ Shortener.parseValidity
       (Shortener.VString (pad ++ Shortener.decimal n ++ rest)) = Some n.
Proof.
  intros Hsafe Hpad Hrest.
  assert (Hmain : Shortener.parseInt (pad ++ Shortener.decimal n ++ rest)
                  = Some n).
  { pose proof (parseInt_decimal n rest Hsafe Hrest) as H.
    unfold Shortener.parseInt in *.
    now rewrite trimStart_blank_prefix by exact Hpad. }
  split; [exact Hmain|]. split; [|exact Hmain].
  unfold Shortener.parseValidity. rewrite (to_double_safe n Hsafe).
  rewrite <- (append_empty_r (Shortener.decimal n)).
  now apply parseInt_decimal.
Qed.

(** The text [ 45 minutes]. *)
Lemma parseInt_reads_decimal_witness :
  Shortener.safe_integer 45
  /\ JS.blank " " = true
  /\ Shortener.parseInt " 45 minutes" = Some 45%Z.
Proof.
  assert (H : Shortener.safe_integer 45)
    by (unfold Shortener.safe_integer; lia).
  split; [exact H|]. split; [reflexivity|].
  exact (proj1 (parseInt_reads_decimal 45 " " " minutes" H eq_refl eq_refl)).
Defined.

(** Beyond the safe integers: [2^53 + 1] is read as [2^53]; [2^60] is
    printed with the 16 digits that tell it from its neighbours; a number
    from [10^21] on is printed in exponent form, of which [parseInt] reads
    the first digit; a number too large for a double is [Infinity], which
    [parseInt] does not read. *)
Example numbers_beyond_safe_integers :
  Shortener.parseInt "9007199254740993" = Some 9007199254740992%Z
  /\ Shortener.decimal (2 ^ 60) = "1152921504606847000"
  /\ Shortener.decimal (10 ^ 21) = "1e+21"
  /\ Shortener.parseValidity (Shortener.VNumber (10 ^ 21)) = Some 1%Z
  /\ Shortener.decimal (Shortener.to_double (10 ^ 23)) = "1e+23"
  /\ Shortener.decimal (Shortener.to_double 123456789012345678901234567890)
     = "1.2345678901234568e+29"
  /\ Shortener.parseValidity (Shortener.VNumber (10 ^ 400)) = None.
Proof. vm_compute. repeat split. Qed.

(** A validity of [1e21] makes a link of one minute. *)
Example validity_in_exponent_form :
  fst (Shortener.createShortUrl Shortener.quietWorld Shortener.someConfig 5
         (Shortener.mkCreateBody (Some "http://example.org/page")
            (Some (Shortener.VNumber (10 ^ 21))) (Some "docs2024"))
         Shortener.emptyTables)
  = Shortener.Resolved
      (Shortener.Json 201
         (Shortener.CreatedBody "http://localhost:3000/docs2024"
            (1700000000000 + 1 * 60 * 1000))).
Proof. vm_compute. reflexivity. Qed.

(** From [2^53] on the nearest double is at least [2^53]. *)
Lemma nearest_large (x : Z) :
  (2 ^ 53 <= x)%Z -> (2 ^ 53 <= Shortener.nearest x)%Z.
Proof.
  intros Hx. unfold Shortener.nearest.
  destruct (Z.ltb_spec x (2 ^ 53)) as [Hlt|_]; [lia|]. cbv zeta.
  assert (Hlog : (53 <= Z.log2 x)%Z).
  { change 53%Z with (Z.log2 (2 ^ 53)). apply Z.log2_le_mono. exact Hx. }
  set (e := (Z.log2 x - 52)%Z).
  assert (He : (1 <= e)%Z) by (unfold e; lia).
  assert (Hpow : (2 ^ 52 * 2 ^ e <= x)%Z).
  { rewrite <- Z.pow_add_r by lia.
    replace (52 + e)%Z with (Z.log2 x) by (unfold e; lia).
    apply Z.log2_spec. lia. }
  assert (Hpe : (2 <= 2 ^ e)%Z).
  { change 2%Z with (2 ^ 1)%Z at 1. apply Z.pow_le_mono_r; lia. }
  assert (Hq : (2 ^ 52 <= x / 2 ^ e)%Z)
    by (apply Z.div_le_lower_bound; lia).
  assert (Hinf : (2 ^ 53 <= Shortener.infinity)%Z)
    by (unfold Shortener.infinity; apply Z.pow_le_mono_r; lia).
  apply Z.min_glb; [|exact Hinf].
  destruct (_ || _); nia.
Qed.

(** The arithmetic of [createShortUrl] may be done in [Z]: with a positive
    validity and a reading of the clock after 1970 that a [Date] holds, the
    sum computed in doubles is a time value exactly when the sum in [Z] is
    one, and then the two are the same number. *)
Lemma expiry_is_exact (createdAt minutes : Z) :
  (0 < minutes)%Z ->
  (0 <= createdAt <= 8640000000000000)%Z ->
  Shortener.valid_time (Shortener.expiry_in_doubles createdAt minutes)
    = Shortener.valid_time (createdAt + minutes * 60 * 1000)
  /\ (Shortener.valid_time (createdAt + minutes * 60 * 1000) = true ->
      Shortener.expiry_in_doubles createdAt minutes
        = (createdAt + minutes * 60 * 1000)%Z).
Proof.
  intros Hm Hc. unfold Shortener.expiry_in_doubles, Shortener.valid_time.
  assert (Hpos : forall x, (0 <= x)%Z ->
            Shortener.to_double x = Shortener.nearest x).
  { intros x Hx. unfold Shortener.to_double.
    destruct (Z.ltb_spec x 0); [lia | reflexivity]. }
  assert (Hbound : forall x, (0 <= x)%Z ->
            (x < 2 ^ 53 /\ Shortener.nearest x = x)%Z
            \/ (2 ^ 53 <= x /\ 2 ^ 53 <= Shortener.nearest x)%Z).
  { intros x Hx. destruct (Z.lt_ge_cases x (2 ^ 53)) as [Hlt|Hge].
    - left. split; [exact Hlt | now apply nearest_small].
    - right. split; [exact Hge | now apply nearest_large]. }
  rewrite (Hpos (minutes * 60)%Z) by lia.
  destruct (Hbound (minutes * 60)%Z ltac:(lia)) as [[Ha Ea]|[Ha Ea]].
  - rewrite Ea. rewrite (Hpos (minutes * 60 * 1000)%Z) by lia.
    destruct (Hbound (minutes * 60 * 1000)%Z ltac:(lia)) as [[Hp Ep]|[Hp Ep]].
    + rewrite Ep. rewrite (Hpos (createdAt + minutes * 60 * 1000)%Z) by lia.
      destruct (Hbound (createdAt + minutes * 60 * 1000)%Z ltac:(lia))
        as [[Hs Es]|[Hs Es]].
      * rewrite Es. split; reflexivity.
      * split.
        -- transitivity false; [|symmetry]; apply Z.leb_gt; lia.
        -- intros Hv. apply Z.leb_le in Hv. lia.
    + set (p := Shortener.nearest (minutes * 60 * 1000)) in *.
      rewrite (Hpos (createdAt + p)%Z) by lia.
      pose proof (nearest_large (createdAt + p) ltac:(lia)) as Hs.
      split.
      * transitivity false; [|symmetry]; apply Z.leb_gt; lia.
      * intros Hv. apply Z.leb_le in Hv. lia.
  - set (a := Shortener.nearest (minutes * 60)) in *.
    rewrite (Hpos (a * 1000)%Z) by lia.
    pose proof (nearest_large (a * 1000) ltac:(lia)) as Hp.
    set (p := Shortener.nearest (a * 1000)) in *.
    rewrite (Hpos (createdAt + p)%Z) by lia.
    pose proof (nearest_large (createdAt + p) ltac:(lia)) as Hs.
    split.
    + transitivity false; [|symmetry]; apply Z.leb_gt; lia.
    + intros Hv. apply Z.leb_le in Hv. lia.
Qed.

(* ===================================================================== *)
(** ** Redirections and statistics together *)
(* ===================================================================== *)

(** X20. The statistics count the redirections.  After a call of
    [redirectShortUrl] that followed a link and recorded its click,
    [getShortUrlStats] for that shortcode reports one click more than were
    recorded before, with the new click last in the details, and for any
    other shortcode it reports what was recorded before.  It does so whether
    or not the link has expired, and it changes no table. *)
Theorem stats_count_redirects (w w' : Shortener.World) (code other : string)
    (req : Shortener.Request) (st st' : Shortener.State)
    (row target : Shortener.UrlRow) :
  Shortener.dbError w (Shortener.statements st) = None ->
  Shortener.dbError w (S (Shortener.statements st)) = None ->
  Shortener.lookupUrl code st = Some row ->
  (Shortener.clock w (Shortener.dates st) <= Shortener.expires_at row)%Z ->
  st' = snd (Shortener.redirectShortUrl w code req st) ->
  Shortener.dbError w' (Shortener.statements st') = None ->
  Shortener.dbError w' (S (Shortener.statements st')) = None ->
  Shortener.lookupUrl other st = Some target ->
  let new :=
    if String.eqb code other
    then [Shortener.mkClickRow code (Shortener.clock w (Shortener.dates st))
            (if JS.truthy (Shortener.referer req)
             then Shortener.referer req else None)
            (Shortener.getClientIp req)]
    else [] in
  fst (Shortener.getShortUrlStats w' other st')
    = Shortener.Json 200
        (Shortener.StatsBody (Shortener.shortcode target)
           (Shortener.original_url target) (Shortener.created_at target)
           (Shortener.expires_at target)
           (List.length (Shortener.clicksOf other st) + List.length new)
           (map (fun click =>
                   Shortener.mkClickDetail (Shortener.click_timestamp click)
                     (Shortener.referrer click) (Shortener.ip_address click))
              (Shortener.clicksOf other st ++ new)%list))
  /\ Shortener.clicks (snd (Shortener.getShortUrlStats w' other st'))
     = Shortener.clicks st'
  /\ Shortener.shortened_urls (snd (Shortener.getShortUrlStats w' other st'))
     = Shortener.shortened_urls st.
Proof.
  intros Hdb0 Hdb1 Hrow Hlive Hst Hdb2 Hdb3 Htarget new.
  destruct (redirectShortUrl_cases w code req st) as [Hu Hr].
  rewrite Hdb0, Hrow in Hr.
  destruct (Z.ltb_spec (Shortener.expires_at row)
              (Shortener.clock w (Shortener.dates st))) as [Hlt|_]; [lia|].
  destruct Hr as [_ Hc]. rewrite Hdb1 in Hc. rewrite <- Hst in Hu, Hc.
  assert (Hlook : Shortener.lookupUrl other st' = Some target).
  { unfold Shortener.lookupUrl in *. now rewrite Hu. }
  assert (Hclicks : Shortener.clicksOf other st'
                    = (Shortener.clicksOf other st ++ new)%list).
  { unfold Shortener.clicksOf, new. rewrite Hc, filter_app.
    cbn [filter Shortener.click_shortcode].
    now destruct (String.eqb code other). }
  destruct (getShortUrlStats_cases w' other st') as (Hu' & Hc' & Hs).
  rewrite Hdb2, Hlook, Hdb3, Hclicks, length_app in Hs.
  repeat split; [exact Hs | exact Hc' | now rewrite Hu', Hu].
Qed.

(** The link [AAAAAAA] is followed once and its statistics are read. *)
Lemma stats_count_redirects_witness :
  fst (Shortener.getShortUrlStats Shortener.quietWorld "AAAAAAA"
         (snd (Shortener.redirectShortUrl Shortener.quietWorld "AAAAAAA"
                 Shortener.plainRequest Shortener.oneCodeTaken)))
  = Shortener.Json 200
      (Shortener.StatsBody "AAAAAAA" "http://localhost" 1700000000000
         1700001800000 1
         [Shortener.mkClickDetail 1700000000000 None (Some "198.51.100.4")]).
Proof.
  refine (proj1 (stats_count_redirects Shortener.quietWorld
                   Shortener.quietWorld "AAAAAAA" "AAAAAAA"
                   Shortener.plainRequest Shortener.oneCodeTaken _
                   (Shortener.mkUrlRow "AAAAAAA" "http://localhost"
                      1700000000000 1700001800000)
                   (Shortener.mkUrlRow "AAAAAAA" "http://localhost"
                      1700000000000 1700001800000)
                   eq_refl eq_refl eq_refl _ eq_refl eq_refl eq_refl eq_refl)).
  cbn. lia.
Defined.

(* ===================================================================== *)
(** ** A shortcode length that is no positive number *)
(* ===================================================================== *)

(** X21. If [SHORTCODE_LENGTH] reads as [NaN] or as a number that is not
    positive, every generated shortcode is empty.  With a working database,
    the first creation without a custom shortcode then stores the link under
    the empty shortcode and answers 201 with the short link of the bare host;
    and once the empty shortcode is taken, a creation without a custom
    shortcode never answers, whatever the number of turns allowed. *)
Theorem unusable_length_blocks_creation (w : Shortener.World)
    (config : Shortener.Config) (body : Shortener.CreateBody)
    (st : Shortener.State) (theUrl : string) (minutes : Z) :
  match Shortener.shortcodeLength config with
  | Some n => (n <= 0)%Z
  | None => True
  end ->
  (forall k, Shortener.dbError w k = None) ->
  Shortener.url body = Some theUrl ->
  theUrl <> "" ->
  Shortener.urlRegex_test config theUrl = true ->
  match Shortener.validity body with
  | Some v => Shortener.parseValidity v
  | None => Shortener.defaultValidityMinutes config
  end = Some minutes ->
  (0 < minutes)%Z ->
  Shortener.valid_time
    (Shortener.clock w (Shortener.dates st) + minutes * 60 * 1000) = true ->
  JS.truthy (Shortener.customShortcode body) = false ->
  (Shortener.taken "" (Shortener.shortened_urls st) = false ->
   forall fuel, exists st',
     Shortener.createShortUrl w config (S fuel) body st
     = (Shortener.Resolved
          (Shortener.Json 201
             (Shortener.CreatedBody
                ("http://" ++ Shortener.hostname config ++ "/")
                (Shortener.clock w (Shortener.dates st)
                 + minutes * 60 * 1000))),
        st')
     /\ Shortener.taken "" (Shortener.shortened_urls st') = true)
  /\ (Shortener.taken "" (Shortener.shortened_urls st) = true ->
      forall fuel,
        fst (Shortener.createShortUrl w config fuel body st)
        = Shortener.OutOfFuel).
Proof.
  intros Hlen Hdb Hurl Hne Htest Hval Hpos Htime Hcustom.
  assert (Hzero : Shortener.to_length (Shortener.shortcodeLength config) = 0).
  { destruct (Shortener.shortcodeLength config) as [n|]; cbn; [lia|reflexivity]. }
  assert (Hturn : forall st0 j, Shortener.turn w st0 0 j = "")
    by reflexivity.
  assert (Hhead : forall fuel,
    Shortener.createShortUrl w config fuel body st
    = match Shortener.generateUniqueShortcode w fuel 0
              (snd (Shortener.newDate w st)) with
      | (Shortener.Resolved code, st2) =>
          Shortener.saveShortUrl w config code theUrl minutes
            (Shortener.clock w (Shortener.dates st)) st2
      | (Shortener.Rejected _, st2) => Shortener.createFailed st2
      | (Shortener.OutOfFuel, st2) => (Shortener.OutOfFuel, st2)
      end).
  { intros fuel. unfold Shortener.createShortUrl.
    rewrite Hurl, Htest, Hval, Hcustom, Hzero.
    destruct (String.eqb_spec theUrl "") as [He|_]; [contradiction|].
    cbn [negb orb].
    destruct (Z.leb_spec minutes 0) as [Hle|_]; [lia|].
    reflexivity. }
  split.
  - intros Hfree fuel. rewrite Hhead.
    cbn [Shortener.generateUniqueShortcode Shortener.candidate].
    change (Shortener.too_long 0) with false. cbv iota.
    unfold Shortener.selectOne. rewrite Hdb.
    cbn [Shortener.newDate snd Shortener.drawn Shortener.shortened_urls].
    rewrite Hfree. cbn [negb].
    unfold Shortener.saveShortUrl. rewrite Htime. cbn [negb].
    unfold Shortener.insertUrl, Shortener.ran, Shortener.drawn.
    cbn [Shortener.shortened_urls Shortener.shortcode Shortener.statements].
    rewrite Hdb, Hfree. eexists. split; [reflexivity|].
    cbn [Shortener.logEvent Shortener.shortened_urls].
    unfold Shortener.taken. rewrite existsb_app. cbn.
    apply orb_true_r.
  - intros Htaken fuel. rewrite Hhead.
    pose proof (generate_turns w 0 fuel (snd (Shortener.newDate w st))) as H.
    destruct (Shortener.generateUniqueShortcode w fuel 0
                (snd (Shortener.newDate w st))) as [[code| err |] st2];
      [| |reflexivity]; exfalso.
    + destruct H as (_ & j & _ & Hc & Hf & _). rewrite Hturn in Hc. subst code.
      cbn [Shortener.newDate snd Shortener.shortened_urls] in Hf. congruence.
    + destruct H as [(Hno & _) | (_ & j & m & _ & _ & Hd & _)];
        [discriminate|].
      rewrite Hdb in Hd. discriminate.
Qed.

(** [SHORTCODE_LENGTH=abc] with empty tables. *)
Lemma unusable_length_blocks_creation_witness :
  exists st',
    Shortener.createShortUrl Shortener.quietWorld
      (Shortener.loadConfig (Some "abc") None None
         (fun u => String.prefix "http" u))
      1 (Shortener.mkCreateBody (Some "http://example.org/page") None None)
      Shortener.emptyTables
    = (Shortener.Resolved
         (Shortener.Json 201
            (Shortener.CreatedBody "http://localhost:3000/"
               (1700000000000 + 30 * 60 * 1000))),
       st')
    /\ Shortener.taken "" (Shortener.shortened_urls st') = true.
Proof.
  refine (proj1 (unusable_length_blocks_creation Shortener.quietWorld
                   (Shortener.loadConfig (Some "abc") None None
                      (fun u => String.prefix "http" u))
                   (Shortener.mkCreateBody (Some "http://example.org/page")
                      None None)
                   Shortener.emptyTables "http://example.org/page" 30
                   I (fun _ => eq_refl) eq_refl _ eq_refl eq_refl _ eq_refl
                   eq_refl) eq_refl 0).
  - discriminate.
  - lia.
Defined.

(* ===================================================================== *)
(** ** Custom shortcodes *)
(* ===================================================================== *)

(** X22. A custom shortcode is used as it was given, or the request is
    refused; it is never replaced by a generated one, and no random index is
    drawn.  For a request whose URL and validity pass: a custom shortcode
    that fails [isShortcodeValid] is answered 400 before any statement is
    run; a valid one that is taken is answered 409, naming it, and the links
    stay as they were; a valid one that is free is stored with the URL and
    answered 201 with the short link ending in it, provided the insertion
    works. *)
Theorem custom_shortcode_rule (w : Shortener.World)
    (config : Shortener.Config) (fuel : nat) (body : Shortener.CreateBody)
    (st : Shortener.State) (theUrl c : string) (minutes : Z) :
  Shortener.url body = Some theUrl ->
  theUrl <> "" ->
  Shortener.urlRegex_test config theUrl = true ->
  match Shortener.validity body with
  | Some v => Shortener.parseValidity v
  | None => Shortener.defaultValidityMinutes config
  end = Some minutes ->
  (0 < minutes)%Z ->
  Shortener.customShortcode body = Some c ->
  c <> "" ->
  let out := Shortener.createShortUrl w config fuel body st in
  let now := Shortener.clock w (Shortener.dates st) in
  let expiry := (now + minutes * 60 * 1000)%Z in
  Shortener.randoms (snd out) = Shortener.randoms st
  /\ (Shortener.isShortcodeValid c = false ->
      fst out
        = Shortener.Resolved
            (Shortener.badRequest
               "Custom shortcode must be alphanumeric and between 3 and 15 characters long.")
      /\ Shortener.statements (snd out) = Shortener.statements st
      /\ Shortener.shortened_urls (snd out) = Shortener.shortened_urls st)
  /\ (Shortener.isShortcodeValid c = true ->
      Shortener.dbError w (Shortener.statements st) = None ->
      (Shortener.taken c (Shortener.shortened_urls st) = true ->
       fst out
         = Shortener.Resolved
             (Shortener.Json 409
                (Shortener.ErrorBody "Conflict"
                   ("Custom shortcode '" ++ c ++ "' is already in use.")))
       /\ Shortener.statements (snd out) = S (Shortener.statements st)
       /\ Shortener.shortened_urls (snd out) = Shortener.shortened_urls st)
      /\ (Shortener.taken c (Shortener.shortened_urls st) = false ->
          Shortener.dbError w (S (Shortener.statements st)) = None ->
          Shortener.valid_time expiry = true ->
          fst out
            = Shortener.Resolved
                (Shortener.Json 201
                   (Shortener.CreatedBody
                      ("http://" ++ Shortener.hostname config ++ "/" ++ c)
                      expiry))
          /\ Shortener.lookupUrl c (snd out)
             = Some (Shortener.mkUrlRow c theUrl now expiry))).
Proof.
  intros Hurl Hne Htest Hval Hpos Hcust Hcne out now expiry.
  assert (Hhead : out
    = let st1 := snd (Shortener.newDate w st) in
      if negb (Shortener.isShortcodeValid c) then
        (Shortener.Resolved
           (Shortener.badRequest
              "Custom shortcode must be alphanumeric and between 3 and 15 characters long."),
         Shortener.logEvent "error" None st1)
      else
        match Shortener.dbGetUrl w c st1 with
        | (Shortener.Resolved (Some _), st2) =>
            (Shortener.Resolved
               (Shortener.Json 409
                  (Shortener.ErrorBody "Conflict"
                     ("Custom shortcode '" ++ c ++ "' is already in use."))),
             Shortener.logEvent "error" (Some c) st2)
        | (Shortener.Resolved None, st2) =>
            Shortener.saveShortUrl w config c theUrl minutes now st2
        | (Shortener.Rejected _, st2) => Shortener.createFailed st2
        | (Shortener.OutOfFuel, st2) => (Shortener.OutOfFuel, st2)
        end).
  { unfold out, Shortener.createShortUrl.
    rewrite Hurl, Htest, Hval, Hcust.
    destruct (String.eqb_spec theUrl "") as [He|_]; [contradiction|].
    cbn [negb orb].
    destruct (Z.leb_spec minutes 0) as [Hle|_]; [lia|].
    cbn [JS.truthy].
    destruct (String.eqb_spec c "") as [He|_]; [contradiction|].
    reflexivity. }
  rewrite Hhead. clear Hhead. cbv zeta.
  unfold Shortener.dbGetUrl, Shortener.saveShortUrl, Shortener.insertUrl,
    Shortener.createFailed, Shortener.newDate, Shortener.ran,
    Shortener.logEvent.
  assert (Hfind : Shortener.taken c (Shortener.shortened_urls st) = false
                  <-> find (fun r => String.eqb (Shortener.shortcode r) c)
                        (Shortener.shortened_urls st) = None)
    by apply taken_find.
  cbn [fst snd Shortener.statements Shortener.shortened_urls
       Shortener.shortcode Shortener.clicks Shortener.randoms Shortener.dates
       Shortener.logged].
  fold now. fold expiry.
  destruct (Shortener.isShortcodeValid c); cbn [negb fst snd Shortener.randoms
    Shortener.statements Shortener.shortened_urls].
  2: { split; [reflexivity|]. split; [|discriminate]. intros _. repeat split. }
  destruct (Shortener.dbError w (Shortener.statements st)) as [m|];
    cbn [fst snd Shortener.randoms].
  { split; [reflexivity|]. split; discriminate. }
  destruct (find _ (Shortener.shortened_urls st)) as [r|] eqn:Hf;
    cbn [fst snd Shortener.randoms Shortener.statements
         Shortener.shortened_urls].
  { split; [reflexivity|]. split; [discriminate|]. intros _ _. split.
    - intros _. repeat split.
    - intros Ht. apply Hfind in Ht. discriminate. }
  assert (Ht : Shortener.taken c (Shortener.shortened_urls st) = false)
    by now apply Hfind.
  rewrite Ht.
  destruct (Shortener.valid_time expiry); cbn [negb fst snd Shortener.randoms];
    destruct (Shortener.dbError w (S (Shortener.statements st))) as [m|];
    cbn [fst snd Shortener.randoms];
    (split; [reflexivity|]); (split; [discriminate|]); intros _ _;
    (split; [intros Hx; discriminate|]); intros _ Hdb Htime;
    try discriminate.
  split; [reflexivity|].
  unfold Shortener.lookupUrl. cbn [Shortener.shortened_urls].
  apply find_app_new; [exact Hf|]. cbn. apply String.eqb_refl.
Qed.

(** The shortcode [docs2024], free and then taken. *)
Lemma custom_shortcode_rule_witness :
  fst (Shortener.createShortUrl Shortener.quietWorld Shortener.someConfig 0
         Shortener.exampleBody Shortener.emptyTables)
  = Shortener.Resolved
      (Shortener.Json 201
         (Shortener.CreatedBody "http://localhost:3000/docs2024"
            (1700000000000 + 45 * 60 * 1000))).
Proof.
  refine (proj1 (proj2 (proj2 (proj2
            (custom_shortcode_rule Shortener.quietWorld Shortener.someConfig 0
               Shortener.exampleBody Shortener.emptyTables
               "http://example.org/page" "docs2024" 45
               eq_refl _ eq_refl eq_refl _ eq_refl _)) eq_refl eq_refl)
            eq_refl eq_refl eq_refl)).
  - discriminate.
  - lia.
  - discriminate.
Defined.

(* ===================================================================== *)
(** ** The URL test of the configuration *)
(* ===================================================================== *)

Section Derivatives.

Variable i : bool.

Lemma never_matches (s : string) : ~ RegExp.matches i RegExp.Never s.
Proof. intros H. inversion H. Qed.

Lemma empty_matches (s : string) : RegExp.matches i RegExp.Empty s -> s = "".
Proof. intros H. now inversion H. Qed.

Lemma seq_matches (r1 r2 : RegExp.regex) (s : string) :
  RegExp.matches i (RegExp.Seq r1 r2) s ->
  exists s1 s2,
    s = s1 ++ s2 /\ RegExp.matches i r1 s1 /\ RegExp.matches i r2 s2.
Proof. intros H. inversion H; subst. eauto. Qed.

Lemma alt_matches (r1 r2 : RegExp.regex) (s : string) :
  RegExp.matches i (RegExp.Alt r1 r2) s ->
  RegExp.matches i r1 s \/ RegExp.matches i r2 s.
Proof. intros H. inversion H; subst; auto. Qed.

Lemma atom_matches (a : RegExp.atom) (s : string) :
  RegExp.matches i (RegExp.Atom a) s ->
  exists c, s = String c "" /\ RegExp.atom_test i a c = true.
Proof. intros H. inversion H; subst. eauto. Qed.

Lemma mkAlt_matches (r1 r2 : RegExp.regex) (s : string) :
  RegExp.matches i (RegExp.mkAlt r1 r2) s
  <-> RegExp.matches i r1 s \/ RegExp.matches i r2 s.
Proof.
  split.
  - destruct r1, r2; cbn; intros H; auto; now apply alt_matches.
  - intros [H | H]; destruct r1, r2; cbn;
      try (now apply never_matches in H);
      try exact H;
      try (now apply RegExp.matches_left);
      try (now apply RegExp.matches_right).
Qed.

Lemma mkSeq_matches (r1 r2 : RegExp.regex) (s : string) :
  RegExp.matches i (RegExp.mkSeq r1 r2) s
  <-> exists s1 s2,
        s = s1 ++ s2 /\ RegExp.matches i r1 s1 /\ RegExp.matches i r2 s2.
Proof.
  split.
  - intros H.
    assert (Hl : RegExp.matches i r1 s -> RegExp.matches i RegExp.Empty ""
                 -> exists s1 s2, s = s1 ++ s2 /\ RegExp.matches i r1 s1
                      /\ RegExp.matches i RegExp.Empty s2).
    { intros H1 H2. exists s, "". now rewrite append_empty_r. }
    assert (Hr : RegExp.matches i r2 s
                 -> exists s1 s2, s = s1 ++ s2
                      /\ RegExp.matches i RegExp.Empty s1
                      /\ RegExp.matches i r2 s2).
    { intros H2. exists "", s. repeat split; [constructor | exact H2]. }
    destruct r1, r2; cbn in H;
      try (now apply never_matches in H);
      try (now apply seq_matches);
      try (apply Hr; exact H);
      try (apply Hl; [exact H | constructor]).
  - intros (s1 & s2 & -> & H1 & H2).
    destruct r1, r2; cbn;
      try (now apply never_matches in H1);
      try (now apply never_matches in H2);
      try (apply empty_matches in H1; subst s1; exact H2);
      try (apply empty_matches in H2; subst s2; rewrite append_empty_r;
           exact H1);
      now constructor.
Qed.

Lemma append_is_empty (s1 s2 : string) : s1 ++ s2 = "" -> s1 = "" /\ s2 = "".
Proof. destruct s1; cbn; [auto | discriminate]. Qed.

Lemma nullable_matches (r : RegExp.regex) :
  RegExp.nullable r = true <-> RegExp.matches i r "".
Proof.
  induction r as [| |a|r1 IH1 r2 IH2|r1 IH1 r2 IH2|r IH]; cbn.
  - split; [discriminate | intros H; inversion H].
  - split; [constructor | reflexivity].
  - split; [discriminate | intros H; inversion H].
  - rewrite andb_true_iff, IH1, IH2. split.
    + intros [H1 H2]. now apply (RegExp.matches_seq i r1 r2 "" "").
    + intros H. apply seq_matches in H as (s1 & s2 & He & H1 & H2).
      symmetry in He. apply append_is_empty in He as [-> ->]. auto.
  - rewrite orb_true_iff, IH1, IH2. split.
    + intros [H | H]; [now apply RegExp.matches_left
                      | now apply RegExp.matches_right].
    + apply alt_matches.
  - split; [constructor | reflexivity].
Qed.

(** A non-empty match of [r*] starts with a non-empty match of [r]. *)
Lemma star_cons (r : RegExp.regex) (c : ascii) (s : string) :
  RegExp.matches i (RegExp.Star r) (String c s) ->
  exists s1 s2,
    s = s1 ++ s2 /\ RegExp.matches i r (String c s1)
    /\ RegExp.matches i (RegExp.Star r) s2.
Proof.
  intros H. remember (RegExp.Star r) as q eqn:Hq.
  remember (String c s) as t eqn:Ht.
  induction H as [| | | | | |r0 s1 s2 H1 _ H2 IH]; try discriminate.
  injection Hq as ->.
  destruct s1 as [|c1 s1]; cbn in Ht.
  - now apply IH.
  - injection Ht as -> <-. eauto.
Qed.

Lemma deriv_matches (c : ascii) (r : RegExp.regex) : forall s,
  RegExp.matches i (RegExp.deriv i c r) s
  <-> RegExp.matches i r (String c s).
Proof.
  induction r as [| |a|r1 IH1 r2 IH2|r1 IH1 r2 IH2|r IH]; intros s;
    cbn [RegExp.deriv].
  - split; intros H; inversion H.
  - split; intros H; inversion H.
  - destruct (RegExp.atom_test i a c) eqn:Ha; split; intros H.
    + apply empty_matches in H. subst s. now constructor.
    + apply atom_matches in H as (c' & He & _). injection He as _ ->.
      constructor.
    + now apply never_matches in H.
    + apply atom_matches in H as (c' & He & Hc). injection He as -> _.
      congruence.
  - assert (Hfirst : RegExp.matches i
                       (RegExp.mkSeq (RegExp.deriv i c r1) r2) s
                     <-> exists s1 s2, s = s1 ++ s2
                           /\ RegExp.matches i r1 (String c s1)
                           /\ RegExp.matches i r2 s2).
    { rewrite mkSeq_matches. split; intros (s1 & s2 & He & H1 & H2);
        exists s1, s2; repeat split; auto; now apply IH1. }
    assert (Hsplit : RegExp.matches i (RegExp.Seq r1 r2) (String c s)
                     <-> (exists s1 s2, s = s1 ++ s2
                            /\ RegExp.matches i r1 (String c s1)
                            /\ RegExp.matches i r2 s2)
                         \/ (RegExp.matches i r1 ""
                             /\ RegExp.matches i r2 (String c s))).
    { split.
      - intros H. apply seq_matches in H as (s1 & s2 & He & H1 & H2).
        destruct s1 as [|c1 s1]; cbn in He.
        + right. subst s2. auto.
        + injection He as <- ->. left. eauto.
      - intros [(s1 & s2 & -> & H1 & H2) | [H1 H2]].
        + now apply (RegExp.matches_seq i r1 r2 (String c s1) s2).
        + now apply (RegExp.matches_seq i r1 r2 "" (String c s)). }
    rewrite Hsplit.
    destruct (RegExp.nullable r1) eqn:Hn.
    + rewrite mkAlt_matches, Hfirst, IH2.
      apply nullable_matches in Hn. tauto.
    + rewrite Hfirst. split; [auto|].
      intros [H | [H _]]; [exact H|].
      apply nullable_matches in H. congruence.
  - rewrite mkAlt_matches, IH1, IH2. split.
    + intros [H | H]; [now apply RegExp.matches_left
                      | now apply RegExp.matches_right].
    + apply alt_matches.
  - rewrite mkSeq_matches. split.
    + intros (s1 & s2 & -> & H1 & H2). apply IH in H1.
      now apply (RegExp.matches_more i r (String c s1) s2).
    + intros H. apply star_cons in H as (s1 & s2 & He & H1 & H2).
      exists s1, s2. repeat split; auto. now apply IH.
Qed.

(** The test by derivatives decides the language of the pattern. *)
Lemma test_matches (s : string) : forall r,
  RegExp.test i r s = true <-> RegExp.matches i r s.
Proof.
  induction s as [|c s IH]; intros r; cbn [RegExp.test].
  - apply nullable_matches.
  - rewrite IH. apply deriv_matches.
Qed.

Lemma characters_append (s1 s2 : string) :
  characters (s1 ++ s2) = (characters s1 ++ characters s2)%list.
Proof. induction s1 as [|c s1 IH]; cbn; [reflexivity | now rewrite IH]. Qed.

Lemma atom_within_test (ok : ascii -> bool) (a : RegExp.atom) (c : ascii) :
  RegExp.atom_within i ok a = true ->
  RegExp.atom_test i a c = true -> ok c = true.
Proof.
  unfold RegExp.atom_within. rewrite forallb_forall. intros Hall Ht.
  specialize (Hall (nat_of_ascii c)).
  rewrite ascii_nat_embedding, Ht in Hall. apply Hall.
  apply in_seq. pose proof (nat_ascii_bounded c). lia.
Qed.

(** The characters of a match are characters that the atoms match. *)
Lemma within_matches (ok : ascii -> bool) (r : RegExp.regex) (s : string) :
  RegExp.matches i r s ->
  RegExp.within i ok r = true ->
  forall c, In c (characters s) -> ok c = true.
Proof.
  induction 1 as [|a c0 Ha|r1 r2 s1 s2 _ IH1 _ IH2|r1 r2 s _ IH|r1 r2 s _ IH
                  | |r s1 s2 _ IH1 _ IH2]; cbn [RegExp.within characters];
    intros Hw c Hc.
  - destruct Hc.
  - destruct Hc as [<- | []]. now apply (atom_within_test ok a).
  - apply andb_true_iff in Hw as [Hw1 Hw2].
    rewrite characters_append in Hc. apply in_app_or in Hc as [Hc | Hc]; auto.
  - apply andb_true_iff in Hw as [Hw1 Hw2]. auto.
  - apply andb_true_iff in Hw as [Hw1 Hw2]. auto.
  - destruct Hc.
  - rewrite characters_append in Hc. apply in_app_or in Hc as [Hc | Hc]; auto.
Qed.

Lemma chr_matches_itself (c : ascii) :
  RegExp.matches i (chr c) (String c "").
Proof.
  constructor. cbn. apply Nat.eqb_refl.
Qed.

Lemma chars_matches_itself (x : string) :
  RegExp.matches i (RegExp.chars x) x.
Proof.
  induction x as [|c x IH]; cbn; [constructor|].
  apply (RegExp.matches_seq i _ _ (String c "") x); [|exact IH].
  apply chr_matches_itself.
Qed.

(** [r+] matches any non-empty string of characters that [r] matches. *)
Lemma star_of_atom (a : RegExp.atom) (s : string) :
  (forall c, In c (characters s) -> RegExp.atom_test i a c = true) ->
  RegExp.matches i (RegExp.Star (RegExp.Atom a)) s.
Proof.
  induction s as [|c s IH]; intros Hall; [constructor|].
  apply (RegExp.matches_more i _ (String c "") s).
  - constructor. apply Hall. now left.
  - apply IH. intros c' Hc'. apply Hall. now right.
Qed.

End Derivatives.

Lemma toLowerCase_append (s1 s2 : string) :
  JS.toLowerCase (s1 ++ s2) = JS.toLowerCase s1 ++ JS.toLowerCase s2.
Proof. induction s1 as [|c s1 IH]; cbn; [reflexivity | now rewrite IH]. Qed.

(** With the [i] flag, a character of a scheme is matched by its two cases
    and by nothing else. *)
Lemma scheme_character (x c : ascii) :
  In x (characters "htpfs:/") ->
  RegExp.atom_test true (RegExp.Chr x) c = true <-> JS.lower_char c = x.
Proof.
  intros Hx. cbn in Hx.
  assert (Hdec : (RegExp.atom_test true (RegExp.Chr x) c
                  = Ascii.eqb (JS.lower_char c) x)).
  { destruct Hx as [<-|[<-|[<-|[<-|[<-|[<-|[<-|[]]]]]]]];
      destruct c as [[] [] [] [] [] [] [] []]; reflexivity. }
  rewrite Hdec. apply Ascii.eqb_eq.
Qed.

Lemma scheme_chars (x s : string) :
  (forall c, In c (characters x) -> In c (characters "htpfs:/")) ->
  RegExp.matches true (RegExp.chars x) s <-> JS.toLowerCase s = x.
Proof.
  revert s. induction x as [|c x IH]; intros s Hx; cbn [RegExp.chars].
  - split.
    + intros H. apply empty_matches in H. now subst s.
    + destruct s; [constructor | discriminate].
  - assert (Hc : In c (characters "htpfs:/")) by (apply Hx; now left).
    assert (Hx' : forall c', In c' (characters x)
                             -> In c' (characters "htpfs:/"))
      by (intros c' H'; apply Hx; now right).
    split.
    + intros H. apply seq_matches in H as (s1 & s2 & -> & H1 & H2).
      apply atom_matches in H1 as (c1 & -> & H1).
      apply (scheme_character c c1 Hc) in H1. apply (IH s2 Hx') in H2.
      cbn. now rewrite H1, H2.
    + destruct s as [|c1 s]; [discriminate|]. cbn. intros He.
      injection He as H1 H2.
      apply (RegExp.matches_seq true _ _ (String c1 "") s).
      * constructor. now apply (scheme_character c c1 Hc).
      * now apply (IH s Hx').
Qed.

(** The scheme part of the pattern matches the four schemes in either case
    of each letter, and nothing else. *)
Lemma schemePattern_matches (s : string) :
  RegExp.matches true schemePattern s <-> In (JS.toLowerCase s) schemes.
Proof.
  assert (Hin : forall x, In x ["http"; "ftp"; "://"; "s"] ->
            forall c, In c (characters x) -> In c (characters "htpfs:/")).
  { intros x Hx c Hc. cbn in Hx.
    destruct Hx as [<-|[<-|[<-|[<-|[]]]]]; cbn in Hc |- *; tauto. }
  assert (Hs : forall t, RegExp.matches true (chr "s") t
                         <-> JS.toLowerCase t = "s").
  { intros t. rewrite <- (scheme_chars "s" t) by (apply Hin; cbn; tauto).
    cbn [RegExp.chars]. split.
    - intros H. rewrite <- (append_empty_r t).
      apply RegExp.matches_seq; [exact H | constructor].
    - intros H. apply seq_matches in H as (s1 & s2 & -> & H1 & H2).
      apply empty_matches in H2. subst s2. now rewrite append_empty_r. }
  unfold schemePattern, schemes.
  cbn [RegExp.cat RegExp.any RegExp.opt fold_right In].
  split.
  - intros H. apply seq_matches in H as (a & s1 & -> & Ha & H).
    apply seq_matches in H as (b & s2 & -> & Hb & H).
    apply seq_matches in H as (c & s3 & -> & Hc & H).
    apply empty_matches in H. subst s3.
    apply scheme_chars in Hc; [|apply Hin; cbn; tauto].
    rewrite !toLowerCase_append, Hc. cbn [JS.toLowerCase].
    assert (Hb' : JS.toLowerCase b = "s" \/ JS.toLowerCase b = "").
    { apply alt_matches in Hb as [Hb | Hb]; [left; now apply Hs|].
      apply empty_matches in Hb. subst b. now right. }
    assert (Ha' : JS.toLowerCase a = "http" \/ JS.toLowerCase a = "ftp").
    { apply alt_matches in Ha as [Ha | Ha];
        [left; apply scheme_chars in Ha; [exact Ha | apply Hin; cbn; tauto]|].
      apply alt_matches in Ha as [Ha | Ha];
        [right; apply scheme_chars in Ha; [exact Ha | apply Hin; cbn; tauto]|].
      now apply never_matches in Ha. }
    destruct Ha' as [-> | ->], Hb' as [-> | ->]; cbn; tauto.
  - intros H.
    assert (Hsplit : exists a b c,
              s = a ++ b ++ c ++ ""
              /\ (JS.toLowerCase a = "http" \/ JS.toLowerCase a = "ftp")
              /\ (JS.toLowerCase b = "s" \/ b = "")
              /\ JS.toLowerCase c = "://").
    { destruct H as [H|[H|[H|[H|[]]]]].
      - destruct s as [|c1 [|c2 [|c3 [|c4 [|c5 [|c6 [|c7 [|c8 t]]]]]]]];
          try discriminate.
        exists (String c1 (String c2 (String c3 (String c4 ""))))%string,
          "", (String c5 (String c6 (String c7 ""))).
        cbn in H |- *. injection H as <- <- <- <- <- <- <-. auto.
      - destruct s as [|c1 [|c2 [|c3 [|c4 [|c5 [|c6 [|c7 [|c8 [|c9 t]]]]]]]]];
          try discriminate.
        exists (String c1 (String c2 (String c3 (String c4 ""))))%string,
          (String c5 ""), (String c6 (String c7 (String c8 ""))).
        cbn in H |- *. injection H as <- <- <- <- <- <- <- <-. auto.
      - destruct s as [|c1 [|c2 [|c3 [|c4 [|c5 [|c6 [|c7 t]]]]]]];
          try discriminate.
        exists (String c1 (String c2 (String c3 "")))%string,
          "", (String c4 (String c5 (String c6 ""))).
        cbn in H |- *. injection H as <- <- <- <- <- <-. auto.
      - destruct s as [|c1 [|c2 [|c3 [|c4 [|c5 [|c6 [|c7 [|c8 t]]]]]]]];
          try discriminate.
        exists (String c1 (String c2 (String c3 "")))%string,
          (String c4 ""), (String c5 (String c6 (String c7 ""))).
        cbn in H |- *. injection H as <- <- <- <- <- <- <-. auto. }
    destruct Hsplit as (a & b & c & -> & Ha & Hb & Hc).
    apply RegExp.matches_seq; [|apply RegExp.matches_seq;
                                 [|apply RegExp.matches_seq; [|constructor]]].
    + destruct Ha as [Ha | Ha].
      * apply RegExp.matches_left.
        apply scheme_chars; [apply Hin; cbn; tauto | exact Ha].
      * apply RegExp.matches_right, RegExp.matches_left.
        apply scheme_chars; [apply Hin; cbn; tauto | exact Ha].
    + destruct Hb as [Hb | ->].
      * apply RegExp.matches_left. now apply Hs.
      * apply RegExp.matches_right. constructor.
    + apply scheme_chars; [apply Hin; cbn; tauto | exact Hc].
Qed.

Lemma star_atom_matches (i : bool) (a : RegExp.atom) (s : string) :
  RegExp.matches i (RegExp.Star (RegExp.Atom a)) s
  <-> all_chars (RegExp.atom_test i a) s = true.
Proof.
  unfold all_chars. rewrite forallb_forall. split.
  - intros H. remember (RegExp.Star (RegExp.Atom a)) as q eqn:Hq.
    induction H as [| | | | | |r s1 s2 H1 _ H2 IH]; try discriminate.
    + intros c [].
    + injection Hq as ->. intros c Hc. rewrite characters_append in Hc.
      apply in_app_or in Hc as [Hc | Hc]; [|now apply IH].
      apply atom_matches in H1 as (c1 & -> & H1).
      destruct Hc as [<- | []]. exact H1.
  - apply star_of_atom.
Qed.

(** [a+] matches the non-empty strings of characters that [a] matches. *)
Lemma plus_atom_matches (i : bool) (a : RegExp.atom) (s : string) :
  RegExp.matches i (RegExp.plus (RegExp.Atom a)) s
  <-> s <> "" /\ all_chars (RegExp.atom_test i a) s = true.
Proof.
  unfold RegExp.plus. split.
  - intros H. apply seq_matches in H as (s1 & s2 & -> & H1 & H2).
    apply atom_matches in H1 as (c & -> & H1).
    apply star_atom_matches in H2. cbn. split; [discriminate|].
    unfold all_chars in *. cbn. now rewrite H1.
  - intros [Hne H]. destruct s as [|c s]; [contradiction|].
    unfold all_chars in H. cbn in H. apply andb_true_iff in H as [Hc Hs].
    apply (RegExp.matches_seq i _ _ (String c "") s).
    + now constructor.
    + now apply star_atom_matches.
Qed.

Lemma single_matches (i : bool) (a : RegExp.atom) (s : string) :
  RegExp.matches i (RegExp.Atom a) s
  <-> exists c, s = String c "" /\ RegExp.atom_test i a c = true.
Proof.
  split; [apply atom_matches|]. intros (c & -> & H). now constructor.
Qed.

Lemma seq_matches_iff (i : bool) (r1 r2 : RegExp.regex) (s : string) :
  RegExp.matches i (RegExp.Seq r1 r2) s
  <-> exists s1 s2,
        s = s1 ++ s2 /\ RegExp.matches i r1 s1 /\ RegExp.matches i r2 s2.
Proof.
  split; [apply seq_matches|]. intros (s1 & s2 & -> & H1 & H2).
  now constructor.
Qed.

Lemma alt_matches_iff (i : bool) (r1 r2 : RegExp.regex) (s : string) :
  RegExp.matches i (RegExp.Alt r1 r2) s
  <-> RegExp.matches i r1 s \/ RegExp.matches i r2 s.
Proof.
  split; [apply alt_matches|].
  intros [H | H]; [now apply RegExp.matches_left
                  | now apply RegExp.matches_right].
Qed.

Lemma empty_matches_iff (i : bool) (s : string) :
  RegExp.matches i RegExp.Empty s <-> s = "".
Proof. split; [apply empty_matches | intros ->; constructor]. Qed.

(** A pattern followed by the empty pattern. *)
Lemma seq_empty_matches (i : bool) (r : RegExp.regex) (s : string) :
  RegExp.matches i (RegExp.Seq r RegExp.Empty) s <-> RegExp.matches i r s.
Proof.
  rewrite seq_matches_iff. split.
  - intros (s1 & s2 & -> & H1 & H2). apply empty_matches in H2. subst s2.
    now rewrite append_empty_r.
  - intros H. exists s, "". rewrite append_empty_r.
    repeat split; [exact H | constructor].
Qed.

Lemma colon_test (c : ascii) :
  RegExp.atom_test true (RegExp.Chr ":") c = Ascii.eqb c ":".
Proof. destruct c as [[] [] [] [] [] [] [] []]; reflexivity. Qed.

Lemma slash_test (c : ascii) :
  RegExp.atom_test true (RegExp.Chr "/") c = Ascii.eqb c "/".
Proof. destruct c as [[] [] [] [] [] [] [] []]; reflexivity. Qed.

Lemma slash_or_question_test (c : ascii) :
  RegExp.atom_test true (RegExp.Cls [("/", "/"); ("?", "?")]%char) c
  = (Ascii.eqb c "/" || Ascii.eqb c "?").
Proof. destruct c as [[] [] [] [] [] [] [] []]; reflexivity. Qed.

Lemma portPattern_matches (p : string) :
  RegExp.matches true portPattern p <-> isPort p.
Proof.
  unfold portPattern, isPort, RegExp.opt, digit, chr.
  cbn [RegExp.cat fold_right].
  rewrite alt_matches_iff, empty_matches_iff, seq_matches_iff.
  split.
  - intros [(s1 & s2 & -> & H1 & H2) | ->]; [right | now left].
    apply single_matches in H1 as (c & -> & Hc).
    rewrite colon_test in Hc. apply Ascii.eqb_eq in Hc. subst c.
    apply seq_empty_matches, plus_atom_matches in H2 as [Hne Hd].
    exists s2. auto.
  - intros [-> | (ds & -> & Hne & Hd)]; [now right | left].
    exists ":", ds. repeat split.
    + apply single_matches. exists ":"%char. auto.
    + apply seq_empty_matches, plus_atom_matches. auto.
Qed.

Lemma pathPattern_matches (t : string) :
  RegExp.matches true pathPattern t <-> isTail t.
Proof.
  unfold pathPattern, isTail, RegExp.opt, chr, no_space.
  cbn [RegExp.any RegExp.cat fold_right].
  rewrite !alt_matches_iff, empty_matches_iff, seq_matches_iff,
    single_matches.
  split.
  - intros [[(c & -> & Hc) | ->] | [(s1 & s2 & -> & H1 & H2) | H]].
    + rewrite slash_test in Hc. apply Ascii.eqb_eq in Hc. subst c. auto.
    + auto.
    + apply single_matches in H1 as (c & -> & Hc).
      rewrite slash_or_question_test in Hc.
      apply seq_empty_matches, plus_atom_matches in H2 as [Hne Hs].
      right. right. exists c, s2. repeat split; auto.
      apply orb_true_iff in Hc as [Hc | Hc]; apply Ascii.eqb_eq in Hc; auto.
    + now apply never_matches in H.
  - intros [-> | [-> | (c & rest & -> & Hc & Hne & Hs)]].
    + left. now right.
    + left. left. exists "/"%char. auto.
    + right. left. exists (String c ""), rest. repeat split.
      * apply single_matches. exists c. split; [reflexivity|].
        rewrite slash_or_question_test.
        destruct Hc as [-> | ->]; reflexivity.
      * apply seq_empty_matches, plus_atom_matches. auto.
Qed.

(** The parts of a URL that passes the test. *)
Lemma urlTest_parts (u : string) :
  urlTest u = true
  <-> exists scheme host port tail,
        u = scheme ++ host ++ port ++ tail
        /\ In (JS.toLowerCase scheme) schemes
        /\ RegExp.test true hostPattern host = true
        /\ isPort port
        /\ isTail tail.
Proof.
  unfold urlTest, urlRegex. cbn [RegExp.cat fold_right].
  rewrite test_matches, seq_matches_iff. split.
  - intros (a & r1 & -> & Ha & H).
    apply seq_matches in H as (h & r2 & -> & Hh & H).
    apply seq_matches in H as (p & r3 & -> & Hp & H).
    apply (proj1 (seq_empty_matches _ _ _)) in H.
    exists a, h, p, r3. repeat split.
    + now apply schemePattern_matches.
    + now apply test_matches.
    + now apply portPattern_matches.
    + now apply pathPattern_matches.
  - intros (a & h & p & t & -> & Ha & Hh & Hp & Ht).
    exists a, (h ++ p ++ t). repeat split.
    + now apply schemePattern_matches.
    + apply seq_matches_iff. exists h, (p ++ t). repeat split.
      * now apply test_matches.
      * apply seq_matches_iff. exists p, t. repeat split.
        -- now apply portPattern_matches.
        -- apply seq_empty_matches. now apply pathPattern_matches.
Qed.

Section Within.

Variable i : bool.
Variable ok : ascii -> bool.

Lemma within_cat (rs : list RegExp.regex) :
  Forall (fun r => RegExp.within i ok r = true) rs ->
  RegExp.within i ok (RegExp.cat rs) = true.
Proof.
  unfold RegExp.cat.
  induction 1 as [|r rs Hr _ IH]; cbn [fold_right RegExp.within];
    [reflexivity|].
  now rewrite Hr, IH.
Qed.

Lemma within_any (rs : list RegExp.regex) :
  Forall (fun r => RegExp.within i ok r = true) rs ->
  RegExp.within i ok (RegExp.any rs) = true.
Proof.
  unfold RegExp.any.
  induction 1 as [|r rs Hr _ IH]; cbn [fold_right RegExp.within];
    [reflexivity|].
  now rewrite Hr, IH.
Qed.

Lemma within_opt (r : RegExp.regex) :
  RegExp.within i ok r = true -> RegExp.within i ok (RegExp.opt r) = true.
Proof. intros H. cbn. now rewrite H. Qed.

Lemma within_plus (r : RegExp.regex) :
  RegExp.within i ok r = true -> RegExp.within i ok (RegExp.plus r) = true.
Proof. intros H. cbn. now rewrite H. Qed.

Lemma within_times (n : nat) (r : RegExp.regex) :
  RegExp.within i ok r = true -> RegExp.within i ok (RegExp.times n r) = true.
Proof.
  intros H. induction n as [|n IH]; cbn; [reflexivity|]. now rewrite H, IH.
Qed.

Lemma within_upto (n : nat) (r : RegExp.regex) :
  RegExp.within i ok r = true -> RegExp.within i ok (RegExp.upto n r) = true.
Proof.
  intros H. induction n as [|n IH]; cbn; [reflexivity|]. now rewrite H, IH.
Qed.

Lemma within_between (m n : nat) (r : RegExp.regex) :
  RegExp.within i ok r = true ->
  RegExp.within i ok (RegExp.between m n r) = true.
Proof.
  intros H. unfold RegExp.between. cbn [RegExp.within].
  now rewrite within_times, within_upto.
Qed.

Lemma within_atleast (m : nat) (r : RegExp.regex) :
  RegExp.within i ok r = true ->
  RegExp.within i ok (RegExp.atleast m r) = true.
Proof.
  intros H. unfold RegExp.atleast. cbn [RegExp.within].
  now rewrite within_times, H.
Qed.

Lemma within_chars (x : string) :
  Forall (fun c => RegExp.within i ok (chr c) = true) (characters x) ->
  RegExp.within i ok (RegExp.chars x) = true.
Proof.
  induction x as [|c x IH]; cbn [characters RegExp.chars RegExp.within];
    [reflexivity|].
  intros H. inversion H as [|c' l Hc Hl]; subst.
  unfold chr in Hc. cbn [RegExp.within] in Hc. now rewrite Hc, IH.
Qed.

End Within.

(** No atom of the expression matches white space. *)
Lemma urlRegex_no_space :
  RegExp.within true (fun c => negb (JS.is_space c)) urlRegex = true.
Proof.
  set (ok := fun c => negb (JS.is_space c)).
  assert (H1 : RegExp.within true ok alnumClass = true)
    by (vm_compute; reflexivity).
  assert (H2 : RegExp.within true ok alnumDashClass = true)
    by (vm_compute; reflexivity).
  assert (H3 : RegExp.within true ok alphaClass = true)
    by (vm_compute; reflexivity).
  assert (H4 : RegExp.within true ok digit = true)
    by (vm_compute; reflexivity).
  assert (H5 : forall c, In c (characters "htpfs:/.localhost") ->
                         RegExp.within true ok (chr c) = true).
  { intros c Hc. cbn in Hc.
    repeat (destruct Hc as [<- | Hc]; [vm_compute; reflexivity|]).
    destruct Hc. }
  assert (H6 : RegExp.within true ok
                 (RegExp.Atom (RegExp.Cls [("/", "/"); ("?", "?")]%char))
               = true) by (vm_compute; reflexivity).
  assert (H7 : RegExp.within true ok (RegExp.Atom RegExp.NonSpace) = true)
    by (vm_compute; reflexivity).
  unfold urlRegex, schemePattern, hostPattern, domainPattern, addressPattern,
    portPattern, pathPattern.
  repeat match goal with
         | |- RegExp.within _ _ alnumClass = true => exact H1
         | |- RegExp.within _ _ alnumDashClass = true => exact H2
         | |- RegExp.within _ _ alphaClass = true => exact H3
         | |- RegExp.within _ _ digit = true => exact H4
         | |- RegExp.within _ _ (RegExp.Atom (RegExp.Cls _)) = true =>
             exact H6
         | |- RegExp.within _ _ (RegExp.Atom RegExp.NonSpace) = true =>
             exact H7
         | |- RegExp.within _ _ (RegExp.cat _) = true => apply within_cat
         | |- RegExp.within _ _ (RegExp.any _) = true => apply within_any
         | |- RegExp.within _ _ (RegExp.opt _) = true => apply within_opt
         | |- RegExp.within _ _ (RegExp.plus _) = true => apply within_plus
         | |- RegExp.within _ _ (RegExp.between _ _ _) = true =>
             apply within_between
         | |- RegExp.within _ _ (RegExp.atleast _ _) = true =>
             apply within_atleast
         | |- RegExp.within _ _ (RegExp.chars _) = true =>
             apply within_chars; cbn [characters]
         | |- RegExp.within _ _ (chr _) = true => apply H5; cbn; tauto
         | |- Forall _ (_ :: _) => apply Forall_cons
         | |- Forall _ [] => apply Forall_nil
         end.
Qed.

(** A URL that passes the test starts with a scheme, goes on after it, and
    has no white space. *)
Lemma urlTest_shape (u : string) :
  urlTest u = true ->
  (exists scheme rest,
     u = scheme ++ rest /\ In (JS.toLowerCase scheme) schemes /\ rest <> "")
  /\ no_space u = true.
Proof.
  intros H. split.
  - apply urlTest_parts in H as (a & h & p & t & -> & Ha & Hh & _).
    exists a, (h ++ p ++ t). repeat split; [exact Ha|].
    destruct h as [|c h]; [discriminate Hh | discriminate].
  - unfold urlTest in H. apply test_matches in H.
    unfold no_space, all_chars. apply forallb_forall.
    apply (within_matches true _ urlRegex u H).
    apply urlRegex_no_space.
Qed.

(** X23. A URL that [config.urlRegex] accepts starts with [http://],
    [https://], [ftp://] or [ftps://], in either case of each letter, has a
    host after the scheme, and has no white space anywhere. *)
Theorem accepted_url_shape (u : string) :
  urlTest u = true ->
  (exists scheme rest,
     u = scheme ++ rest /\ In (JS.toLowerCase scheme) schemes /\ rest <> "")
  /\ (forall c, In c (characters u) -> JS.is_space c = false).
Proof.
  intros H. apply urlTest_shape in H as [Hs Hn]. split; [exact Hs|].
  intros c Hc. unfold no_space, all_chars in Hn.
  rewrite forallb_forall in Hn. apply Hn in Hc.
  now apply negb_true_iff in Hc.
Qed.

(** The URL [HTTPS://Sub.Example.COM:8080/a?b=c]. *)
Lemma accepted_url_shape_witness :
  exists scheme rest,
    "HTTPS://Sub.Example.COM:8080/a?b=c" = scheme ++ rest
    /\ In (JS.toLowerCase scheme) schemes /\ rest <> "".
Proof.
  apply (accepted_url_shape "HTTPS://Sub.Example.COM:8080/a?b=c").
  vm_compute. reflexivity.
Defined.

(** X24. [config.urlRegex] accepts exactly the strings made of four parts:
    one of the four schemes in any case; a host that the host part of the
    expression accepts; an optional port, which is a colon and digits; and
    an optional tail, which is a single slash, or a slash or question mark
    followed by characters that are not white space.  Whatever follows the
    host and port is therefore not examined beyond its white space. *)
Theorem url_test_by_parts (u : string) :
  urlTest u = true
  <-> exists scheme host port tail,
        u = scheme ++ host ++ port ++ tail
        /\ In (JS.toLowerCase scheme) schemes
        /\ RegExp.test true hostPattern host = true
        /\ isPort port
        /\ isTail tail.
Proof. apply urlTest_parts. Qed.

(** A local address with a port and a path. *)
Lemma url_test_by_parts_witness :
  urlTest "http://localhost:3000/page" = true.
Proof.
  apply (proj2 (url_test_by_parts "http://localhost:3000/page")).
  exists "http://", "localhost", ":3000", "/page".
  split; [reflexivity|]. split; [cbn; tauto|]. split; [reflexivity|].
  split.
  - right. exists "3000". split; [reflexivity|]. split; [discriminate|].
    reflexivity.
  - right. right. exists "/"%char, "page".
    split; [reflexivity|]. split; [now left|]. split; [discriminate|].
    reflexivity.
Defined.

(** X25. With the configuration that config/index.js exports,
    [createShortUrl] stores only URLs that pass the test: a request whose
    URL is missing or fails it is answered 400 and nothing else happens,
    and a request that is answered 201 has stored a row whose URL is the one
    of the request, starts with one of the four schemes and has no white
    space. *)
Theorem only_tested_urls_are_stored (w : Shortener.World)
    (SHORTCODE_LENGTH DEFAULT_VALIDITY_MINUTES HOSTNAME : option string)
    (fuel : nat) (body : Shortener.CreateBody) (st : Shortener.State) :
  let config :=
    exportedConfig SHORTCODE_LENGTH DEFAULT_VALIDITY_MINUTES HOSTNAME in
  (match Shortener.url body with
   | Some u => urlTest u = false
   | None => True
   end ->
   Shortener.createShortUrl w config fuel body st
   = (Shortener.Resolved
        (Shortener.badRequest
           "Invalid or missing 'url'. Must be a valid URL format."),
      Shortener.logEvent "error" None st))
  /\ (forall shortlink expiry st',
        Shortener.createShortUrl w config fuel body st
        = (Shortener.Resolved
             (Shortener.Json 201 (Shortener.CreatedBody shortlink expiry)),
           st') ->
        exists u row scheme rest,
          Shortener.url body = Some u
          /\ urlTest u = true
          /\ Shortener.shortened_urls st'
             = (Shortener.shortened_urls st ++ [row])%list
          /\ Shortener.original_url row = u
          /\ u = scheme ++ rest
          /\ In (JS.toLowerCase scheme) schemes
          /\ no_space u = true).
Proof.
  intros config. split.
  - intros Hurl. unfold Shortener.createShortUrl.
    destruct (Shortener.url body) as [u|]; [|reflexivity].
    unfold config, exportedConfig, Shortener.loadConfig.
    cbn [Shortener.urlRegex_test]. rewrite Hurl. cbn [negb].
    now rewrite orb_true_r.
  - intros shortlink expiry st' Hc.
    destruct (createShortUrl_cases _ _ _ _ _ _ _ Hc) as [_ [Hcr | Hre]].
    2: { destruct Hre as (s & e & m & Hr & _). discriminate. }
    destruct Hcr as (code & u & minutes & Hurl & _ & Ht & _ & _ & _ & _
                     & Hrows & _).
    unfold config, exportedConfig, Shortener.loadConfig in Ht.
    cbn [Shortener.urlRegex_test] in Ht.
    destruct (urlTest_shape u Ht) as [(scheme & rest & Hu & Hs & _) Hn].
    exists u, (Shortener.mkUrlRow code u
                 (Shortener.clock w (Shortener.dates st))
                 (Shortener.clock w (Shortener.dates st)
                  + minutes * 60 * 1000)), scheme, rest.
    repeat split; auto.
Qed.

(** A request without a scheme, under the default configuration. *)
Lemma only_tested_urls_are_stored_witness :
  Shortener.createShortUrl Shortener.quietWorld
    (exportedConfig None None None) 5
    (Shortener.mkCreateBody (Some "example.org/page") None None)
    Shortener.emptyTables
  = (Shortener.Resolved
       (Shortener.badRequest
          "Invalid or missing 'url'. Must be a valid URL format."),
     Shortener.logEvent "error" None Shortener.emptyTables).
Proof.
  apply (proj1 (only_tested_urls_are_stored Shortener.quietWorld None None
                  None 5
                  (Shortener.mkCreateBody (Some "example.org/page") None None)
                  Shortener.emptyTables)).
  vm_compute. reflexivity.
Defined.

Example urlRegex_examples :
  urlTest "http://example.org/page" = true
  /\ urlTest "HTTPS://Sub.Example.COM:8080/a?b=c" = true
  /\ urlTest "http://localhost:3000" = true
  /\ urlTest "ftp://192.168.0.1/file" = true
  /\ urlTest "example.org" = false
  /\ urlTest "http://example.org/a b" = false
  /\ urlTest "http://example" = false
  /\ urlTest "mailto:someone@example.org" = false.
Proof. vm_compute. repeat split. Qed.
